(** * EOU killmail pipeline: a shallow embedding of [scripts/pipeline.py],
      [scripts/zkb/rq_listener.py] and [scripts/zkb/esi_enricher.py].

    Python values that come out of [json.loads] are modelled by the type
    [json]; the Python operations the scripts apply to them ([.get], [bool()],
    [int()], [==], [len], iteration, [in]) are modelled next to it, each with
    the exception it raises.  Code with effects (HTTP, [bq], the clock) is
    written in a state-and-exception monad over a trace of calls. *)

From Stdlib Require Import ZArith List Ascii String Bool Lia QArith.
From Stdlib Require Import SpecFloat.
From stdpp Require Import base option list gmap strings pretty sorting.

Set Warnings "-register-all".
Local Open Scope Z_scope.

(** ** Python exceptions *)

Inductive exn : Type :=
| AttributeError
| TypeError
| ValueError
| KeyError
| IndexError
| OverflowError
| JSONDecodeError
| HTTPError (status : Z)
| RequestException (msg : string)
| RuntimeError (msg : string)
| CalledProcessError (returncode : Z)
| OSError (msg : string).

Inductive Res (A : Type) : Type :=
| Ok (a : A)
| Raise (e : exn).
Arguments Ok {A} a.
Arguments Raise {A} e.

#[global] Instance Res_ret : MRet Res := fun _ a => Ok a.
#[global] Instance Res_bind : MBind Res := fun _ _ f m =>
  match m with
  | Ok a => f a
  | Raise e => Raise e
  end.

#[global] Instance Res_fmap : FMap Res := fun _ _ f m =>
  match m with
  | Ok a => Ok (f a)
  | Raise e => Raise e
  end.

Definition is_ok {A} (r : Res A) : bool :=
  match r with Ok _ => true | Raise _ => false end.

(** ** JSON values as Python objects *)

Module Py.

Inductive json : Type :=
| JNull
| JBool (b : bool)
| JInt (n : Z)
| JFloat (f : spec_float)
| JStr (s : string)
| JArr (xs : list json)
| JObj (kvs : list (string * json)).

(** [bool(v)] *)
Definition truthy (v : json) : bool :=
  match v with
  | JNull => false
  | JBool b => b
  | JInt n => negb (n =? 0)
  | JFloat (S754_zero _) => false
  | JFloat _ => true
  | JStr s => negb (String.eqb s "")
  | JArr xs => match xs with [] => false | _ => true end
  | JObj kvs => match kvs with [] => false | _ => true end
  end.

(** [v is None] *)
Definition is_None (v : json) : bool :=
  match v with JNull => true | _ => false end.

(** [a or b] *)
Definition py_or (a b : json) : json := if truthy a then a else b.

Fixpoint assoc (k : string) (kvs : list (string * json)) : option json :=
  match kvs with
  | [] => None
  | (k', v) :: rest => if String.eqb k k' then Some v else assoc k rest
  end.

(** [d.get(k, dflt)]: only a dict has the method. *)
Definition get_default (d : json) (k : string) (dflt : json) : Res json :=
  match d with
  | JObj kvs => Ok (default dflt (assoc k kvs))
  | _ => Raise AttributeError
  end.

(** [d.get(k)] *)
Definition get (d : json) (k : string) : Res json := get_default d k JNull.

(** [d[k]] *)
Definition getitem (d : json) (k : string) : Res json :=
  match d with
  | JObj kvs => match assoc k kvs with Some v => Ok v | None => Raise KeyError end
  | JArr _ | JStr _ => Raise TypeError
  | _ => Raise TypeError
  end.

(** *** Strings *)

(** A character is a code point below 256.  [str.isspace], which
    [str.strip] uses: the blanks 9..13 and 28..32, NEL (133) and NBSP
    (160). *)
Definition is_space (c : ascii) : bool :=
  let n := nat_of_ascii c in
  ((9 <=? n) && (n <=? 13) || (28 <=? n) && (n <=? 32)
   || (n =? 133) || (n =? 160))%nat.

(** The blanks that [int()] skips around a number: 9..13 and 32, and NEL
    and NBSP, which it reads as a space.  The separators 28..31 are blanks
    for [str.strip] but not for [int()]. *)
Definition is_int_space (c : ascii) : bool :=
  let n := nat_of_ascii c in
  ((9 <=? n) && (n <=? 13) || (n =? 32) || (n =? 133) || (n =? 160))%nat.

Definition is_digit (c : ascii) : bool :=
  let n := nat_of_ascii c in ((48 <=? n) && (n <=? 57))%nat.

Definition digit_val (c : ascii) : Z := Z.of_nat (nat_of_ascii c) - 48.

Fixpoint lstrip (s : list ascii) : list ascii :=
  match s with
  | c :: r => if is_space c then lstrip r else s
  | [] => []
  end.

Definition strip (s : list ascii) : list ascii := rev (lstrip (rev (lstrip s))).

Fixpoint int_lstrip (s : list ascii) : list ascii :=
  match s with
  | c :: r => if is_int_space c then int_lstrip r else s
  | [] => []
  end.

Definition int_strip (s : list ascii) : list ascii :=
  rev (int_lstrip (rev (int_lstrip s))).

(** Digits with single underscores between them, as [int()] accepts them;
    [prev] tells whether the previous character was a digit. *)
Fixpoint digits_val (acc : Z) (prev : bool) (s : list ascii) : option Z :=
  match s with
  | [] => if prev then Some acc else None
  | c :: r =>
      if is_digit c then digits_val (10 * acc + digit_val c) true r
      else if (Ascii.eqb c "_" && prev)%bool then
             match r with
             | d :: _ => if is_digit d then digits_val acc false r else None
             | [] => None
             end
           else None
  end.

(** [int(s)] for a string, base 10.  Below code point 256 the only decimal
    digits are the ASCII ones. *)
Definition int_of_string (s : string) : option Z :=
  match int_strip (list_ascii_of_string s) with
  | "+"%char :: r => digits_val 0 false r
  | "-"%char :: r => Z.opp <$> digits_val 0 false r
  | r => digits_val 0 false r
  end.

Fixpoint split_chars (sep : ascii) (cur : list ascii) (s : list ascii)
  : list string :=
  match s with
  | [] => [string_of_list_ascii (rev cur)]
  | c :: r =>
      if Ascii.eqb c sep then string_of_list_ascii (rev cur) :: split_chars sep [] r
      else split_chars sep (c :: cur) r
  end.

(** [s.split(sep)] for a one-character separator. *)
Definition split (sep : ascii) (s : string) : list string :=
  split_chars sep [] (list_ascii_of_string s).

Definition lower_ascii (c : ascii) : ascii :=
  let n := nat_of_ascii c in
  if ((65 <=? n) && (n <=? 90))%nat then ascii_of_nat (n + 32) else c.

(** [s.lower()] (ASCII letters). *)
Definition lower (s : string) : string :=
  string_of_list_ascii (map lower_ascii (list_ascii_of_string s)).

Definition newline : string := String (ascii_of_nat 10) EmptyString.

(** [s.startswith(p)] *)
Definition startswith (p s : string) : bool := String.prefix p s.

Fixpoint contains_from (fuel : nat) (needle s : string) : bool :=
  if String.prefix needle s then true
  else match fuel, s with
       | S fuel', String _ r => contains_from fuel' needle r
       | _, _ => false
       end.

(** [needle in s] for strings. *)
Definition contains (needle s : string) : bool :=
  contains_from (String.length s) needle s.

(** *** Numbers: [int()] and [==] *)

(** [int(f)] for a float truncates towards zero. *)
Definition int_of_float (f : spec_float) : Res Z :=
  match f with
  | S754_zero _ => Ok 0
  | S754_infinity _ => Raise OverflowError
  | S754_nan => Raise ValueError
  | S754_finite neg m e =>
      let a := if 0 <=? e then Z.shiftl (Z.pos m) e
               else Z.shiftr (Z.pos m) (- e) in
      Ok (if neg then - a else a)
  end.

(** [int(v)] *)
Definition int (v : json) : Res Z :=
  match v with
  | JBool b => Ok (if b then 1 else 0)
  | JInt n => Ok n
  | JFloat f => int_of_float f
  | JStr s => match int_of_string s with
              | Some n => Ok n
              | None => Raise ValueError
              end
  | JNull | JArr _ | JObj _ => Raise TypeError
  end.

(** The exact value of a number: [m * 2^e], an infinity, or not a number. *)
Inductive num : Type :=
| NFin (m e : Z)
| NInf (neg : bool)
| NNan.

Definition num_of (v : json) : option num :=
  match v with
  | JBool b => Some (NFin (if b then 1 else 0) 0)
  | JInt n => Some (NFin n 0)
  | JFloat (S754_zero _) => Some (NFin 0 0)
  | JFloat (S754_infinity s) => Some (NInf s)
  | JFloat S754_nan => Some NNan
  | JFloat (S754_finite s m e) => Some (NFin (if s then Z.neg m else Z.pos m) e)
  | _ => None
  end.

Definition num_eqb (a b : num) : bool :=
  match a, b with
  | NFin m1 e1, NFin m2 e2 =>
      let e := Z.min e1 e2 in
      Z.shiftl m1 (e1 - e) =? Z.shiftl m2 (e2 - e)
  | NInf s1, NInf s2 => Bool.eqb s1 s2
  | _, _ => false
  end.

(** [a == b] on values built by [json.loads]: numbers (booleans included)
    by value, strings and lists structurally, dicts as maps. *)
Fixpoint py_eq (a b : json) : bool :=
  match a, b with
  | JNull, JNull => true
  | JStr s, JStr t => String.eqb s t
  | JArr xs, JArr ys =>
      (fix go (xs ys : list json) : bool :=
         match xs, ys with
         | [], [] => true
         | x :: xs', y :: ys' => py_eq x y && go xs' ys'
         | _, _ => false
         end) xs ys
  | JObj kvs, JObj kvs' =>
      (length kvs =? length kvs')%nat &&
      (fix go (l : list (string * json)) : bool :=
         match l with
         | [] => true
         | (k, v) :: r =>
             match assoc k kvs' with
             | Some v' => py_eq v v'
             | None => false
             end && go r
         end) kvs
  | _, _ =>
      match num_of a, num_of b with
      | Some x, Some y => num_eqb x y
      | _, _ => false
      end
  end.

(** [x in l] for a list [l]. *)
Definition py_in (x : json) (l : list json) : bool := existsb (py_eq x) l.

(** [iter(v)]: the elements a [for] loop sees. *)
Definition iter (v : json) : Res (list json) :=
  match v with
  | JArr xs => Ok xs
  | JStr s => Ok (map (fun c => JStr (String c EmptyString)) (list_ascii_of_string s))
  | JObj kvs => Ok (map (fun kv => JStr (fst kv)) kvs)
  | _ => Raise TypeError
  end.

(** [len(v)] *)
Definition len (v : json) : Res nat :=
  match v with
  | JArr xs => Ok (length xs)
  | JStr s => Ok (String.length s)
  | JObj kvs => Ok (length kvs)
  | _ => Raise TypeError
  end.

(** [v[0]]: a dict from JSON has string keys only, so the key [0] is absent. *)
Definition getitem0 (v : json) : Res json :=
  match v with
  | JArr (x :: _) => Ok x
  | JArr [] => Raise IndexError
  | JStr (String c _) => Ok (JStr (String c EmptyString))
  | JStr EmptyString => Raise IndexError
  | JObj _ => Raise KeyError
  | _ => Raise TypeError
  end.

(** Whether [hash(v)] is defined (needed by [set(...)]). *)
Definition hashable (v : json) : bool :=
  match v with
  | JArr _ | JObj _ => false
  | _ => true
  end.

End Py.
Export Py.

(** ** The outside world: HTTP, the [bq] tool, files and the clock *)

Module World.

(** A [requests.Response]: [body] is what [r.json()] parses ([None] when the
    body is not JSON). *)
Record response : Type := mkResponse {
  status_code : Z;
  headers : list (string * string);
  body : option json;
  text : string
}.

(** The statements the scripts hand to [bq query]. *)
Inductive sql : Type :=
| SqlCreateView                     (* CREATE OR REPLACE VIEW v_kills_raw_state *)
| SqlChoosePending (limit_n : Z)    (* the SELECT of [choose_pending] *)
| SqlRebuildEnriched                (* maintenance: kills_enriched *)
| SqlRawState                       (* maintenance: kills_raw_state *)
| SqlCompact (table : string).      (* maintenance: rewrite of one log *)

(** The [bq] command lines built by [pipeline.py]. *)
Inductive bq_cmd : Type :=
| BqShow (table : string)
| BqMk (table schema_path partition_field : string) (cluster_fields : list string)
| BqQuery (q : sql)
| BqQueryJson (q : sql)
| BqLoad (table ndjson_path schema_path : string) (append : bool).

Inductive Event : Type :=
| EvGet (url : string) (params hdrs : list (string * string)) (r : Res response)
| EvPost (url : string) (payload : json) (r : Res response)
| EvSleep (seconds : Q)
| EvSh (cmd : bq_cmd) (r : Res string)
| EvWrite (path : string) (lines : list string) (r : Res unit)
| EvWriteLine (path : string) (line : string)
| EvMakedirs (path : string) (r : Res unit)
| EvTime (t : Q)
| EvNowIso (ts : string)
| EvPrint (msg : string).

(** What the program cannot decide itself.  Every answer may depend on the
    calls made so far. *)
Record Env : Type := mkEnv {
  http_get : list Event -> string -> list (string * string) ->
             list (string * string) -> Res response;
  http_post : list Event -> string -> json -> Res response;
  run_sh : list Event -> bq_cmd -> Res string;
  fs_write : list Event -> string -> list string -> Res unit;
  fs_makedirs : list Event -> string -> Res unit;
  clock : list Event -> Q;              (* time.time() *)
  clock_iso : list Event -> string;     (* datetime.now(timezone.utc).isoformat() *)
  set_order : list json -> list json;   (* the order in which set(xs) is iterated *)
  json_dumps : json -> string;          (* json.dumps(v, separators=(",", ":")) *)
  json_dumps_unicode : json -> string;  (* json.dumps(v, ensure_ascii=False) *)
  json_loads : string -> Res json;
  py_repr : json -> string;             (* str(v) of floats, lists and dicts *)
  sha256_hex : string -> string;
  exn_str : exn -> string               (* str(ex) *)
}.

(** The state of one run: the calls made so far and the two dicts of the
    [ESI] object (one [ESI] object exists per run). *)
Record State : Type := mkState {
  trace : list Event;
  esi_cache : gmap string json;
  esi_etag : gmap string string
}.

Definition M (A : Type) : Type := State -> Res A * State.

#[global] Instance M_ret : MRet M := fun _ a s => (Ok a, s).
#[global] Instance M_bind : MBind M := fun _ _ f m s =>
  match m s with
  | (Ok a, s') => f a s'
  | (Raise e, s') => (Raise e, s')
  end.

#[global] Instance M_fmap : FMap M := fun _ _ f m s =>
  match m s with
  | (Ok a, s') => (Ok (f a), s')
  | (Raise e, s') => (Raise e, s')
  end.

Definition raise {A} (e : exn) : M A := fun s => (Raise e, s).

Definition lift {A} (r : Res A) : M A := fun s => (r, s).

(** [try: m except Exception as ex: h ex] *)
Definition try_except {A} (m : M A) (h : exn -> M A) : M A := fun s =>
  match m s with
  | (Ok a, s') => (Ok a, s')
  | (Raise e, s') => h e s'
  end.

Definition emit (e : Event) : State -> State := fun s =>
  {| trace := trace s ++ [e]; esi_cache := esi_cache s; esi_etag := esi_etag s |}.

Definition init_state : State :=
  {| trace := []; esi_cache := ∅; esi_etag := ∅ |}.

Section Calls.
Context (env : Env).

Definition requests_get (url : string) (params hdrs : list (string * string))
    : M response := fun s =>
    let r := http_get env (trace s) url params hdrs in
    (r, emit (EvGet url params hdrs r) s).

Definition requests_post (url : string) (payload : json) : M response := fun s =>
    let r := http_post env (trace s) url payload in
    (r, emit (EvPost url payload r) s).

Definition time_sleep (seconds : Q) : M unit := fun s =>
    (Ok tt, emit (EvSleep seconds) s).

Definition time_time : M Q := fun s =>
    let t := clock env (trace s) in (Ok t, emit (EvTime t) s).

Definition utc_now_iso : M string := fun s =>
    let t := clock_iso env (trace s) in (Ok t, emit (EvNowIso t) s).

  (** [subprocess.run(cmd, check=True)] *)
Definition sh (cmd : bq_cmd) : M string := fun s =>
    let r := run_sh env (trace s) cmd in (r, emit (EvSh cmd r) s).

  (** [with open(path, "w") as f: for l in lines: f.write(l)] *)
Definition write_file (path : string) (lines : list string) : M unit := fun s =>
    let r := fs_write env (trace s) path lines in
    (r, emit (EvWrite path lines r) s).

Definition print (msg : string) : M unit := fun s =>
    (Ok tt, emit (EvPrint msg) s).

  (** [f.write(line)] on a file opened before *)
Definition write_line (path line : string) : M unit := fun s =>
    (Ok tt, emit (EvWriteLine path line) s).

  (** [os.makedirs(path, exist_ok=True)] *)
Definition makedirs (path : string) : M unit := fun s =>
    let r := fs_makedirs env (trace s) path in (r, emit (EvMakedirs path r) s).

  (** [str(v)], as an f-string formats a value *)
Definition py_str (v : json) : string :=
    match v with
    | JStr s => s
    | JInt n => pretty n
    | JBool true => "True"
    | JBool false => "False"
    | JNull => "None"
    | _ => py_repr env v
    end.
End Calls.

(** [r.json()] *)
Definition response_json (r : response) : Res json :=
  match body r with
  | Some j => Ok j
  | None => Raise JSONDecodeError
  end.

(** [r.raise_for_status()] *)
Definition raise_for_status (r : response) : Res unit :=
  if (400 <=? status_code r) && (status_code r <? 600)
  then Raise (HTTPError (status_code r)) else Ok tt.

(** [r.headers.get(name)]; header names compare without case. *)
Fixpoint header (name : string) (hs : list (string * string)) : option string :=
  match hs with
  | [] => None
  | (k, v) :: rest =>
      if String.eqb (lower k) (lower name) then Some v else header name rest
  end.

End World.
Export World.

(** ** [LedgerClient] *)

Module Ledger.

Record LedgerClient : Type := mkLedger {
  ledger_url : string;
  ledger_secret : string
}.

Definition payload (c : LedgerClient) (stream run_id : string)
    (lines : list string) : json :=
  JObj [("secret", JStr (ledger_secret c)); ("action", JStr "append");
        ("stream", JStr stream); ("run_id", JStr run_id);
        ("lines", JArr (map JStr lines))].

Definition failed_message (stream : string) (last : option response) : string :=
  match last with
  | Some r => "Ledger append failed for stream=" +:+ stream +:+ ": "
              +:+ pretty (status_code r) +:+ " " +:+ text r
  | None => "Ledger append failed for stream=" +:+ stream
  end.

(** [resp.get("ok") is True] *)
Definition is_True (v : json) : bool :=
  match v with JBool true => true | _ => false end.

Section Append.
Context (env : Env) (c : LedgerClient) (stream run_id : string)
          (lines : list string).

  (** The body of [for attempt in range(3)], [attempts] being what is left of
      the range and [last] the response of the previous turn. *)
Fixpoint append_loop (attempts : list nat) (last : option response) : M unit :=
    match attempts with
    | [] => raise (RuntimeError (failed_message stream last))
    | attempt :: rest =>
        r ← requests_post env (ledger_url c) (payload c stream run_id lines);
        done ← (if status_code r =? 200
                then resp ← lift (response_json r);
                     ok ← lift (get resp "ok");
                     mret (is_True ok)
                else mret false);
        if done : bool then mret tt
        else time_sleep (inject_Z (2 ^ Z.of_nat attempt));;
             append_loop rest (Some r)
    end.

Definition append : M unit := append_loop (seq 0 3) None.
End Append.

End Ledger.
Export Ledger.

(** ** The [ESI] client *)

Module Esi.

Definition ESI_BASE : string := "https://esi.evetech.net/latest".

Definition get_cache : M (gmap string json) := fun s => (Ok (esi_cache s), s).
Definition get_etag : M (gmap string string) := fun s => (Ok (esi_etag s), s).
Definition set_cache (url : string) (data : json) : M unit := fun s =>
  (Ok tt, {| trace := trace s; esi_cache := <[url := data]> (esi_cache s);
             esi_etag := esi_etag s |}).
Definition set_etag (url tag : string) : M unit := fun s =>
  (Ok tt, {| trace := trace s; esi_cache := esi_cache s;
             esi_etag := <[url := tag]> (esi_etag s) |}).

Section Client.
Context (env : Env) (user_agent : string).

  (** [_respect_error_limit]: every exception inside is swallowed, a negative
      sleep length included. *)
Definition respect_error_limit (hs : list (string * string)) : M unit :=
    match header "X-ESI-Error-Limit-Remain" hs,
          header "X-ESI-Error-Limit-Reset" hs with
    | Some remain, Some reset =>
        match int_of_string remain, int_of_string reset with
        | Some r, Some s =>
            if r <=? 10
            then let d := Z.min (s + 1) 30 in
                 if 0 <=? d then time_sleep (inject_Z d) else mret tt
            else mret tt
        | _, _ => mret tt
        end
    | _, _ => mret tt
    end.

Definition get_json (path : string) : M json :=
    let url := ESI_BASE +:+ path in
    cache ← get_cache;
    match cache !! url with
    | Some data => mret data
    | None =>
        etag ← get_etag;
        let hdrs := ("User-Agent", user_agent) ::
                    match etag !! url with
                    | Some tag => [("If-None-Match", tag)]
                    | None => []
                    end in
        r ← requests_get env url [] hdrs;
        respect_error_limit (headers r);;
        if status_code r =? 304
        then cache' ← get_cache;
             match cache' !! url with
             | Some data => mret data
             | None => raise KeyError
             end
        else lift (raise_for_status r);;
             match header "ETag" (headers r) with
             | Some tag => set_etag url tag
             | None => mret tt
             end;;
             data ← lift (response_json r);
             set_cache url data;;
             mret data
    end.

Definition killmail (kill_id : Z) (kill_hash : string) : M json :=
    get_json ("/killmails/" +:+ pretty kill_id +:+ "/" +:+ kill_hash +:+ "/").

Definition system_name (system_id : Z) : M json :=
    data ← get_json ("/universe/systems/" +:+ pretty system_id +:+ "/");
    lift (get data "name").

Definition stargate (gate_id : Z) : M json :=
    get_json ("/universe/stargates/" +:+ pretty gate_id +:+ "/").

Definition corp_name (corp_id : Z) : M json :=
    data ← get_json ("/corporations/" +:+ pretty corp_id +:+ "/");
    lift (get data "name").

Definition type_info (type_id : Z) : M json :=
    get_json ("/universe/types/" +:+ pretty type_id +:+ "/").

Definition group_info (group_id : Z) : M json :=
    get_json ("/universe/groups/" +:+ pretty group_id +:+ "/").
End Client.

End Esi.
Export Esi.

(** ** The event poller of the orchestrator ([pipeline.redisq_listen]) *)

Module Redisq.

Definition REDISQ_BASE : string := "https://zkillredisq.stream/listen.php".

Section Listen.
Context (env : Env) (queue_id : string) (ttw : Z) (user_agent : string).

  (** [for _ in range(max_polls)], [n] turns being left and [out] the packages
      gathered so far. *)
Fixpoint listen_loop (n : nat) (out : list json) : M (list json) :=
    match n with
    | O => mret out
    | S n' =>
        r ← requests_get env REDISQ_BASE
              [("queueID", queue_id); ("ttw", pretty ttw)]
              [("User-Agent", user_agent)];
        if status_code r =? 429
        then time_sleep 1;; listen_loop n' out
        else lift (raise_for_status r);;
             j ← lift (response_json r);
             pkg ← lift (get j "package");
             if negb (truthy pkg) then mret out
             else time_sleep (55 # 100);; listen_loop n' (out ++ [pkg])
    end.

Definition redisq_listen (max_polls : Z) : M (list json) :=
    listen_loop (Z.to_nat max_polls) [].
End Listen.

End Redisq.
Export Redisq.

(** ** The stand-alone listener ([zkb/rq_listener.py]) *)

Module RqListener.

Definition REDISQ_URL : string := "https://redisq.zkillboard.com/listen.php".

(** [key in v] for a string [key] *)
Definition str_in (key : string) (v : json) : Res bool :=
  match v with
  | JObj kvs => Ok (bool_decide (is_Some (assoc key kvs)))
  | JArr xs => Ok (py_in (JStr key) xs)
  | JStr s => Ok (contains key s)
  | _ => Raise TypeError
  end.

(** [bool(zkb.get(k)) if k in zkb else None] *)
Definition flag_of (zkb : json) (k : string) : Res json :=
  present ← str_in k zkb;
  if present : bool then v ← get zkb k; mret (JBool (truthy v)) else mret JNull.

Section Main.
Context (env : Env) (queue_id : string) (ttw : Z) (out_file : string).

  (** The dict written for one package; [None] when the package is skipped
      for want of an id or a hash. *)
Definition make_row (pkg : json) : M (option json) :=
    km_id ← lift (get pkg "killmail_id");
    km_hash ← lift (get pkg "hash");
    zkb0 ← lift (get_default pkg "zkb" (JObj []));
    let zkb := py_or zkb0 (JObj []) in
    if is_None km_id || is_None km_hash then mret None
    else
        ts ← utc_now_iso env;
        id ← lift (int km_id);
        id' ← lift (int km_id);
        loc ← lift (get pkg "locationID");
        location_id ← lift (if is_None loc then Ok JNull else JInt <$> int loc);
        labels0 ← lift (get_default pkg "labels" (JArr []));
        labels ← lift (iter (py_or labels0 (JArr [])));
        npc ← lift (flag_of zkb "npc");
        awox ← lift (flag_of zkb "awox");
        mret (Some (JObj [("request_ts", JStr ts);
                          ("killmail_id", JInt id);
                          ("killmail_hash", JStr (py_str env km_hash));
                          ("killmail_id_sha256", JStr (sha256_hex env (pretty id')));
                          ("location_id", location_id);
                          ("labels", JArr labels);
                          ("zkb_npc", npc);
                          ("zkb_awox", awox)])).

  (** [for _ in range(args.max_packages)], [got] counting the rows written. *)
Fixpoint poll_loop (n : nat) (got : nat) : M nat :=
    match n with
    | O => mret got
    | S n' =>
        r ← try_except
              (Some <$> requests_get env REDISQ_URL
                          [("queueID", queue_id); ("ttw", pretty ttw)] [])
              (fun e => match e with
                        | RequestException _ => mret None
                        | _ => raise e
                        end);
        match r with
        | None => mret got
        | Some r =>
            if status_code r =? 429 then mret got
            else if negb (status_code r =? 200) then mret got
            else
              payload ← lift (response_json r);
              pkg ← lift (get payload "package");
              if negb (truthy pkg) then poll_loop n' got
              else
                row ← make_row pkg;
                match row with
                | None => poll_loop n' got
                | Some row =>
                    write_line out_file (json_dumps_unicode env row +:+ newline);;
                    poll_loop n' (S got)
                end
        end
    end.
End Main.

(** [os.path.join(dir, name)] for a relative [name] *)
Definition path_join (dir name : string) : string :=
  if String.eqb dir "" then name
  else if String.eqb (String.substring (String.length dir - 1) 1 dir) "/"
       then dir +:+ name
       else dir +:+ "/" +:+ name.

(** [main()], for the parsed arguments; [stamp] is the time stamp that names
    the output file. *)
Definition main (env : Env) (queue_id : string) (ttw max_packages : Z)
    (out_dir : string) : M unit :=
  makedirs env out_dir;;
  stamp ← utc_now_iso env;
  let out_file := path_join out_dir ("rq_raw_" +:+ stamp +:+ ".ndjson") in
  write_file env out_file [];;
  got ← poll_loop env queue_id ttw out_file (Z.to_nat max_packages) 0;
  write_file env (path_join out_dir "raw_file.txt") [out_file];;
  print ("RedisQ packages written: " +:+ pretty got +:+ " -> " +:+ out_file).

End RqListener.

(** ** The durable store: the four logs, the view [v_kills_raw_state] and
       the query of [choose_pending]

    Timestamps are BigQuery [TIMESTAMP]s, counted in microseconds.  Where
    BigQuery leaves a choice open ([ANY_VALUE], ties of [ORDER BY], the order
    of the groups) the model takes the first candidate in log order. *)

Module Store.

Record raw_row : Type := mkRaw {
  raw_killmail_id : Z;
  raw_killmail_hash : option string;
  raw_redisq_request_ts : Z;
  raw_location_id : option Z;
  raw_labels : list string;
  raw_npc : bool;
  raw_awox : bool;
  raw_solo : bool;
  raw_href : option string;
  raw_package_json : string
}.

Record attempt_row : Type := mkAttempt {
  att_killmail_id : Z;
  att_attempt_ts : Z;
  att_stage : string;
  att_ok : bool;
  att_error : string
}.

Record enriched_row : Type := mkEnriched {
  enr_killmail_id : Z;
  enr_enriched_ts : Z;
  enr_killmail_time : Z;
  enr_victim_ship_class : string;
  enr_attacker_corp_names : list string
}.

Record discarded_row : Type := mkDiscarded {
  dis_killmail_id : Z;
  dis_discard_ts : Z;
  dis_reason : string
}.

Record Logs : Type := mkLogs {
  redisq_raw_log : list raw_row;
  enrich_attempts_log : list attempt_row;
  kills_enriched_log : list enriched_row;
  kills_discarded_log : list discarded_row
}.

(** Appending batches to the four logs ([bq load] without [--replace]). *)
Definition append_logs (l more : Logs) : Logs :=
  {| redisq_raw_log := redisq_raw_log l ++ redisq_raw_log more;
     enrich_attempts_log := enrich_attempts_log l ++ enrich_attempts_log more;
     kills_enriched_log := kills_enriched_log l ++ kills_enriched_log more;
     kills_discarded_log := kills_discarded_log l ++ kills_discarded_log more |}.

(** A row of the view. *)
Record state_row : Type := mkStateRow {
  redisq_first_seen_ts : Z;
  redisq_last_seen_ts : Z;
  killmail_id : Z;
  killmail_hash : option string;
  location_id : option Z;
  labels : list string;
  npc : bool;
  awox : bool;
  solo : bool;
  href : option string;
  package_json : string;
  worked : bool;
  attempts : Z;
  last_attempt_ts : option Z;
  last_attempt_ok : option bool;
  last_error : option string
}.

(** [ARRAY_AGG(... ORDER BY ts DESC LIMIT 1)]: the row with the greatest
    timestamp, the earliest in the log among equals. *)
Fixpoint latest_by {A} (ts : A -> Z) (best : A) (l : list A) : A :=
  match l with
  | [] => best
  | x :: r => latest_by ts (if ts best <? ts x then x else best) r
  end.

Definition min_ts {A} (ts : A -> Z) (first : A) (l : list A) : Z :=
  fold_left Z.min (map ts l) (ts first).

Definition max_ts {A} (ts : A -> Z) (first : A) (l : list A) : Z :=
  fold_left Z.max (map ts l) (ts first).

(** [done_enriched], [done_discarded] *)
Definition done_enriched (l : Logs) : list Z := map enr_killmail_id (kills_enriched_log l).
Definition done_discarded (l : Logs) : list Z := map dis_killmail_id (kills_discarded_log l).

(** The row of the view for one group of [raw] ([first :: rest] are the raw
    rows of [first]'s killmail_id); [att] is joined by [LEFT JOIN]. *)
Definition view_row (l : Logs) (first : raw_row) (rest : list raw_row) : state_row :=
  let kid := raw_killmail_id first in
  let last := latest_by raw_redisq_request_ts first rest in
  let att := filter (fun a => att_killmail_id a = kid) (enrich_attempts_log l) in
  let last_att := match att with
                  | [] => None
                  | a :: r => Some (latest_by att_attempt_ts a r)
                  end in
  {| redisq_first_seen_ts := min_ts raw_redisq_request_ts first rest;
     redisq_last_seen_ts := max_ts raw_redisq_request_ts first rest;
     killmail_id := kid;
     killmail_hash := raw_killmail_hash first;
     location_id := raw_location_id last;
     labels := raw_labels last;
     npc := raw_npc last;
     awox := raw_awox last;
     solo := raw_solo last;
     href := raw_href last;
     package_json := raw_package_json last;
     worked := bool_decide (kid ∈ done_enriched l) || bool_decide (kid ∈ done_discarded l);
     attempts := Z.of_nat (length att);
     last_attempt_ts := att_attempt_ts <$> last_att;
     last_attempt_ok := att_ok <$> last_att;
     last_error := att_error <$> last_att |}.

(** [GROUP BY killmail_id] over the raw log: one group per id, in the order
    in which the ids first appear. *)
Fixpoint group_raw (l : Logs) (fuel : nat) (raw : list raw_row) : list state_row :=
  match fuel, raw with
  | S fuel', first :: rest =>
      let same := filter (fun r => raw_killmail_id r = raw_killmail_id first) rest in
      let others := filter (fun r => raw_killmail_id r ≠ raw_killmail_id first) rest in
      view_row l first same :: group_raw l fuel' others
  | _, _ => []
  end.

Definition v_kills_raw_state (l : Logs) : list state_row :=
  group_raw l (length (redisq_raw_log l)) (redisq_raw_log l).

(** [WHERE worked = FALSE AND attempts <= 10] *)
Definition is_pending (r : state_row) : bool := negb (worked r) && (attempts r <=? 10).

(** [ORDER BY redisq_first_seen_ts ASC] *)
Definition first_seen_le (a b : state_row) : Prop :=
  redisq_first_seen_ts a ≤ redisq_first_seen_ts b.

#[global] Instance first_seen_le_dec a b : Decision (first_seen_le a b).
Proof. unfold first_seen_le. apply _. Defined.

(** The rows of the view that the query of [choose_pending] selects, in its
    order. *)
Definition pending_rows (l : Logs) (limit_n : nat) : list state_row :=
  take limit_n (merge_sort first_seen_le (filter (fun r => is_pending r = true) (v_kills_raw_state l))).

(** What [SELECT killmail_id, killmail_hash, href, ...] keeps of a row. *)
Record pending_row : Type := mkPending {
  p_killmail_id : Z;
  p_killmail_hash : option string;
  p_href : option string;
  p_location_id : option Z;
  p_labels : list string;
  p_npc : bool;
  p_awox : bool;
  p_solo : bool;
  p_attempts : Z
}.

Definition select_columns (r : state_row) : pending_row :=
  {| p_killmail_id := killmail_id r; p_killmail_hash := killmail_hash r;
     p_href := href r; p_location_id := location_id r; p_labels := labels r;
     p_npc := npc r; p_awox := awox r; p_solo := solo r;
     p_attempts := attempts r |}.

(** The query of [choose_pending]; BigQuery rejects a negative [LIMIT]. *)
Definition choose_pending (l : Logs) (limit_n : Z) : option (list pending_row) :=
  if limit_n <? 0 then None
  else Some (map select_columns (pending_rows l (Z.to_nat limit_n))).

(** *** [maintenance]: the statements that rewrite the tables *)

(** Timestamps count microseconds, as a BigQuery [TIMESTAMP] does. *)
Definition day : Z := 86400000000.

(** [TIMESTAMP_SUB(CURRENT_TIMESTAMP(), INTERVAL n DAY)] *)
Definition days_before (now n : Z) : Z := now - n * day.

(** [ROW_NUMBER() OVER(PARTITION BY killmail_id ORDER BY enriched_ts DESC)],
    [rn = 1]: for every id the row with the greatest [enriched_ts] (which
    one among equals is not fixed by the statement; [latest_by] takes the
    earliest in the log). *)
Fixpoint latest_per_id (fuel : nat) (rows : list enriched_row) : list enriched_row :=
  match fuel, rows with
  | S fuel', first :: rest =>
      let same := filter (fun r => enr_killmail_id r = enr_killmail_id first) rest in
      let others := filter (fun r => enr_killmail_id r ≠ enr_killmail_id first) rest in
      latest_by enr_enriched_ts first same :: latest_per_id fuel' others
  | _, _ => []
  end.

(** [CREATE OR REPLACE TABLE kills_enriched]: the last 365 days by
    [killmail_time], one row per killmail_id. *)
Definition kills_enriched (now : Z) (l : Logs) : list enriched_row :=
  let x := filter (fun r => days_before now 365 ≤ enr_killmail_time r)
                  (kills_enriched_log l) in
  latest_per_id (length x) x.

(** The value of [CURRENT_TIMESTAMP()] in each of the four statements that
    compact a log. *)
Record Clocks : Type := mkClocks {
  now_raw : Z;
  now_attempts : Z;
  now_enriched : Z;
  now_discarded : Z
}.

(** The four [CREATE OR REPLACE TABLE <log> AS SELECT * FROM <log> WHERE
    <ts> >= <now - 400 days>]; the enriched log is cut by [killmail_time]. *)
Definition compact_logs (t : Clocks) (l : Logs) : Logs :=
  {| redisq_raw_log :=
       filter (fun r => days_before (now_raw t) 400 ≤ raw_redisq_request_ts r)
              (redisq_raw_log l);
     enrich_attempts_log :=
       filter (fun a => days_before (now_attempts t) 400 ≤ att_attempt_ts a)
              (enrich_attempts_log l);
     kills_enriched_log :=
       filter (fun r => days_before (now_enriched t) 400 ≤ enr_killmail_time r)
              (kills_enriched_log l);
     kills_discarded_log :=
       filter (fun d => days_before (now_discarded t) 400 ≤ dis_discard_ts d)
              (kills_discarded_log l) |}.

End Store.

(** ** The classification engine of [pipeline.py] *)

Module Classify.

(** [any(a.get("character_id") for a in attackers)] *)
Fixpoint any_character (attackers : list json) : Res bool :=
  match attackers with
  | [] => Ok false
  | a :: rest =>
      c ← get a "character_id";
      if truthy c then Ok true else any_character rest
  end.

Definition is_pvp (km : json) : Res bool :=
  att ← get km "attackers";
  attackers ← iter (py_or att (JArr []));
  any_character attackers.

Definition is_self_destruct (km : json) : Res bool :=
  victim ← get_default km "victim" (JObj []);
  v_char ← get victim "character_id";
  att ← get km "attackers";
  let attackers := py_or att (JArr []) in
  if negb (truthy v_char) then Ok false
  else
    n ← len attackers;
    if negb (n =? 1)%nat then Ok false
    else
      a ← getitem0 attackers;
      c ← get a "character_id";
      Ok (py_eq c v_char).

(** [(v or "").lower()] *)
Definition lower_name (v : json) : Res string :=
  match py_or v (JStr "") with
  | JStr s => Ok (lower s)
  | _ => Raise AttributeError
  end.

(** [set(v)]: the elements in the order a loop over the set sees them. *)
Definition py_set (env : Env) (v : json) : Res (list json) :=
  xs ← iter v;
  if forallb hashable xs then Ok (set_order env xs) else Raise TypeError.

(** [x.startswith("cat:")] for an element of the label set *)
Definition startswith_cat (x : json) : Res bool :=
  match x with
  | JStr s => Ok (startswith "cat:" s)
  | _ => Raise AttributeError
  end.

(** [any(x.startswith("cat:") for x in lab)] *)
Fixpoint any_cat (lab : list json) : Res bool :=
  match lab with
  | [] => Ok false
  | x :: rest =>
      b ← startswith_cat x;
      if b : bool then Ok true else any_cat rest
  end.

(** [int(x.split(":")[1])], [None] standing for the exception that the
    [try] around it swallows. *)
Definition cat_number (s : string) : option Z :=
  match split ":" s with
  | _ :: p :: _ => int_of_string p
  | _ => None
  end.

(** The loop [for x in lab] of [victim_ship_class]; [cat6] is
    ["cat:6" in lab]. *)
Fixpoint cat_loop (cat6 : bool) (lab : list json) : Res (option string) :=
  match lab with
  | [] => Ok None
  | x :: rest =>
      b ← startswith_cat x;
      match b, x with
      | true, JStr s =>
          match cat_number s with
          | Some n =>
              if (6 <=? n) && (n <=? 7) && negb cat6 then Ok (Some "capital")
              else if n <=? 5 then Ok (Some "subcapital")
              else cat_loop cat6 rest
          | None => cat_loop cat6 rest
          end
      | _, _ => cat_loop cat6 rest
      end
  end.

(** [dict.get(k, 0) + 1] on a dict that keeps its insertion order *)
Fixpoint bump (k : Z) (counts : list (Z * Z)) : list (Z * Z) :=
  match counts with
  | [] => [(k, 1)]
  | (k', n) :: rest => if k =? k' then (k', n + 1) :: rest else (k', n) :: bump k rest
  end.

(** The first loop of [attacker_corp_names]: [corp_counts]. *)
Fixpoint count_corps (attackers : list json) (counts : list (Z * Z))
  : Res (list (Z * Z)) :=
  match attackers with
  | [] => Ok counts
  | a :: rest =>
      cid ← get a "corporation_id";
      if truthy cid then k ← int cid; count_corps rest (bump k counts)
      else count_corps rest counts
  end.

(** The second loop: [(final_corp, topdmg_corp, topdmg)]. *)
Fixpoint blow_and_damage (attackers : list json)
    (st : option Z * option Z * Z) : Res (option Z * option Z * Z) :=
  match attackers with
  | [] => Ok st
  | a :: rest =>
      let '(final_corp, topdmg_corp, topdmg) := st in
      fb ← get a "final_blow";
      cid ← get a "corporation_id";
      final_corp' ← (if truthy fb && truthy cid
                     then c ← getitem a "corporation_id"; Some <$> int c
                     else Ok final_corp);
      dd ← get a "damage_done";
      dmg ← int (py_or dd (JInt 0));
      if (topdmg <? dmg) && truthy cid
      then c ← getitem a "corporation_id";
           k ← int c;
           blow_and_damage rest (final_corp', Some k, dmg)
      else blow_and_damage rest (final_corp', topdmg_corp, topdmg)
  end.

(** [max(corp_counts.items(), key=lambda kv: kv[1])[0]]: the first key with
    the greatest count. *)
Fixpoint max_count (best : Z * Z) (counts : list (Z * Z)) : Z * Z :=
  match counts with
  | [] => best
  | kv :: rest => max_count (if snd best <? snd kv then kv else best) rest
  end.

Definition max_corp (counts : list (Z * Z)) : option Z :=
  match counts with
  | [] => None
  | kv :: rest => Some (fst (max_count kv rest))
  end.

(** [max(1, int(len(attackers) * 0.25))]; the product is exact in a double
    for every length a list can have. *)
Definition threshold (n : nat) : Z := Z.max 1 (Z.of_nat n / 4).

Definition quarter_corps (counts : list (Z * Z)) (n : nat) : list Z :=
  map fst (filter (fun kv => threshold n ≤ snd kv) counts).

(** [for cid in cands: if cid and cid not in chosen: chosen.append(cid)] *)
Fixpoint choose (cands : list (option Z)) (chosen : list Z) : list Z :=
  match cands with
  | [] => chosen
  | None :: rest => choose rest chosen
  | Some cid :: rest =>
      if negb (cid =? 0) && negb (bool_decide (cid ∈ chosen))
      then choose rest (chosen ++ [cid]) else choose rest chosen
  end.

(** [for n in names: if n and n not in out: out.append(n)] *)
Fixpoint dedup_names (names : list json) (out : list json) : list json :=
  match names with
  | [] => out
  | n :: rest =>
      if truthy n && negb (py_in n out) then dedup_names rest (out ++ [n])
      else dedup_names rest out
  end.

Section WithEsi.
Context (env : Env) (user_agent : string).

Definition smartbomb_of (a : json) : M bool :=
    wt ← lift (get a "weapon_type_id");
    if negb (truthy wt) then mret false
    else
      t ← lift (int wt);
      ti ← type_info env user_agent t;
      gid ← lift (get ti "group_id");
      if negb (truthy gid) then mret false
      else
        g ← lift (int gid);
        gi ← group_info env user_agent g;
        nm ← lift (get gi "name");
        gname ← lift (lower_name nm);
        mret (contains "smartbomb" gname).

Fixpoint smartbomb_loop (attackers : list json) : M bool :=
    match attackers with
    | [] => mret false
    | a :: rest =>
        b ← smartbomb_of a;
        if b : bool then mret true else smartbomb_loop rest
    end.

Definition smartbomb_flag (km : json) : M bool :=
    att ← lift (get km "attackers");
    attackers ← lift (iter (py_or att (JArr [])));
    smartbomb_loop attackers.

  (** The lower-cased name of the group of a ship type; [None] when the type
      has no group id. *)
Definition group_name_of (ship_type_id : json) : M (option string) :=
    t ← lift (int ship_type_id);
    ti ← type_info env user_agent t;
    gid ← lift (get ti "group_id");
    if negb (truthy gid) then mret None
    else
      g ← lift (int gid);
      gi ← group_info env user_agent g;
      nm ← lift (get gi "name");
      gname ← lift (lower_name nm);
      mret (Some gname).

Definition hauler_groups : list string :=
    ["industrial"; "transport ship"; "blockade runner"; "deep space transport"].

  (** [gname in names], false when no group name was found *)
Definition group_in (names : list string) (gname : option string) : bool :=
    match gname with
    | Some g => existsb (String.eqb g) names
    | None => false
    end.

Definition victim_ship_class (km labels : json) : M (string * bool * bool) :=
    let labels := py_or labels (JArr []) in
    lab ← lift (py_set env labels);
    members ← lift (iter labels);
    if py_in (JStr "cat:8") members then mret ("structure", false, false)
    else
      victim ← lift (get_default km "victim" (JObj []));
      ship_type_id ← lift (get victim "ship_type_id");
      gname ← (if truthy ship_type_id then group_name_of ship_type_id
               else mret None);
      let is_capsule := group_in ["capsule"] gname in
      let is_freighter := group_in ["freighter"; "jump freighter"] gname in
      if is_capsule then mret ("capsule", false, true)
      else if py_in (JStr "cat:6") members || is_freighter
      then mret ("freighter", true, false)
      else
        gname2 ← (if truthy ship_type_id then group_name_of ship_type_id
                  else mret None);
        if group_in hauler_groups gname2
        then mret ("hauler", false, false)
        else
          has_cat ← lift (any_cat lab);
          if has_cat : bool
          then
            r ← lift (cat_loop (py_in (JStr "cat:6") members) lab);
            match r with
            | Some cls => mret (cls, false, false)
            | None => mret ("subcapital", false, false)
            end
          else mret ("subcapital", false, false).

Definition in_stargate_range (n : Z) : bool :=
    (50000000 <=? n) && (n <=? 59999999).

  (** The route as a JSON value: a string or [None]. *)
Definition stargate_route (location_id : json) : M json :=
    if negb (truthy location_id) then mret JNull
    else
      loc ← lift (int location_id);
      if negb (in_stargate_range loc) then mret JNull
      else
        g1 ← stargate env user_agent loc;
        s1 ← lift (get g1 "system_id");
        sys1 ← lift (int s1);
        dest ← lift (get_default g1 "destination" (JObj []));
        g2_id ← lift (get dest "stargate_id");
        if negb (truthy g2_id) then mret JNull
        else
          g2n ← lift (int g2_id);
          g2 ← stargate env user_agent g2n;
          s2 ← lift (get g2 "system_id");
          sys2 ← lift (int s2);
          n1 ← system_name env user_agent sys1;
          n2 ← system_name env user_agent sys2;
          mret (JStr (py_str env n1 +:+ " → " +:+ py_str env n2)).

  (** [for cid in chosen: try: names.append(esi.corp_name(int(cid)))
      except Exception: continue] *)
Fixpoint resolve_names (chosen : list Z) (names : list json) : M (list json) :=
    match chosen with
    | [] => mret names
    | cid :: rest =>
        names' ← try_except
                   (n ← corp_name env user_agent cid; mret (names ++ [n]))
                   (fun _ => mret names);
        resolve_names rest names'
    end.

  (** The ids chosen by [attacker_corp_names], before they are resolved. *)
Definition chosen_corps (attackers : list json) : Res (list Z) :=
    counts ← count_corps attackers [];
    '(final_corp, topdmg_corp, _) ← blow_and_damage attackers (None, None, -1);
    Ok (choose ([final_corp; topdmg_corp; max_corp counts]
                ++ map Some (quarter_corps counts (length attackers))) []).

Definition attacker_corp_names (km : json) : M (list json) :=
    att ← lift (get km "attackers");
    let attackers := py_or att (JArr []) in
    if negb (truthy attackers) then mret []
    else
      xs ← lift (iter attackers);
      chosen ← lift (chosen_corps xs);
      names ← resolve_names chosen [];
      mret (dedup_names names []).
End WithEsi.

End Classify.
Export Classify.

(** ** The orchestrator ([pipeline.main]) *)

Module Pipeline.

(** The environment variables of [main], parsed. *)
Record Config : Type := mkConfig {
  mode : string;
  cfg_ledger_url : string;
  cfg_ledger_secret : string;
  user_agent : string;
  queue_id : string;
  max_seconds : Z;
  max_polls : Z;
  max_enrich : Z
}.

(** The dicts that [main] stages in memory. *)
Record raw_rec : Type := mkRawRec {
  rr_run_id : string;
  rr_redisq_request_ts : string;
  rr_killmail_id : Z;
  rr_killmail_hash : json;
  rr_location_id : json;
  rr_labels : json;
  rr_npc : bool;
  rr_awox : bool;
  rr_solo : bool;
  rr_href : json;
  rr_package_json : string
}.

Record attempt_rec : Type := mkAttemptRec {
  at_run_id : string;
  at_attempt_ts : string;
  at_killmail_id : Z;
  at_stage : string;
  at_ok : bool;
  at_error : string
}.

Record discarded_rec : Type := mkDiscardedRec {
  dr_run_id : string;
  dr_discard_ts : string;
  dr_killmail_id : Z;
  dr_reason : string;
  dr_details : string
}.

Record enriched_rec : Type := mkEnrichedRec {
  er_run_id : string;
  er_enriched_ts : string;
  er_killmail_id : Z;
  er_killmail_id_hash : string;
  er_killmail_hash : json;
  er_killmail_time : json;
  er_solar_system_name : json;
  er_stargate_route : json;
  er_victim_ship_class : string;
  er_is_freighter : bool;
  er_is_capsule : bool;
  er_attacker_count : nat;
  er_attacker_corp_names : list json;
  er_is_ganked : bool;
  er_has_smartbomb : bool;
  er_is_war_related : bool;
  er_raw_esi_json : string
}.

Definition raw_dict (r : raw_rec) : json :=
  JObj [("run_id", JStr (rr_run_id r));
        ("redisq_request_ts", JStr (rr_redisq_request_ts r));
        ("killmail_id", JInt (rr_killmail_id r));
        ("killmail_hash", rr_killmail_hash r);
        ("location_id", rr_location_id r);
        ("labels", rr_labels r);
        ("npc", JBool (rr_npc r));
        ("awox", JBool (rr_awox r));
        ("solo", JBool (rr_solo r));
        ("href", rr_href r);
        ("package_json", JStr (rr_package_json r))].

Definition attempt_dict (r : attempt_rec) : json :=
  JObj [("run_id", JStr (at_run_id r));
        ("attempt_ts", JStr (at_attempt_ts r));
        ("killmail_id", JInt (at_killmail_id r));
        ("stage", JStr (at_stage r));
        ("ok", JBool (at_ok r));
        ("error", JStr (at_error r))].

Definition discarded_dict (r : discarded_rec) : json :=
  JObj [("run_id", JStr (dr_run_id r));
        ("discard_ts", JStr (dr_discard_ts r));
        ("killmail_id", JInt (dr_killmail_id r));
        ("reason", JStr (dr_reason r));
        ("details", JStr (dr_details r))].

Definition enriched_dict (r : enriched_rec) : json :=
  JObj [("run_id", JStr (er_run_id r));
        ("enriched_ts", JStr (er_enriched_ts r));
        ("killmail_id", JInt (er_killmail_id r));
        ("killmail_id_hash", JStr (er_killmail_id_hash r));
        ("killmail_hash", er_killmail_hash r);
        ("killmail_time", er_killmail_time r);
        ("solar_system_name", er_solar_system_name r);
        ("stargate_route", er_stargate_route r);
        ("victim_ship_class", JStr (er_victim_ship_class r));
        ("is_freighter", JBool (er_is_freighter r));
        ("is_capsule", JBool (er_is_capsule r));
        ("attacker_count", JInt (Z.of_nat (er_attacker_count r)));
        ("attacker_corp_names", JArr (er_attacker_corp_names r));
        ("is_ganked", JBool (er_is_ganked r));
        ("has_smartbomb", JBool (er_has_smartbomb r));
        ("is_war_related", JBool (er_is_war_related r));
        ("raw_esi_json", JStr (er_raw_esi_json r))].

(** The three lists that the loop over the pending rows fills. *)
Record Acc : Type := mkAcc {
  enriched_rows : list enriched_rec;
  discarded_rows : list discarded_rec;
  attempt_rows : list attempt_rec
}.

Definition empty_acc : Acc :=
  {| enriched_rows := []; discarded_rows := []; attempt_rows := [] |}.

(** [esi = ESI(user_agent)]: a new object with empty dicts *)
Definition new_esi : M unit := fun s =>
  (Ok tt, {| trace := trace s; esi_cache := ∅; esi_etag := ∅ |}).

Section WithEnv.
Context (env : Env).

Definition bq_query (q : sql) : M unit := sh env (BqQuery q);; mret tt.

Definition bq_query_json (q : sql) : M json :=
    out ← sh env (BqQueryJson q);
    match strip (list_ascii_of_string out) with
    | [] => mret (JArr [])
    | _ => lift (json_loads env out)
    end.

Definition bq_load_ndjson (table ndjson_path schema_path : string)
      (append : bool) : M unit :=
    sh env (BqLoad table ndjson_path schema_path append);; mret tt.

Definition bq_exists (table : string) : M bool :=
    try_except (sh env (BqShow table);; mret true)
      (fun e => match e with
                | CalledProcessError _ => mret false
                | _ => raise e
                end).

Definition bq_mk_table (table schema_path partition_field : string)
      (cluster_fields : list string) : M unit :=
    sh env (BqMk table schema_path partition_field cluster_fields);; mret tt.

Definition ensure_table (table partition_field : string) : M unit :=
    ex ← bq_exists table;
    if ex : bool then mret tt
    else bq_mk_table table ("schemas/" +:+ table +:+ ".json") partition_field
           ["killmail_id"].

Definition ensure_bq_objects : M unit :=
    ensure_table "redisq_raw_log" "redisq_request_ts";;
    ensure_table "enrich_attempts_log" "attempt_ts";;
    ensure_table "kills_enriched_log" "killmail_time";;
    ensure_table "kills_discarded_log" "discard_ts";;
    bq_query SqlCreateView.

Definition choose_pending (limit_n : Z) : M json :=
    bq_query_json (SqlChoosePending limit_n).

Definition maintenance : M unit :=
    bq_query SqlRebuildEnriched;;
    bq_query SqlRawState;;
    bq_query (SqlCompact "redisq_raw_log");;
    bq_query (SqlCompact "enrich_attempts_log");;
    bq_query (SqlCompact "kills_enriched_log");;
    bq_query (SqlCompact "kills_discarded_log").

  (** [json.dumps(r, separators=(",", ":"))] for every staged row *)
Definition dump_lines {A} (to_dict : A -> json) (rows : list A) : list string :=
    map (fun r => json_dumps env (to_dict r)) rows.

  (** Writing the rows to an ndjson file and loading it into a log table. *)
Definition store_load {A} (to_dict : A -> json) (rows : list A)
      (table ndjson_path : string) : M unit :=
    write_file env ndjson_path
      (map (fun l => l +:+ newline) (dump_lines to_dict rows));;
    bq_load_ndjson table ndjson_path ("scripts/schemas/" +:+ table +:+ ".json") true.

Section Tick.
Context (cfg : Config) (rid : string) (start : Q).

    (** [for pkg in pkgs: raw_rows.append({...})] *)
Fixpoint stage_raw (pkgs : list json) (raw_rows : list raw_rec)
      : M (list raw_rec) :=
      match pkgs with
      | [] => mret raw_rows
      | pkg :: rest =>
          zkb ← lift (get_default pkg "zkb" (JObj []));
          kid ← lift (get pkg "killID");
          kill_id ← lift (int kid);
          ts ← utc_now_iso env;
          h ← lift (get zkb "hash");
          loc ← lift (get zkb "locationID");
          labels ← lift (get zkb "labels");
          npc ← lift (get zkb "npc");
          awox ← lift (get zkb "awox");
          solo ← lift (get zkb "solo");
          href ← lift (get zkb "href");
          stage_raw rest
            (raw_rows ++
             [{| rr_run_id := rid; rr_redisq_request_ts := ts;
                 rr_killmail_id := kill_id; rr_killmail_hash := h;
                 rr_location_id := loc;
                 rr_labels := py_or labels (JArr []);
                 rr_npc := truthy npc; rr_awox := truthy awox;
                 rr_solo := truthy solo; rr_href := href;
                 rr_package_json := json_dumps env (JObj [("package", pkg)]) |}])
      end.

Definition attempt (ts : string) (kill_id : Z) (stage : string) (ok : bool)
        (error : string) : attempt_rec :=
      {| at_run_id := rid; at_attempt_ts := ts; at_killmail_id := kill_id;
         at_stage := stage; at_ok := ok; at_error := error |}.

    (** A discard: one row for [discarded_rows], one for [attempt_rows]. *)
Definition discard (kill_id : Z) (reason : string) (acc : Acc) : M Acc :=
      ts ← utc_now_iso env;
      ts' ← utc_now_iso env;
      mret {| enriched_rows := enriched_rows acc;
              discarded_rows := discarded_rows acc ++
                [{| dr_run_id := rid; dr_discard_ts := ts;
                    dr_killmail_id := kill_id; dr_reason := reason;
                    dr_details := "" |}];
              attempt_rows := attempt_rows acc ++
                [attempt ts' kill_id "filter" true ""] |}.

    (** The enrichment of an event that passed the filters. *)
Definition enrich (row km : json) (kill_id : Z) (kill_hash labels location_id : json)
        (acc : Acc) : M Acc :=
      kill_time ← lift (get km "killmail_time");
      ss ← lift (get km "solar_system_id");
      solar_system_id ← lift (int ss);
      solar_system_name ← system_name env (user_agent cfg) solar_system_id;
      gate ← stargate_route env (user_agent cfg) location_id;
      '(ship_class, is_freighter, is_capsule) ←
        victim_ship_class env (user_agent cfg) km labels;
      corp_names ← attacker_corp_names env (user_agent cfg) km;
      att ← lift (get km "attackers");
      atk_count ← lift (len (py_or att (JArr [])));
      lab ← lift (iter (py_or labels (JArr [])));
      _ ← lift (py_set env (py_or labels (JArr [])));
      let is_ganked := py_in (JStr "ganked") lab in
      has_sb ← smartbomb_flag env (user_agent cfg) km;
      w ← lift (get km "war_id");
      let war_id := py_or w (JInt 0) in
      ts ← utc_now_iso env;
      war ← lift (int war_id);
      ts' ← utc_now_iso env;
      mret {| enriched_rows := enriched_rows acc ++
                [{| er_run_id := rid; er_enriched_ts := ts;
                    er_killmail_id := kill_id;
                    er_killmail_id_hash := sha256_hex env (pretty kill_id);
                    er_killmail_hash := kill_hash;
                    er_killmail_time := kill_time;
                    er_solar_system_name := solar_system_name;
                    er_stargate_route := gate;
                    er_victim_ship_class := ship_class;
                    er_is_freighter := is_freighter;
                    er_is_capsule := is_capsule;
                    er_attacker_count := atk_count;
                    er_attacker_corp_names := corp_names;
                    er_is_ganked := is_ganked;
                    er_has_smartbomb := has_sb;
                    er_is_war_related := 0 <? war;
                    er_raw_esi_json := json_dumps env km |}];
              discarded_rows := discarded_rows acc;
              attempt_rows := attempt_rows acc ++
                [attempt ts' kill_id "enrich" true ""] |}.

    (** The body of the [try] for one pending row. *)
Definition filter_and_enrich (row : json) (kill_id : Z)
        (kill_hash labels location_id : json) (acc : Acc) : M Acc :=
      km ← killmail env (user_agent cfg) kill_id (py_str env kill_hash);
      pvp ← lift (is_pvp km);
      not_pvp_or_npc ← (if negb pvp then mret true
                        else npc ← lift (get row "npc"); mret (truthy npc));
      if not_pvp_or_npc : bool
      then discard kill_id "npc_only_or_not_pvp" acc
      else
        awox ← lift (get row "awox");
        if truthy awox
        then discard kill_id "awox_friendly_fire" acc
        else
          sd ← lift (is_self_destruct km);
          if sd : bool
          then discard kill_id "self_destruct" acc
          else enrich row km kill_id kill_hash labels location_id acc.

    (** [str(ex)[:500]] *)
Definition error_text (e : exn) : string :=
      String.substring 0 500 (exn_str env e).

    (** One turn of [for row in pending], after the deadline test. *)
Definition process_row (row : json) (acc : Acc) : M Acc :=
      k ← lift (getitem row "killmail_id");
      kill_id ← lift (int k);
      h ← lift (get row "killmail_hash");
      let kill_hash := py_or h (JStr "") in
      l ← lift (get row "labels");
      let labels := py_or l (JArr []) in
      location_id ← lift (get row "location_id");
      try_except
        (filter_and_enrich row kill_id kill_hash labels location_id acc)
        (fun ex =>
           ts ← utc_now_iso env;
           mret {| enriched_rows := enriched_rows acc;
                   discarded_rows := discarded_rows acc;
                   attempt_rows := attempt_rows acc ++
                     [attempt ts kill_id "enrich" false (error_text ex)] |}).

    (** [time.time() - start > max_seconds] *)
Definition over_budget (now : Q) : bool :=
      negb (Qle_bool (now - start) (inject_Z (max_seconds cfg))).

Fixpoint pending_loop (pending : list json) (acc : Acc) : M Acc :=
      match pending with
      | [] => mret acc
      | row :: rest =>
          now ← time_time env;
          if over_budget now then mret acc
          else acc' ← process_row row acc; pending_loop rest acc'
      end.

    (** Step 2: the raw batch goes to the Ledger. *)
Definition ledger_raw (ledger : option LedgerClient) (raw_rows : list raw_rec)
      : M unit :=
      match raw_rows, ledger with
      | _ :: _, Some c => append env c "redisq_raw" rid (dump_lines raw_dict raw_rows)
      | _, _ => mret tt
      end.

    (** Step 3: the raw batch goes to the store. *)
Definition store_raw (raw_rows : list raw_rec) : M unit :=
      match raw_rows with
      | [] => mret tt
      | _ => store_load raw_dict raw_rows "redisq_raw_log"
               ("/tmp/redisq_raw_" +:+ rid +:+ ".ndjson")
      end.

Definition ledger_batch {A} (c : LedgerClient) (to_dict : A -> json)
        (rows : list A) (stream : string) : M unit :=
      match rows with
      | [] => mret tt
      | _ => append env c stream rid (dump_lines to_dict rows)
      end.

    (** Step 5: attempts, enriched and discarded rows go to the Ledger. *)
Definition ledger_results (ledger : option LedgerClient) (acc : Acc) : M unit :=
      match ledger with
      | Some c =>
          ledger_batch c attempt_dict (attempt_rows acc) "enrich_attempts";;
          ledger_batch c enriched_dict (enriched_rows acc) "enriched";;
          ledger_batch c discarded_dict (discarded_rows acc) "discarded"
      | None => mret tt
      end.

Definition store_batch {A} (to_dict : A -> json) (rows : list A)
        (table file : string) : M unit :=
      match rows with
      | [] => mret tt
      | _ => store_load to_dict rows table ("/tmp/" +:+ file +:+ "_" +:+ rid +:+ ".ndjson")
      end.

    (** Step 6: the same three batches go to the store. *)
Definition store_results (acc : Acc) : M unit :=
      store_batch attempt_dict (attempt_rows acc) "enrich_attempts_log" "attempts";;
      store_batch enriched_dict (enriched_rows acc) "kills_enriched_log" "enriched";;
      store_batch discarded_dict (discarded_rows acc) "kills_discarded_log" "discarded".

Definition summary (raw pending : nat) (acc : Acc) : string :=
      "tick done run_id=" +:+ rid +:+ " raw=" +:+ pretty raw
      +:+ " pending=" +:+ pretty pending
      +:+ " enriched=" +:+ pretty (length (enriched_rows acc))
      +:+ " discarded=" +:+ pretty (length (discarded_rows acc)).

    (** Steps 4 to 6 for the rows the pending query returned. *)
Definition process_pending (ledger : option LedgerClient) : M (nat * Acc) :=
      pending ← choose_pending (max_enrich cfg);
      new_esi;;
      rows ← lift (iter pending);
      acc ← pending_loop rows empty_acc;
      ledger_results ledger acc;;
      store_results acc;;
      mret (length rows, acc).

    (** The part of [main] below [# --- TICK ---]. *)
Definition tick (ledger : option LedgerClient) : M unit :=
      pkgs ← redisq_listen env (queue_id cfg) 10 (user_agent cfg) (max_polls cfg);
      raw_rows ← stage_raw pkgs [];
      ledger_raw ledger raw_rows;;
      store_raw raw_rows;;
      '(n_pending, acc) ← process_pending ledger;
      print (summary (length raw_rows) n_pending acc).
End Tick.

  (** [ledger = LedgerClient(...)] only if both settings are non-empty. *)
Definition make_ledger (cfg : Config) : option LedgerClient :=
    if negb (String.eqb (cfg_ledger_url cfg) "")
       && negb (String.eqb (cfg_ledger_secret cfg) "")
    then Some {| ledger_url := cfg_ledger_url cfg;
                 ledger_secret := cfg_ledger_secret cfg |}
    else None.

  (** [main()]; [rid] is the value of [run_id()]. *)
Definition main (cfg : Config) (rid : string) : M unit :=
    start ← time_time env;
    ensure_bq_objects;;
    let ledger := make_ledger cfg in
    if String.eqb (mode cfg) "maintenance"
    then maintenance;; print "maintenance done"
    else tick cfg rid start ledger.
End WithEnv.

End Pipeline.

(** ** The stand-alone enricher ([zkb/esi_enricher.py]) *)

Module EsiEnricher.
Import Classify.

(** [out[out.find("["):]], [None] when there is no bracket *)
Fixpoint from_bracket (s : list ascii) : option (list ascii) :=
  match s with
  | [] => None
  | c :: r => if Ascii.eqb c "[" then Some s else from_bracket r
  end.

(** The body of [bq_query_json] below [p = subprocess.run(...)], for the
    exit status and the two outputs of the finished process. *)
Definition bq_query_json (env : Env) (returncode : Z) (stdout stderr : string)
    : Res json :=
  if negb (returncode =? 0)
  then Raise (RuntimeError ("bq query failed (code " +:+ pretty returncode +:+ ")"
                            +:+ newline +:+ "STDOUT:" +:+ newline +:+ stdout
                            +:+ newline +:+ "STDERR:" +:+ newline +:+ stderr))
  else
    match strip (list_ascii_of_string stdout) with
    | [] => Ok (JArr [])
    | out =>
        match from_bracket out with
        | None => Ok (JArr [])
        | Some out_json =>
            match json_loads env (string_of_list_ascii out_json) with
            | Ok (JArr rows) => Ok (JArr rows)
            | Ok _ => Ok (JArr [])
            | Raise JSONDecodeError => Ok (JArr [])
            | Raise e => Raise e
            end
        end
    end.

(** [l.split(":", 1)[1]]: what follows the first colon *)
Fixpoint after_colon (s : list ascii) : option (list ascii) :=
  match s with
  | [] => None
  | c :: r => if Ascii.eqb c ":" then Some r else after_colon r
  end.

(** [pick_cat], for the list that [main] hands over; the [try] swallows
    whatever [int] raises. *)
Fixpoint pick_cat (labels : list json) : option Z :=
  match labels with
  | [] => None
  | JStr l :: rest =>
      if startswith "cat:" l
      then match after_colon (list_ascii_of_string l) with
           | Some x => int_of_string (string_of_list_ascii x)
           | None => None
           end
      else pick_cat rest
  | _ :: rest => pick_cat rest
  end.

Definition is_stargate (location_id : option Z) : bool :=
  match location_id with
  | Some n => (50000000 <=? n) && (n <=? 59999999)
  | None => false
  end.

(** The inner [corp_id(a)] *)
Definition corp_id (a : json) : Res (option Z) :=
  v ← get a "corporation_id";
  if is_None v then Ok None else Some <$> int v.

(** [next((a for a in attackers if a.get("final_blow") is True), None)] *)
Fixpoint first_final_blow (attackers : list json) : Res (option json) :=
  match attackers with
  | [] => Ok None
  | a :: rest =>
      fb ← get a "final_blow";
      if is_True fb then Ok (Some a) else first_final_blow rest
  end.

(** [int(a.get("damage_done", 0) or 0)] *)
Definition damage_key (a : json) : Res Z :=
  d ← get_default a "damage_done" (JInt 0);
  int (py_or d (JInt 0)).

(** [max(attackers, key=...)]: the first attacker with the greatest key *)
Fixpoint max_damage (best : json) (best_key : Z) (rest : list json) : Res json :=
  match rest with
  | [] => Ok best
  | a :: rest' =>
      k ← damage_key a;
      if best_key <? k then max_damage a k rest' else max_damage best best_key rest'
  end.

Definition top_attacker (attackers : list json) : Res json :=
  match attackers with
  | [] => Raise ValueError
  | a :: rest => k ← damage_key a; max_damage a k rest
  end.

(** The loop that fills [counts] *)
Fixpoint count_ids (attackers : list json) (counts : list (Z * Z))
    : Res (list (Z * Z)) :=
  match attackers with
  | [] => Ok counts
  | a :: rest =>
      c ← corp_id a;
      match c with
      | None => count_ids rest counts
      | Some k => count_ids rest (bump k counts)
      end
  end.

(** [for x in ids: if x not in seen: seen.add(x); out.append(x)] *)
Fixpoint dedup_ids (ids out : list Z) : list Z :=
  match ids with
  | [] => out
  | x :: rest =>
      if bool_decide (x ∈ out) then dedup_ids rest out
      else dedup_ids rest (out ++ [x])
  end.

Definition compute_attacker_corp_ids (km : json) : Res (nat * list Z) :=
  att ← get_default km "attackers" (JArr []);
  let attackers := py_or att (JArr []) in
  total ← len attackers;
  if (total =? 0)%nat then Ok (0%nat, [])
  else
    xs ← iter attackers;
    fb ← first_final_blow xs;
    fb_c ← match fb with
           | Some a => if truthy a then corp_id a else Ok None
           | None => Ok None
           end;
    top ← top_attacker xs;
    top_c ← corp_id top;
    counts ← count_ids xs [];
    let corp_most := max_corp counts in
    let corp_ge_25 := quarter_corps counts total in
    let ids := omap id [fb_c; top_c; corp_most] ++ corp_ge_25 in
    Ok (total, dedup_ids ids []).

(** The classification by the [cat:N] label in [main]:
    [(victim_bucket, is_freighter, is_capsule)] *)
Definition victim_bucket (cat : option Z)
    : option string * option bool * option bool :=
  match cat with
  | Some n =>
      if n =? 6 then (Some "freighter", Some true, Some false)
      else if n =? 8 then (Some "structure", Some false, Some false)
      else if n <=? 5 then (Some "subcapital", Some false, Some false)
      else if (6 <=? n) && (n <=? 7) then (Some "capital", Some false, Some false)
      else (None, None, None)
  | None => (None, None, None)
  end.

(** A row of [ea_rows] (an attempt) and a row of [ekf_rows] (the fields that
    are not constant). *)
Record ea_rec : Type := mkEa {
  ea_attempt_ts : string;
  ea_killmail_id : Z;
  ea_result : string;
  ea_stage : string;
  ea_reason : option string;
  ea_http_status : Z;
  ea_retry_after_sec : option Z;
  ea_error_limit_remain : option Z
}.

Record ekf_rec : Type := mkEkf {
  ekf_fetch_ts : string;
  ekf_killmail_id : Z;
  ekf_killmail_time : json;
  ekf_victim_ship_bucket : option string;
  ekf_is_freighter : option bool;
  ekf_is_capsule : option bool;
  ekf_attackers_count : nat;
  ekf_war_related : bool
}.

(** What the loop over the candidates has gathered. *)
Record Out : Type := mkOut {
  ea_rows : list ea_rec;
  ekf_rows : list ekf_rec;
  touched_dates : list string
}.

Definition empty_out : Out :=
  {| ea_rows := []; ekf_rows := []; touched_dates := [] |}.

(** [error_remain(resp)] *)
Definition error_remain (resp : response) : option Z :=
  header "X-ESI-Error-Limit-Remain" (headers resp) ≫= int_of_string.

(** [str.isdigit] on the characters a header can hold: the ten digits and
    the superscripts one, two and three, which [int] rejects. *)
Definition isdigit_char (c : ascii) : bool :=
  let n := nat_of_ascii c in
  is_digit c || (n =? 178)%nat || (n =? 179)%nat || (n =? 185)%nat.

(** [int(ra) if ra and ra.isdigit() else None] *)
Definition retry_after (ra : option string) : Res (option Z) :=
  match ra with
  | Some s =>
      if negb (String.eqb s "") && forallb isdigit_char (list_ascii_of_string s)
      then match int_of_string s with
           | Some n => Ok (Some n)
           | None => Raise ValueError
           end
      else Ok None
  | None => Ok None
  end.

(** [[a for a in attackers if a.get("character_id") is not None]] *)
Fixpoint player_attackers (attackers : list json) : Res (list json) :=
  match attackers with
  | [] => Ok []
  | a :: rest =>
      c ← get a "character_id";
      ps ← player_attackers rest;
      Ok (if is_None c then ps else a :: ps)
  end.

(** [int(player_attackers[0].get("character_id")) == int(victim_char)],
    [False] standing also for the exception that the [try] swallows. *)
Definition same_character (a victim_char : json) : bool :=
  match (c ← get a "character_id"; x ← int c; y ← int victim_char; Ok (x =? y)) with
  | Ok b => b
  | Raise _ => false
  end.

Inductive flow : Type := Continue | Break.

Section Loop.
Context (env : Env) (user_agent : string).

Definition esi_get_killmail (killmail_id : Z) (killmail_hash : string) : M response :=
  requests_get env
    (ESI_BASE +:+ "/killmails/" +:+ pretty killmail_id +:+ "/" +:+ killmail_hash
     +:+ "/?datasource=tranquility")
    [] [("User-Agent", user_agent); ("Accept", "application/json")].

(** [ea_rows.append({...})] *)
Definition attempt (km_id : Z) (result stage : string) (reason : option string)
    (status : Z) (retry : option string) (resp : response) (o : Out) : M Out :=
  ts ← utc_now_iso env;
  ra ← lift (retry_after retry);
  mret {| ea_rows := ea_rows o ++
            [{| ea_attempt_ts := ts; ea_killmail_id := km_id;
                ea_result := result; ea_stage := stage; ea_reason := reason;
                ea_http_status := status; ea_retry_after_sec := ra;
                ea_error_limit_remain := error_remain resp |}];
          ekf_rows := ekf_rows o;
          touched_dates := touched_dates o |}.

(** [rem = error_remain(resp); if rem is not None and rem <= 5: break] *)
Definition low_budget (resp : response) : flow :=
  match error_remain resp with
  | Some rem => if rem <=? 5 then Break else Continue
  | None => Continue
  end.

(** One turn of [for c in candidates]. *)
Definition candidate_step (c : json) (o : Out) : M (flow * Out) :=
  k ← lift (getitem c "killmail_id");
  km_id ← lift (int k);
  h ← lift (getitem c "killmail_hash");
  let km_hash := py_str env h in
  loc ← lift (get c "location_id");
  location_id ← lift (if is_None loc then Ok None
                      else l ← getitem c "location_id"; Some <$> int l);
  lab ← lift (get c "labels");
  labels ← lift (iter (py_or lab (JArr [])));
  d ← lift (getitem c "request_date");
  let o := {| ea_rows := ea_rows o; ekf_rows := ekf_rows o;
              touched_dates :=
                if bool_decide (py_str env d ∈ touched_dates o) then touched_dates o
                else touched_dates o ++ [py_str env d] |} in
  resp ← esi_get_killmail km_id km_hash;
  if status_code resp =? 429 then
    o' ← attempt km_id "FAIL" "killmail" (Some "RATE_LIMIT") 429
           (header "Retry-After" (headers resp)) resp o;
    mret (Break, o')
  else if status_code resp =? 404 then
    o' ← attempt km_id "FAIL" "killmail" (Some "NOT_READY") 404 None resp o;
    mret (Continue, o')
  else if negb (status_code resp =? 200) then
    o' ← attempt km_id "FAIL" "killmail"
           (Some ("HTTP_" +:+ pretty (status_code resp))) (status_code resp)
           None resp o;
    mret (low_budget resp, o')
  else
    km ← lift (response_json resp);
    '(attackers_count, _) ← lift (compute_attacker_corp_ids km);
    v ← lift (get_default km "victim" (JObj []));
    victim_char ← lift (get (py_or v (JObj [])) "character_id");
    att ← lift (get_default km "attackers" (JArr []));
    attackers ← lift (iter (py_or att (JArr [])));
    players ← lift (player_attackers attackers);
    match players with
    | [] =>
        o' ← attempt km_id "DISCARD" "filter" (Some "NO_PLAYER_ATTACKERS") 200
               None resp o;
        mret (Continue, o')
    | a :: more =>
        if match more with [] => true | _ => false end
           && negb (is_None victim_char) && same_character a victim_char
        then
          o' ← attempt km_id "DISCARD" "filter" (Some "SELF_DESTRUCT_LIKELY") 200
                 None resp o;
          mret (Continue, o')
        else
          let '(bucket, is_freighter, is_capsule) := victim_bucket (pick_cat labels) in
          ts ← utc_now_iso env;
          kill_time ← lift (get km "killmail_time");
          w ← lift (get km "war_id");
          war ← lift (int (py_or w (JInt 0)));
          let o1 := {| ea_rows := ea_rows o;
                       ekf_rows := ekf_rows o ++
                         [{| ekf_fetch_ts := ts; ekf_killmail_id := km_id;
                             ekf_killmail_time := kill_time;
                             ekf_victim_ship_bucket := bucket;
                             ekf_is_freighter := is_freighter;
                             ekf_is_capsule := is_capsule;
                             ekf_attackers_count := attackers_count;
                             ekf_war_related := 0 <? war |}];
                       touched_dates := touched_dates o |} in
          o' ← attempt km_id "SUCCESS" "killmail" None 200 None resp o1;
          mret (low_budget resp, o')
    end.

(** [for c in candidates] *)
Fixpoint candidates_loop (candidates : list json) (o : Out) : M Out :=
  match candidates with
  | [] => mret o
  | c :: rest =>
      '(f, o') ← candidate_step c o;
      match f with
      | Break => mret o'
      | Continue => candidates_loop rest o'
      end
  end.
End Loop.

End EsiEnricher.

(** ** Concrete inputs used by the examples below *)

Module Inputs.
Import Store.

Definition raw1 (ts : Z) : raw_row :=
  {| raw_killmail_id := 1; raw_killmail_hash := Some "h";
     raw_redisq_request_ts := ts; raw_location_id := None; raw_labels := [];
     raw_npc := false; raw_awox := false; raw_solo := false;
     raw_href := None; raw_package_json := "{}" |}.

Definition logs1 : Logs :=
  {| redisq_raw_log := [raw1 10]; enrich_attempts_log := [];
     kills_enriched_log := [];
     kills_discarded_log := [{| dis_killmail_id := 1; dis_discard_ts := 11;
                                dis_reason := "self_destruct" |}] |}.

Definition more1 : Logs :=
  {| redisq_raw_log := [raw1 20; raw1 30];
     enrich_attempts_log := [{| att_killmail_id := 1; att_attempt_ts := 21;
                                att_stage := "enrich"; att_ok := false;
                                att_error := "x" |}];
     kills_enriched_log := []; kills_discarded_log := [] |}.

Definition raw_of (kid ts : Z) : raw_row :=
  {| raw_killmail_id := kid; raw_killmail_hash := None;
     raw_redisq_request_ts := ts; raw_location_id := None; raw_labels := [];
     raw_npc := false; raw_awox := false; raw_solo := false;
     raw_href := None; raw_package_json := "" |}.

Definition fail_of (kid ts : Z) : attempt_row :=
  {| att_killmail_id := kid; att_attempt_ts := ts; att_stage := "enrich";
     att_ok := false; att_error := "e" |}.

(** Killmail 7 is seen first and has eleven failed attempts; 8 and 9 follow. *)
Definition logs3 : Logs :=
  {| redisq_raw_log := [raw_of 9 30; raw_of 7 10; raw_of 8 20; raw_of 9 25];
     enrich_attempts_log := map (fail_of 7) [1; 2; 3; 4; 5; 6; 7; 8; 9; 10; 11];
     kills_enriched_log := []; kills_discarded_log := [] |}.

(** A kill of day 0, seen on day 1 and enriched at once; on day 401 the
    raw row is 400 days old and the kill itself 401. *)
Definition old_kill : Logs :=
  {| redisq_raw_log := [raw1 day];
     enrich_attempts_log :=
       [{| att_killmail_id := raw_killmail_id (raw1 day); att_attempt_ts := day;
           att_stage := "enrich"; att_ok := true; att_error := "" |}];
     kills_enriched_log :=
       [{| enr_killmail_id := raw_killmail_id (raw1 day); enr_enriched_ts := day;
           enr_killmail_time := 0; enr_victim_ship_class := "subcapital";
           enr_attacker_corp_names := [] |}];
     kills_discarded_log := [] |}.

Definition day_401 : Clocks :=
  {| now_raw := 401 * day; now_attempts := 401 * day;
     now_enriched := 401 * day; now_discarded := 401 * day |}.

End Inputs.

(** ** Vocabulary of the statements: what a trace shows *)

Module Observe.

(** The answers to the POSTs of a trace, in order. *)
Definition post_results (evs : list Event) : list (Res response) :=
  omap (fun e => match e with EvPost _ _ r => Some r | _ => None end) evs.

(** The lengths of the sleeps of a trace, in order. *)
Definition sleeps (evs : list Event) : list Q :=
  omap (fun e => match e with EvSleep q => Some q | _ => None end) evs.

(** The GETs of a trace, in order. *)
Definition gets (evs : list Event) : list string :=
  omap (fun e => match e with EvGet url _ _ _ => Some url | _ => None end) evs.

(** The Ledger accepted the append: HTTP 200 and a JSON body whose ["ok"] is
    [true]. *)
Definition accepted (r : Res response) : bool :=
  match r with
  | Ok r =>
      (status_code r =? 200) &&
      match body r with
      | Some resp => match get resp "ok" with
                     | Ok v => is_True v
                     | Raise _ => false
                     end
      | None => false
      end
  | Raise _ => false
  end.

(** A failure that [append] retries: an answer that is not HTTP 200, or HTTP
    200 with a JSON object whose ["ok"] is not [true]. *)
Definition transient (r : Res response) : bool :=
  match r with
  | Ok r =>
      if status_code r =? 200
      then match body r with
           | Some resp => match get resp "ok" with
                          | Ok v => negb (is_True v)
                          | Raise _ => false
                          end
           | None => false
           end
      else true
  | Raise _ => false
  end.

(** The exception with which a POST ends [append] at once: the one the POST
    raised, or the one that reading the answer HTTP 200 raises ([r.json()]
    on a body that is not JSON, [.get] on JSON that is no object). *)
Definition failure_of (r : Res response) : option exn :=
  match r with
  | Raise e => Some e
  | Ok r =>
      if status_code r =? 200
      then match body r with
           | Some resp => match get resp "ok" with
                          | Ok _ => None
                          | Raise e => Some e
                          end
           | None => Some JSONDecodeError
           end
      else None
  end.

(** The delay before the turn after turn [attempt]: [2 ** attempt]. *)
Definition backoff (attempt : nat) : Q := inject_Z (2 ^ Z.of_nat attempt).

(** An event of [LedgerClient.append]: a sleep, or a POST of the payload. *)
Definition ledger_event (c : LedgerClient) (stream run_id : string)
    (lines : list string) (e : Event) : Prop :=
  (∃ q, e = EvSleep q)
  ∨ (∃ r, e = EvPost (ledger_url c) (payload c stream run_id lines) r).

(** A poll answered with HTTP 200 and a JSON object that has no package
    (no ["package"] field, or a null or empty one). *)
Definition no_package (r : Res response) : bool :=
  match r with
  | Ok resp =>
      (status_code resp =? 200) &&
      match body resp with
      | Some j => match get j "package" with
                  | Ok pkg => negb (truthy pkg)
                  | Raise _ => false
                  end
      | None => false
      end
  | Raise _ => false
  end.

(** The headers that [get_json] sends for [url]: the user agent, and the
    stored validator if there is one. *)
Definition esi_headers (ua url : string) (s : State) : list (string * string) :=
  ("User-Agent", ua) ::
  match esi_etag s !! url with
  | Some tag => [("If-None-Match", tag)]
  | None => []
  end.

(** The answer that the ESI gives to [get_json path] in state [s]. *)
Definition esi_answer (env : Env) (ua path : string) (s : State) : Res response :=
  http_get env (trace s) (ESI_BASE +:+ path) []
    (esi_headers ua (ESI_BASE +:+ path) s).

(** The state after further calls of [get_json], whatever they return. *)
Definition after_gets (env : Env) (user_agent : string) (paths : list string)
    (s : State) : State :=
  foldl (fun s p => snd (get_json env user_agent p s)) s paths.

End Observe.

(** ** Concrete environments *)

Module Envs.

Definition resp (status : Z) (b : option json) : response :=
  {| status_code := status; headers := []; body := b; text := "" |}.

(** Keeps the first occurrence of every element: one order in which a set
    may be iterated. *)
Fixpoint first_seen_order (xs seen : list json) : list json :=
  match xs with
  | [] => []
  | x :: r => if py_in x seen then first_seen_order r seen
              else x :: first_seen_order r (x :: seen)
  end.

(** A world in which every call succeeds: the Ledger accepts, the ESI and
    the queue answer 200 with an empty object, [bq] prints nothing. *)
Definition calm : Env :=
  {| http_get := fun _ _ _ _ => Ok (resp 200 (Some (JObj [])));
     http_post := fun _ _ _ => Ok (resp 200 (Some (JObj [("ok", JBool true)])));
     run_sh := fun _ _ => Ok "";
     fs_write := fun _ _ _ => Ok tt;
     fs_makedirs := fun _ _ => Ok tt;
     clock := fun _ => 0%Q;
     clock_iso := fun _ => "2026-01-01T00:00:00+00:00";
     set_order := fun xs => first_seen_order xs [];
     json_dumps := fun _ => "{}";
     json_dumps_unicode := fun _ => "{}";
     json_loads := fun _ => Ok (JArr []);
     py_repr := fun _ => "?";
     sha256_hex := fun s => s;
     exn_str := fun _ => "error" |}.

Definition with_post (f : list Event -> string -> json -> Res response)
    (e : Env) : Env :=
  {| http_get := http_get e; http_post := f; run_sh := run_sh e;
     fs_write := fs_write e; fs_makedirs := fs_makedirs e; clock := clock e;
     clock_iso := clock_iso e; set_order := set_order e;
     json_dumps := json_dumps e; json_dumps_unicode := json_dumps_unicode e;
     json_loads := json_loads e; py_repr := py_repr e;
     sha256_hex := sha256_hex e; exn_str := exn_str e |}.

Definition with_get
    (f : list Event -> string -> list (string * string) ->
         list (string * string) -> Res response) (e : Env) : Env :=
  {| http_get := f; http_post := http_post e; run_sh := run_sh e;
     fs_write := fs_write e; fs_makedirs := fs_makedirs e; clock := clock e;
     clock_iso := clock_iso e; set_order := set_order e;
     json_dumps := json_dumps e; json_dumps_unicode := json_dumps_unicode e;
     json_loads := json_loads e; py_repr := py_repr e;
     sha256_hex := sha256_hex e; exn_str := exn_str e |}.

Definition with_set_order (f : list json -> list json) (e : Env) : Env :=
  {| http_get := http_get e; http_post := http_post e; run_sh := run_sh e;
     fs_write := fs_write e; fs_makedirs := fs_makedirs e; clock := clock e;
     clock_iso := clock_iso e; set_order := f;
     json_dumps := json_dumps e; json_dumps_unicode := json_dumps_unicode e;
     json_loads := json_loads e; py_repr := py_repr e;
     sha256_hex := sha256_hex e; exn_str := exn_str e |}.

Definition with_sh (f : list Event -> bq_cmd -> Res string) (e : Env) : Env :=
  {| http_get := http_get e; http_post := http_post e; run_sh := f;
     fs_write := fs_write e; fs_makedirs := fs_makedirs e; clock := clock e;
     clock_iso := clock_iso e; set_order := set_order e;
     json_dumps := json_dumps e; json_dumps_unicode := json_dumps_unicode e;
     json_loads := json_loads e; py_repr := py_repr e;
     sha256_hex := sha256_hex e; exn_str := exn_str e |}.

Definition with_loads (f : string -> Res json) (e : Env) : Env :=
  {| http_get := http_get e; http_post := http_post e; run_sh := run_sh e;
     fs_write := fs_write e; fs_makedirs := fs_makedirs e; clock := clock e;
     clock_iso := clock_iso e; set_order := set_order e;
     json_dumps := json_dumps e; json_dumps_unicode := json_dumps_unicode e;
     json_loads := f; py_repr := py_repr e;
     sha256_hex := sha256_hex e; exn_str := exn_str e |}.

(** The Ledger answers HTTP 500 to every POST. *)
Definition ledger_down : Env :=
  with_post (fun _ _ _ => Ok (resp 500 None)) calm.

Definition client : LedgerClient :=
  {| ledger_url := "https://ledger.example/exec"; ledger_secret := "s3" |}.

(** The queue has nothing: every poll answers 200 with a JSON object
    without a package field. *)
Definition queue_empty : Env :=
  with_get (fun _ _ _ _ => Ok (resp 200 (Some (JObj [])))) calm.

(** One package waits in the queue: the first poll brings it, every later
    request gets an empty object. *)
Definition package1 : json :=
  JObj [("killID", JInt 77);
        ("zkb", JObj [("hash", JStr "abc"); ("labels", JArr [JStr "cat:6"]);
                      ("npc", JBool false)])].

Definition queue_once : Env :=
  with_get (fun tr url _ _ =>
              if String.eqb url REDISQ_BASE && (length (Observe.gets tr) =? 0)%nat
              then Ok (resp 200 (Some (JObj [("package", package1)])))
              else Ok (resp 200 (Some (JObj [])))) calm.

(** The ESI knows one solar system. *)
Definition jita_path : string := "/universe/systems/30000142/".

Definition esi_jita : Env :=
  with_get (fun _ _ _ _ => Ok (resp 200 (Some (JObj [("name", JStr "Jita")])))) calm.

End Envs.

(** ** The classification rules, stated as rules *)

Module Rules.

Definition ship_classes : list string :=
  ["structure"; "capsule"; "freighter"; "hauler"; "capital"; "subcapital"].

(** What a single label decides: a label ["cat:N"] gives [capital] for
    6 <= N <= 7 and [subcapital] for N <= 5; any other label decides
    nothing. *)
Definition decisive (x : json) : option string :=
  match x with
  | JStr s =>
      if startswith "cat:" s then
        match cat_number s with
        | Some n => if (6 <=? n) && (n <=? 7) then Some "capital"
                    else if n <=? 5 then Some "subcapital" else None
        | None => None
        end
      else None
  | _ => None
  end.

(** The first label, in the given order, that decides something. *)
Definition first_decisive (lab : list json) : option string :=
  head (omap decisive lab).

(** The first matching rule, (a) to (g); [members] are the labels, [lab]
    the labels in the order in which the label set is iterated, [gname] the
    lower-cased ESI group name of the victim's ship type. *)
Definition ship_class_rule (members lab : list json) (gname : option string)
  : string :=
  if py_in (JStr "cat:8") members then "structure"
  else if group_in ["capsule"] gname then "capsule"
  else if py_in (JStr "cat:6") members
          || group_in ["freighter"; "jump freighter"] gname then "freighter"
  else if group_in hauler_groups gname then "hauler"
  else default "subcapital" (first_decisive lab).

(** [gname] is the group name that the ESI gives for the victim's ship. *)
Definition victim_group (env : Env) (ua : string) (km : json) (s : State)
    (gname : option string) : Prop :=
  ∃ victim st,
    get_default km "victim" (JObj []) = Ok victim
    ∧ get victim "ship_type_id" = Ok st
    ∧ if truthy st then ∃ s1, group_name_of env ua st s = (Ok gname, s1)
      else gname = None.

(** The first rule of the filter stage that applies, if any. *)
Definition first_discard (pvp npc awox self_destruct : bool) : option string :=
  if negb pvp || npc then Some "npc_only_or_not_pvp"
  else if awox then Some "awox_friendly_fire"
  else if self_destruct then Some "self_destruct"
  else None.

End Rules.

(** ** What one pending row adds to the three staged lists *)

Module RowRules.
Import Pipeline.

(** A discard: one discarded row and one attempt [filter]/ok. *)
Definition with_discard (rid ts ts' : string) (kill_id : Z) (reason : string)
    (acc : Acc) : Acc :=
  {| enriched_rows := enriched_rows acc;
     discarded_rows := discarded_rows acc ++
       [{| dr_run_id := rid; dr_discard_ts := ts; dr_killmail_id := kill_id;
           dr_reason := reason; dr_details := "" |}];
     attempt_rows := attempt_rows acc ++ [attempt rid ts' kill_id "filter" true ""] |}.

(** An enrichment: one enriched row and one attempt [enrich]/ok. *)
Definition with_enriched (rid : string) (e : enriched_rec) (ts' : string)
    (kill_id : Z) (acc : Acc) : Acc :=
  {| enriched_rows := enriched_rows acc ++ [e];
     discarded_rows := discarded_rows acc;
     attempt_rows := attempt_rows acc ++ [attempt rid ts' kill_id "enrich" true ""] |}.

(** A failure: one attempt [enrich]/fail and nothing else. *)
Definition with_failure (rid ts : string) (kill_id : Z) (error : string)
    (acc : Acc) : Acc :=
  {| enriched_rows := enriched_rows acc;
     discarded_rows := discarded_rows acc;
     attempt_rows := attempt_rows acc ++ [attempt rid ts kill_id "enrich" false error] |}.

(** A test that returned [True]. *)
Definition res_true (r : Res bool) : bool :=
  match r with Ok b => b | Raise _ => false end.

(** [row.get(k)] as a flag, for a row that is a dict. *)
Definition flag (row : json) (k : string) : bool :=
  match get row k with Ok v => truthy v | Raise _ => false end.

(** The shape of an attempt record that the loop stages. *)
Definition attempt_wf (a : attempt_rec) : Prop :=
  (at_stage a = "filter" ∨ at_stage a = "enrich")
  ∧ at_stage a ≠ "fetch"
  ∧ (at_ok a = false → at_stage a = "enrich")
  ∧ (String.length (at_error a) ≤ 500)%nat.

End RowRules.

(** ** Killmails and pending rows for the examples *)

Module Batch.
Import Pipeline.

(** [int(row["killmail_id"])], the first thing the loop reads of a pending
    row. *)
Definition row_id (row : json) : Res Z := getitem row "killmail_id" ≫= int.

Definition has_id (row : json) : Prop := ∃ k, row_id row = Ok k.

(** The kill ids of the pending rows that have one, in order. *)
Definition row_ids (pending : list json) : list Z :=
  omap (fun row => match row_id row with Ok k => Some k | Raise _ => None end)
       pending.

(** The attempts that succeeded. *)
Definition ok_attempts (acc : Acc) : list attempt_rec :=
  filter (fun a => at_ok a = true) (attempt_rows acc).

(** [int(pkg["killID"])] as [stage_raw] reads it ([pkg.get("killID")]). *)
Definition pkg_id (pkg : json) : Res Z := get pkg "killID" ≫= int.

(** The raw row that [stage_raw] builds for a package. *)
Definition staged_from (env : Env) (rid : string) (pkg : json) (r : raw_rec)
    : Prop :=
  pkg_id pkg = Ok (rr_killmail_id r) ∧ rr_run_id r = rid
  ∧ rr_package_json r = json_dumps env (JObj [("package", pkg)]).

End Batch.

Module Kills.
Import Envs.

(** A kill by another player: attacker 5, victim 6. *)
Definition km_pvp : json :=
  JObj [("killmail_time", JStr "2026-01-01T00:00:00Z");
        ("solar_system_id", JInt 30000142);
        ("victim", JObj [("character_id", JInt 6)]);
        ("attackers", JArr [JObj [("character_id", JInt 5);
                                 ("final_blow", JBool true)]])].

(** The only attacker is the victim. *)
Definition km_self : json :=
  JObj [("victim", JObj [("character_id", JInt 5)]);
        ("attackers", JArr [JObj [("character_id", JInt 5);
                                 ("final_blow", JBool true)]])].

(** The ESI answers every request with the given body. *)
Definition esi_gives (km : json) : Env :=
  with_get (fun _ _ _ _ => Ok (resp 200 (Some km))) calm.

(** The ESI is down: every request fails with HTTP 502. *)
Definition esi_down : Env :=
  with_get (fun _ _ _ _ => Ok (resp 502 None)) calm.

Definition pending_row (npc awox : bool) : json :=
  JObj [("killmail_id", JStr "77"); ("killmail_hash", JStr "abc");
        ("labels", JArr [JStr "cat:6"]); ("npc", JBool npc);
        ("awox", JBool awox); ("attempts", JStr "0")].

Definition cfg0 : Pipeline.Config :=
  {| Pipeline.mode := "tick"; Pipeline.cfg_ledger_url := "";
     Pipeline.cfg_ledger_secret := ""; Pipeline.user_agent := "EOU/0.1";
     Pipeline.queue_id := "eou_orch_main"; Pipeline.max_seconds := 50;
     Pipeline.max_polls := 4; Pipeline.max_enrich := 10 |}.

(** Three attackers of two corporations; the second dealt the final blow. *)
Definition km_corps : json :=
  JObj [("attackers",
         JArr [JObj [("corporation_id", JInt 10); ("damage_done", JInt 500)];
               JObj [("corporation_id", JInt 20); ("damage_done", JInt 100);
                     ("final_blow", JBool true)];
               JObj [("corporation_id", JInt 10); ("damage_done", JInt 50)]])].

(** The ESI knows the two corporations and nothing else. *)
Definition esi_corps : Env :=
  with_get (fun _ url _ _ =>
              if String.eqb url (ESI_BASE +:+ "/corporations/10/")
              then Ok (resp 200 (Some (JObj [("name", JStr "A Corp")])))
              else if String.eqb url (ESI_BASE +:+ "/corporations/20/")
              then Ok (resp 200 (Some (JObj [("name", JStr "B Corp")])))
              else Ok (resp 404 None)) calm.

(** The same settings with a Ledger. *)
Definition cfg1 : Pipeline.Config :=
  {| Pipeline.mode := "tick";
     Pipeline.cfg_ledger_url := "https://ledger.example/exec";
     Pipeline.cfg_ledger_secret := "s3"; Pipeline.user_agent := "EOU/0.1";
     Pipeline.queue_id := "eou_orch_main"; Pipeline.max_seconds := 50;
     Pipeline.max_polls := 4; Pipeline.max_enrich := 10 |}.

End Kills.

(** ** Ledger before store: what is asked of a trace *)

Module Order.
Import Pipeline.

(** The Ledger stream that backs up a log table. *)
Definition stream_of (table : string) : string :=
  if String.eqb table "redisq_raw_log" then "redisq_raw"
  else if String.eqb table "enrich_attempts_log" then "enrich_attempts"
  else if String.eqb table "kills_enriched_log" then "enriched"
  else if String.eqb table "kills_discarded_log" then "discarded"
  else "".

(** The lines of an ndjson file. *)
Definition file_lines (lines : list string) : list string :=
  map (fun l => l +:+ newline) lines.

(** Neither a POST nor a [bq load]. *)
Definition quiet (e : Event) : Prop :=
  match e with
  | EvPost _ _ _ => False
  | EvSh (BqLoad _ _ _ _) _ => False
  | _ => True
  end.

(** Requests that only read, sleeps, the clock, prints and [bq] commands
    other than a load: no POST and nothing written. *)
Definition reads_only (e : Event) : Prop :=
  match e with
  | EvGet _ _ _ _ | EvSleep _ | EvTime _ | EvNowIso _ | EvPrint _ => True
  | EvSh (BqLoad _ _ _ _) _ => False
  | EvSh _ _ => True
  | _ => False
  end.

(** A POST of an append to [stream]. *)
Definition posted_to (c : LedgerClient) (rid stream : string) (e : Event) : Prop :=
  ∃ lines r, e = EvPost (ledger_url c) (payload c stream rid lines) r.

(** A POST of [lines] to [stream] that the Ledger accepted. *)
Definition appended (c : LedgerClient) (rid stream : string)
    (lines : list string) (e : Event) : Prop :=
  ∃ r, e = EvPost (ledger_url c) (payload c stream rid lines) r
       ∧ Observe.accepted r = true.

(** Some POST to [stream] was accepted. *)
Definition accepted_to (c : LedgerClient) (rid stream : string) (e : Event) : Prop :=
  ∃ lines, appended c rid stream lines e.

(** A [bq load] into [table]. *)
Definition load_into (table : string) (e : Event) : Prop :=
  ∃ path schema app r, e = EvSh (BqLoad table path schema app) r.

(** Every [bq load] comes after an accepted Ledger append, to the stream of
    its table, of the very lines that the loaded file holds. *)
Definition ledger_first (c : LedgerClient) (rid : string) (evs : list Event) : Prop :=
  ∀ i table path schema app r,
    evs !! i = Some (EvSh (BqLoad table path schema app) r) →
    ∃ j k lines e,
      (j < k < i)%nat
      ∧ evs !! j = Some e ∧ appended c rid (stream_of table) lines e
      ∧ evs !! k = Some (EvWrite path (file_lines lines) (Ok tt)).

(** If an append to [stream] was tried, one was accepted. *)
Definition clean (c : LedgerClient) (rid stream : string) (evs : list Event) : Prop :=
  Exists (posted_to c rid stream) evs → Exists (accepted_to c rid stream) evs.

(** No [bq load]; no POST. *)
Definition no_load (e : Event) : Prop :=
  match e with EvSh (BqLoad _ _ _ _) _ => False | _ => True end.

Definition no_post (e : Event) : Prop :=
  match e with EvPost _ _ _ => False | _ => True end.

(** What a store load adds to the trace: the write of the file, then,
    unless the write failed, the [bq load]. *)
Definition store_events (table : string) (lines : list string)
    (more : list Event) : Prop :=
  (∃ path e, more = [EvWrite path (file_lines lines) (Raise e)])
  ∨ (∃ path schema res,
       more = [EvWrite path (file_lines lines) (Ok tt);
               EvSh (BqLoad table path schema true) res]).

(** The invariant that a run keeps: ledger before store, and every stream
    clean. *)
Definition kept_by (c : LedgerClient) (rid : string) (evs : list Event) : Prop :=
  ledger_first c rid evs ∧ ∀ stream, clean c rid stream evs.

(** [evs'] continues [evs]. *)
Definition grows (evs evs' : list Event) : Prop := ∃ more, evs' = evs ++ more.

(** What is asked of a run, for the events since its start: the Ledger
    comes first, and a run that ends normally leaves every stream clean. *)
Definition run_in_order {A} (c : LedgerClient) (rid : string)
    (t0 : list Event) (r : Res A) (s' : State) : Prop :=
  ∃ evs, trace s' = t0 ++ evs ∧ ledger_first c rid evs
         ∧ (is_ok r = true → ∀ stream, clean c rid stream evs).

(** [m] only adds events that satisfy [P] to the trace. *)
Definition emits {A} (P : Event → Prop) (m : M A) : Prop :=
  ∀ s r s', m s = (r, s') → ∃ evs, trace s' = trace s ++ evs ∧ Forall P evs.

End Order.

(** ** Attacker-corp attribution: what is asked of the result *)

Module Admin.
Import Pipeline.

(** The lines written one by one to the open file [path]. *)
Definition written_lines (path : string) (evs : list Event) : list string :=
  omap (fun e => match e with
                 | EvWriteLine p l => if String.eqb p path then Some l else None
                 | _ => None
                 end) evs.

(** A [bq mk]. *)
Definition is_mk (e : Event) : Prop :=
  match e with EvSh (BqMk _ _ _ _) _ => True | _ => False end.

(** [bq show] of [table] failed with a non-zero exit status. *)
Definition show_failed (table : string) (e : Event) : Prop :=
  ∃ code, e = EvSh (BqShow table) (Raise (CalledProcessError code)).

(** Every [bq mk] of a table comes directly after a failed [bq show] of that
    table. *)
Definition mk_only_missing (evs : list Event) : Prop :=
  ∀ before table schema field cluster r after,
    evs = before ++ EvSh (BqMk table schema field cluster) r :: after →
    ∃ before' e, before = before' ++ [e] ∧ show_failed table e.

(** What the maintenance mode may do: [bq show], [bq mk], [bq query], read
    the clock and print. *)
Definition admin_only (e : Event) : Prop :=
  match e with
  | EvSh (BqShow _) _ | EvSh (BqMk _ _ _ _) _ | EvSh (BqQuery _) _ => True
  | EvTime _ | EvPrint _ => True
  | _ => False
  end.

(** The statements handed to [bq query], in order. *)
Definition queries (evs : list Event) : list sql :=
  omap (fun e => match e with EvSh (BqQuery q) _ => Some q | _ => None end) evs.

(** A POST carries at least one line, and so does a file that is written. *)
Definition nonempty_batch (rid : string) (e : Event) : Prop :=
  match e with
  | EvPost _ p _ => ∃ c stream lines, p = payload c stream rid lines ∧ lines ≠ []
  | EvWrite _ lines _ => lines ≠ []
  | _ => True
  end.

End Admin.

Module Enricher.
Import EsiEnricher.

(** The attackers that [compute_attacker_corp_ids] iterates over:
    [km.get("attackers", []) or []]. *)
Definition attackers_of (km : json) : Res (list json) :=
  att ← get_default km "attackers" (JArr []);
  iter (py_or att (JArr [])).

(** [k] is the corporation of one of the attackers. *)
Definition attacker_corp (xs : list json) (k : Z) : Prop :=
  ∃ a, a ∈ xs ∧ corp_id a = Ok (Some k).

(** The three kinds of attempt rows. *)
Definition ea_wf (r : ea_rec) : Prop :=
  (ea_result r = "FAIL" ∧ ea_stage r = "killmail" ∧ ea_http_status r ≠ 200)
  ∨ (ea_result r = "DISCARD" ∧ ea_stage r = "filter" ∧ ea_http_status r = 200)
  ∨ (ea_result r = "SUCCESS" ∧ ea_stage r = "killmail" ∧ ea_http_status r = 200
     ∧ ea_reason r = None).

Definition is_success (r : ea_rec) : Prop := ea_result r = "SUCCESS".

#[global] Instance is_success_dec r : Decision (is_success r).
Proof. unfold is_success. apply _. Defined.

Definition rate_limited (r : ea_rec) : Prop := ea_reason r = Some "RATE_LIMIT".

(** The rows added by a run of the loop. *)
Definition only_last_rate_limited (rows : list ea_rec) : Prop :=
  ∀ i r, rows !! i = Some r → rate_limited r → S i = length rows.

(** What one turn adds: at most one request, and after a request that was
    answered exactly one attempt row. *)
Definition step_ok (o : Out) (f : flow) (o' : Out) : Prop :=
  ∃ row, ea_rows o' = ea_rows o ++ [row]
         ∧ ea_wf row
         ∧ (rate_limited row → f = Break)
         ∧ ((is_success row
             ∧ ∃ e, ekf_rows o' = ekf_rows o ++ [e]
                    ∧ ekf_killmail_id e = ea_killmail_id row)
            ∨ (¬ is_success row ∧ ekf_rows o' = ekf_rows o)).

(** A candidate row as the query of [main] returns it. *)
Definition candidate (kid : Z) : json :=
  JObj [("killmail_id", JStr (pretty kid)); ("killmail_hash", JStr "abc");
        ("location_id", JNull); ("labels", JArr [JStr "pvp"; JStr "cat:7"]);
        ("request_date", JStr "2026-01-01")].

(** The ESI answers 404 to the first request and 429 to every later one. *)
Definition esi_busy : Env :=
  Envs.with_get (fun tr _ _ _ =>
                   if (length (Observe.gets tr) =? 0)%nat
                   then Ok (Envs.resp 404 None)
                   else Ok (Envs.resp 429 None)) Envs.calm.

End Enricher.

Module Corps.

(** No entry of the list equals ([==]) an earlier one. *)
Definition distinct (out : list json) : Prop :=
  ∀ i j a b, (i < j)%nat → out !! i = Some a → out !! j = Some b →
             py_eq b a = false.

(** The attacker dealt the final blow and belongs to corporation [c]. *)
Definition final_blow_by (a : json) (c : Z) : Prop :=
  ∃ fb cid, get a "final_blow" = Ok fb ∧ truthy fb = true
            ∧ get a "corporation_id" = Ok cid ∧ truthy cid = true
            ∧ int cid = Ok c.

(** The attacker did not deal the final blow. *)
Definition no_final_blow (a : json) : Prop :=
  ∃ fb, get a "final_blow" = Ok fb ∧ truthy fb = false.

(** The corporation of an attacker: [None] when the field is missing or
    falsy. *)
Definition corp_of (a : json) : Res (option Z) :=
  cid ← get a "corporation_id";
  if truthy cid then Some <$> int cid else Ok None.

(** How many of the attackers belong to corporation [k]. *)
Fixpoint members_of (k : Z) (attackers : list json) : Z :=
  match attackers with
  | [] => 0
  | a :: rest =>
      (match corp_of a with
       | Ok (Some k') => if k =? k' then 1 else 0
       | _ => 0
       end) + members_of k rest
  end.

(** The count that [corp_counts] holds for [k]; 0 when [k] is no key. *)
Fixpoint count_of (k : Z) (counts : list (Z * Z)) : Z :=
  match counts with
  | [] => 0
  | (k', n) :: rest => if k =? k' then n else count_of k rest
  end.

End Corps.

(** * Properties *)

(** ** The pending-state view and the pending query *)

Module StoreFacts.
Import Store.

#[local] Instance first_seen_le_trans : Transitive first_seen_le.
Proof. unfold first_seen_le. intros a b c. lia. Qed.

#[local] Instance first_seen_le_total : Total first_seen_le.
Proof. unfold first_seen_le. intros a b. lia. Qed.

Lemma view_row_id l first same :
  killmail_id (view_row l first same) = raw_killmail_id first.
Proof. reflexivity. Qed.

Lemma view_row_worked l first same :
  worked (view_row l first same)
  = bool_decide (raw_killmail_id first ∈ done_enriched l)
    || bool_decide (raw_killmail_id first ∈ done_discarded l).
Proof. reflexivity. Qed.

(** Every row of the view is the row of a group of the raw log. *)
Lemma group_raw_inv l fuel raw r :
  r ∈ group_raw l fuel raw →
  ∃ first same, r = view_row l first same ∧ first ∈ raw.
Proof.
  revert raw. induction fuel as [|fuel IH]; intros raw Hr; simpl in Hr.
  - by apply elem_of_nil in Hr.
  - destruct raw as [|first rest]; [by apply elem_of_nil in Hr|].
    apply elem_of_cons in Hr as [->|Hr].
    + eexists _, _. split; [reflexivity|]. apply elem_of_cons; by left.
    + apply IH in Hr as (f & sm & -> & Hf).
      exists f, sm. split; [done|].
      apply elem_of_cons; right. by apply list_elem_of_filter in Hf as [_ ?].
Qed.

Lemma group_raw_ids l fuel raw r :
  r ∈ group_raw l fuel raw → killmail_id r ∈ map raw_killmail_id raw.
Proof.
  intros (f & sm & -> & Hf)%group_raw_inv. rewrite view_row_id.
  by apply (list_elem_of_fmap_2 raw_killmail_id).
Qed.

(** No killmail appears twice in the view. *)
Lemma group_raw_NoDup l fuel raw : NoDup (map killmail_id (group_raw l fuel raw)).
Proof.
  revert raw. induction fuel as [|fuel IH]; intros raw; simpl; [constructor|].
  destruct raw as [|first rest]; simpl; [constructor|].
  constructor; [|apply IH].
  intros Hin. apply list_elem_of_fmap in Hin as (r & Hid & Hr).
  apply group_raw_ids in Hr. rewrite <- Hid in Hr.
  apply list_elem_of_fmap in Hr as (x & Hx & Hf).
  apply list_elem_of_filter in Hf as [Hne _]. congruence.
Qed.

(** Every killmail of the raw log has its row in the view. *)
Lemma group_raw_complete l fuel raw x :
  (length raw ≤ fuel)%nat → x ∈ raw →
  ∃ r, r ∈ group_raw l fuel raw ∧ killmail_id r = raw_killmail_id x.
Proof.
  revert raw. induction fuel as [|fuel IH]; intros raw Hlen Hx.
  - destruct raw; [by apply elem_of_nil in Hx|simpl in Hlen; lia].
  - destruct raw as [|first rest]; [by apply elem_of_nil in Hx|].
    simpl in Hlen.
    destruct (decide (raw_killmail_id x = raw_killmail_id first)) as [Heq|Hne].
    + eexists. split; [apply elem_of_cons; left; reflexivity|].
      by rewrite view_row_id.
    + apply elem_of_cons in Hx as [->|Hx]; [done|].
      destruct (IH (filter (λ r, raw_killmail_id r ≠ raw_killmail_id first) rest) )
        as (r & Hr & Hid).
      * pose proof (length_filter (λ r, raw_killmail_id r ≠ raw_killmail_id first) rest). lia.
      * by apply list_elem_of_filter.
      * exists r. split; [|done]. simpl. apply elem_of_cons; by right.
Qed.

Lemma view_ids l r :
  r ∈ v_kills_raw_state l → killmail_id r ∈ map raw_killmail_id (redisq_raw_log l).
Proof. apply group_raw_ids. Qed.

Lemma view_NoDup l : NoDup (map killmail_id (v_kills_raw_state l)).
Proof. apply group_raw_NoDup. Qed.

Lemma view_worked l r :
  r ∈ v_kills_raw_state l →
  worked r = bool_decide (killmail_id r ∈ done_enriched l)
             || bool_decide (killmail_id r ∈ done_discarded l).
Proof. by intros (f & sm & -> & _)%group_raw_inv. Qed.

Lemma view_attempts l r :
  r ∈ v_kills_raw_state l →
  attempts r = Z.of_nat (length (filter (λ a, att_killmail_id a = killmail_id r)
                                        (enrich_attempts_log l))).
Proof. by intros (f & sm & -> & _)%group_raw_inv. Qed.

Lemma pending_rows_elem l n r :
  r ∈ pending_rows l n → r ∈ v_kills_raw_state l ∧ is_pending r = true.
Proof.
  unfold pending_rows. intros Hr.
  apply list_elem_of_lookup in Hr as [i Hi].
  apply lookup_take_Some in Hi as [Hi _].
  apply list_elem_of_lookup_2 in Hi.
  rewrite merge_sort_Permutation in Hi.
  by apply list_elem_of_filter in Hi as [? ?].
Qed.

Lemma NoDup_fmap_eq {A B} (f : A → B) (l : list A) x y :
  NoDup (f <$> l) → x ∈ l → y ∈ l → f x = f y → x = y.
Proof.
  induction l as [|a l IH]; intros Hnd Hx Hy Hf; [by apply elem_of_nil in Hx|].
  rewrite fmap_cons in Hnd. apply NoDup_cons in Hnd as [Ha Hnd].
  apply elem_of_cons in Hx as [->|Hx]; apply elem_of_cons in Hy as [->|Hy];
    try done.
  - exfalso. apply Ha. rewrite Hf. by apply list_elem_of_fmap_2.
  - exfalso. apply Ha. rewrite <- Hf. by apply list_elem_of_fmap_2.
  - by apply IH.
Qed.

Lemma pending_rows_sorted l n : StronglySorted first_seen_le (pending_rows l n).
Proof.
  unfold pending_rows.
  set (sorted := merge_sort _ _).
  assert (StronglySorted first_seen_le sorted) as Hs
    by apply (StronglySorted_merge_sort _).
  rewrite <- (take_drop n sorted) in Hs.
  by apply StronglySorted_app_1_l in Hs.
Qed.

Lemma pending_rows_NoDup l n : NoDup (map killmail_id (pending_rows l n)).
Proof.
  unfold pending_rows.
  eapply sublist_NoDup; [|apply (fmap_sublist killmail_id), sublist_take].
  rewrite merge_sort_Permutation.
  eapply sublist_NoDup; [|apply (fmap_sublist killmail_id), sublist_filter].
  apply view_NoDup.
Qed.

Lemma pending_rows_oldest l n r r' :
  r ∈ v_kills_raw_state l → is_pending r = true → r ∉ pending_rows l n →
  r' ∈ pending_rows l n → first_seen_le r' r.
Proof.
  unfold pending_rows. set (sorted := merge_sort _ _).
  intros Hr Hp Hnot Hr'.
  assert (r ∈ sorted) as Hin.
  { unfold sorted. rewrite merge_sort_Permutation. by apply list_elem_of_filter. }
  rewrite <- (take_drop n sorted) in Hin.
  apply elem_of_app in Hin as [Hin|Hin]; [done|].
  assert (StronglySorted first_seen_le (take n sorted ++ drop n sorted)) as Hs.
  { rewrite take_drop. apply (StronglySorted_merge_sort _). }
  by eapply StronglySorted_app_1_elem_of.
Qed.

Lemma is_pending_spec r :
  is_pending r = true ↔ worked r = false ∧ attempts r ≤ 10.
Proof.
  unfold is_pending. rewrite andb_true_iff, negb_true_iff, Z.leb_le. done.
Qed.

End StoreFacts.

Module C1.
Import Store StoreFacts Inputs.

(** C1. Once an EnrichedRecord or a DiscardedRecord exists for a killmail_id,
    every later state of the logs (whatever is appended to any of the four
    logs) classifies it as worked: whenever the killmail has a raw event,
    the view has a row for it and that row has [worked = true]; every row
    of the view for it has [worked = true]; and the pending query never
    returns it. *)
Theorem worked_is_permanent (l more : Logs) (kid : Z) :
  kid ∈ done_enriched l ∨ kid ∈ done_discarded l →
  (kid ∈ map raw_killmail_id (redisq_raw_log (append_logs l more)) →
   ∃ r, r ∈ v_kills_raw_state (append_logs l more)
        ∧ killmail_id r = kid ∧ worked r = true)
  ∧ (∀ r, r ∈ v_kills_raw_state (append_logs l more) →
          killmail_id r = kid → worked r = true)
  ∧ (∀ limit_n rows, choose_pending (append_logs l more) limit_n = Some rows →
        kid ∉ map p_killmail_id rows).
Proof.
  intros Hdone.
  assert (∀ r, r ∈ v_kills_raw_state (append_logs l more) →
               killmail_id r = kid → worked r = true) as Hworked.
  { intros r Hr <-. rewrite (view_worked _ _ Hr).
    apply orb_true_iff. unfold done_enriched, done_discarded in *. simpl.
    rewrite !map_app.
    destruct Hdone as [H|H]; [left|right]; apply bool_decide_eq_true;
      apply elem_of_app; by left. }
  split; [|split; [done|]].
  { intros Hraw. apply list_elem_of_fmap in Hraw as (x & -> & Hx).
    destruct (group_raw_complete (append_logs l more)
                (length (redisq_raw_log (append_logs l more)))
                (redisq_raw_log (append_logs l more)) x)
      as (r & Hr & Hid); [done|done|].
    exists r. split; [exact Hr|]. split; [exact Hid|]. by apply Hworked. }
  intros limit_n rows Hq Hin. unfold choose_pending in Hq.
  destruct (limit_n <? 0); [done|]. injection Hq as <-.
  apply list_elem_of_fmap in Hin as (p & Hkid & Hp).
  apply list_elem_of_fmap in Hp as (r & -> & Hr).
  apply pending_rows_elem in Hr as [Hr Hpend].
  apply is_pending_spec in Hpend as [Hw _].
  rewrite (Hworked r Hr) in Hw; [done|]. by rewrite Hkid.
Qed.

Lemma worked_is_permanent_witness :
  (1 ∈ done_enriched logs1 ∨ 1 ∈ done_discarded logs1)
  ∧ (∃ r, r ∈ v_kills_raw_state (append_logs logs1 more1)
          ∧ killmail_id r = 1 ∧ worked r = true)
  ∧ (∀ r, r ∈ v_kills_raw_state (append_logs logs1 more1) →
          killmail_id r = 1 → worked r = true)
  ∧ choose_pending (append_logs logs1 more1) 5 = Some [].
Proof.
  assert (1 ∈ done_enriched logs1 ∨ 1 ∈ done_discarded logs1) as H.
  { right. apply elem_of_cons. by left. }
  split; [exact H|].
  destruct (worked_is_permanent logs1 more1 1 H) as (Hrow & Hall & _).
  split; [|split; [exact Hall|reflexivity]].
  apply Hrow. apply elem_of_cons. by left.
Defined.

(** The view after the appends: one row for killmail 1, first seen at 10,
    last seen at 30, with one attempt, and worked. *)
Example worked_row_of_killmail_1 :
  (λ r, (killmail_id r, redisq_first_seen_ts r, redisq_last_seen_ts r,
         attempts r, worked r))
    <$> v_kills_raw_state (append_logs logs1 more1)
  = [(1, 10, 30, 1, true)].
Proof. reflexivity. Qed.

End C1.

Module C3.
Import Store StoreFacts Inputs.

(** C3. The pending query returns rows of the view that all have
    [worked = false] and [attempts <= 10], in ascending order of
    [redisq_first_seen_ts], one per killmail_id, as many as the limit allows;
    a row left out by the limit is no older than any returned row; a
    killmail_id with [attempts = 11] is never returned. *)
Theorem choose_pending_spec (l : Logs) (limit_n : Z) :
  0 ≤ limit_n →
  ∃ rows,
    choose_pending l limit_n = Some (map select_columns rows)
    ∧ (∀ r, r ∈ rows →
         r ∈ v_kills_raw_state l ∧ worked r = false ∧ attempts r ≤ 10)
    ∧ StronglySorted first_seen_le rows
    ∧ length rows
      = Nat.min (Z.to_nat limit_n)
          (length (filter (λ r, is_pending r = true) (v_kills_raw_state l)))
    ∧ (∀ r r', r ∈ v_kills_raw_state l → worked r = false → attempts r ≤ 10 →
         r ∉ rows → r' ∈ rows →
         redisq_first_seen_ts r' ≤ redisq_first_seen_ts r)
    ∧ NoDup (map killmail_id rows)
    ∧ (∀ r, r ∈ v_kills_raw_state l → attempts r = 11 →
         killmail_id r ∉ map killmail_id rows).
Proof.
  intros Hlim. exists (pending_rows l (Z.to_nat limit_n)).
  assert (∀ r, r ∈ pending_rows l (Z.to_nat limit_n) →
     r ∈ v_kills_raw_state l ∧ worked r = false ∧ attempts r ≤ 10) as Helem.
  { intros r [Hr Hp%is_pending_spec]%pending_rows_elem. tauto. }
  repeat split.
  - unfold choose_pending. destruct (Z.ltb_spec limit_n 0); [lia|done].
  - by apply Helem.
  - by apply Helem.
  - by apply Helem.
  - apply pending_rows_sorted.
  - unfold pending_rows. rewrite length_take.
    by rewrite (Permutation_length (merge_sort_Permutation _ _)).
  - intros r r' Hr Hw Ha Hnot Hr'.
    eapply (pending_rows_oldest l _ r r'); try done.
    by apply is_pending_spec.
  - apply pending_rows_NoDup.
  - intros r Hr H11 Hin.
    apply list_elem_of_fmap in Hin as (r' & Hid & Hr').
    destruct (Helem r' Hr') as (Hv & _ & Hle).
    assert (r = r') as <-.
    { eapply (NoDup_fmap_eq killmail_id); eauto using view_NoDup. }
    lia.
Qed.

Lemma choose_pending_spec_witness :
  0 ≤ 5 ∧ map p_killmail_id <$> choose_pending logs3 5 = Some [8; 9].
Proof.
  split; [lia|].
  destruct (choose_pending_spec logs3 5 ltac:(lia)) as (rows & Hq & _).
  reflexivity.
Defined.

End C3.

(** ** Running monadic code *)

Module MonadFacts.

Lemma bind_inv {A B} (m : M A) (f : A → M B) s r s' :
  (m ≫= f) s = (r, s') →
  (∃ a s1, m s = (Ok a, s1) ∧ f a s1 = (r, s'))
  ∨ (∃ e, m s = (Raise e, s') ∧ r = Raise e).
Proof.
  unfold mbind, M_bind. destruct (m s) as [[a|e] s1]; intros H.
  - left. eauto.
  - right. injection H as <- <-. eauto.
Qed.

Lemma bind_ok {A B} (m : M A) (f : A → M B) s a s1 :
  m s = (Ok a, s1) → (m ≫= f) s = f a s1.
Proof. unfold mbind, M_bind. by intros ->. Qed.

Lemma bind_raise {A B} (m : M A) (f : A → M B) s e s1 :
  m s = (Raise e, s1) → (m ≫= f) s = (Raise e, s1).
Proof. unfold mbind, M_bind. by intros ->. Qed.

Lemma ret_inv {A} (a : A) s r s' :
  (mret a : M A) s = (r, s') → r = Ok a ∧ s' = s.
Proof. unfold mret, M_ret. by intros [= <- <-]. Qed.

Lemma lift_inv {A} (x : Res A) s r s' : lift x s = (r, s') → r = x ∧ s' = s.
Proof. unfold lift. by intros [= <- <-]. Qed.

Lemma raise_inv {A} e s (r : Res A) s' : raise e s = (r, s') → r = Raise e ∧ s' = s.
Proof. unfold raise. by intros [= <- <-]. Qed.

Lemma try_inv {A} (m : M A) h s r s' :
  try_except m h s = (r, s') →
  (∃ a, m s = (Ok a, s') ∧ r = Ok a)
  ∨ (∃ e s1, m s = (Raise e, s1) ∧ h e s1 = (r, s')).
Proof.
  unfold try_except. destruct (m s) as [[a|e] s1]; intros H.
  - left. injection H as <- <-. eauto.
  - right. eauto.
Qed.

Lemma trace_emit e s : trace (emit e s) = trace s ++ [e].
Proof. reflexivity. Qed.

End MonadFacts.

(** ** The Ledger client *)

Module LedgerFacts.
Import MonadFacts Observe.

Section Append.
Context (env : Env) (c : LedgerClient) (stream rid : string)
          (lines : list string).

Abbreviation loop := (append_loop env c stream rid lines).

Lemma append_loop_spec attempts last s r s' :
    loop attempts last s = (r, s') →
    ∃ evs,
      trace s' = trace s ++ evs
      ∧ esi_cache s' = esi_cache s ∧ esi_etag s' = esi_etag s
      ∧ Forall (ledger_event c stream rid lines) evs
      ∧ (length (post_results evs) ≤ length attempts)%nat
      ∧ sleeps evs `prefix_of` map backoff attempts
      ∧ (is_ok r = existsb accepted (post_results evs))
      ∧ (forallb transient (post_results evs) = true →
           length (post_results evs) = length attempts
           ∧ sleeps evs = map backoff attempts
           ∧ ∃ msg, r = Raise (RuntimeError msg)).
  Proof.
    revert last s. induction attempts as [|a rest IH]; intros last s H.
    - simpl in H. apply raise_inv in H as [-> ->].
      exists []. rewrite app_nil_r. repeat split; simpl; eauto.
    - simpl in H. unfold mbind at 1, M_bind at 1 in H.
      unfold requests_post in H.
      set (p := payload c stream rid lines) in *.
      set (res := http_post env (trace s) (ledger_url c) p) in *.
      set (s1 := emit (EvPost (ledger_url c) p res) s) in *.
      assert (ledger_event c stream rid lines (EvPost (ledger_url c) p res)) as Hev
        by (right; eauto).
      (* the cases where this POST ends the loop *)
      assert (∀ r0, (r, s') = (r0, s1) → is_ok r0 = accepted res →
                transient res = false →
                ∃ evs, trace s' = trace s ++ evs
                  ∧ esi_cache s' = esi_cache s ∧ esi_etag s' = esi_etag s
                  ∧ Forall (ledger_event c stream rid lines) evs
                  ∧ (length (post_results evs) ≤ length (a :: rest))%nat
                  ∧ sleeps evs `prefix_of` map backoff (a :: rest)
                  ∧ (is_ok r = existsb accepted (post_results evs))
                  ∧ (forallb transient (post_results evs) = true →
                       length (post_results evs) = length (a :: rest)
                       ∧ sleeps evs = map backoff (a :: rest)
                       ∧ ∃ msg, r = Raise (RuntimeError msg))) as Hstop.
      { intros r0 [= -> ->] Hacc Htr.
        exists [EvPost (ledger_url c) p res]. simpl.
        rewrite Hacc, Htr, orb_false_r.
        repeat split; auto; try lia; try done.
        apply prefix_nil. }
      (* the cases where the loop goes on after a sleep *)
      assert (∀ resp, res = Ok resp → accepted res = false → transient res = true →
                loop rest (Some resp) (emit (EvSleep (backoff a)) s1) = (r, s') →
                ∃ evs, trace s' = trace s ++ evs
                  ∧ esi_cache s' = esi_cache s ∧ esi_etag s' = esi_etag s
                  ∧ Forall (ledger_event c stream rid lines) evs
                  ∧ (length (post_results evs) ≤ length (a :: rest))%nat
                  ∧ sleeps evs `prefix_of` map backoff (a :: rest)
                  ∧ (is_ok r = existsb accepted (post_results evs))
                  ∧ (forallb transient (post_results evs) = true →
                       length (post_results evs) = length (a :: rest)
                       ∧ sleeps evs = map backoff (a :: rest)
                       ∧ ∃ msg, r = Raise (RuntimeError msg))) as Hgo.
      { intros resp Hres Hacc Htr Hrest.
        apply IH in Hrest as (evs & Ht & Hc & He & Hall & Hlen & Hsl & Hok & Hfatal).
        exists (EvPost (ledger_url c) p res :: EvSleep (backoff a) :: evs).
        simpl. rewrite Hacc, Htr. simpl.
        repeat split.
        - rewrite Ht. simpl. by rewrite <- !app_assoc.
        - by rewrite Hc.
        - by rewrite He.
        - constructor; [done|constructor; [left; eauto|done]].
        - lia.
        - by apply prefix_cons.
        - done.
        - destruct (Hfatal H0) as (? & ? & ?). simpl. lia.
        - destruct (Hfatal H0) as (? & -> & ?). done.
        - destruct (Hfatal H0) as (? & ? & ?). done. }
      destruct res as [resp|e] eqn:Hres; [|by apply (Hstop (Raise e))].
      unfold mbind at 1, M_bind at 1 in H.
      destruct (status_code resp =? 200) eqn:Hst.
      + unfold mbind at 1, M_bind at 1, lift, response_json in H.
        destruct (body resp) as [j|] eqn:Hb.
        * unfold mbind at 1, M_bind at 1 in H.
          destruct (get j "ok") as [v|e] eqn:Hg.
          -- unfold mret at 1, M_ret at 1 in H.
             destruct (is_True v) eqn:Hv.
             ++ apply (Hstop (Ok tt)); [done| |]; simpl; by rewrite Hst, Hb, Hg, Hv.
             ++ apply (Hgo resp); [done| | |]; simpl;
                  try (by rewrite Hst, Hb, Hg, Hv).
                revert H. unfold mbind, M_bind, time_sleep. done.
          -- apply (Hstop (Raise e)); [done| |]; simpl; by rewrite Hst, Hb, Hg.
        * apply (Hstop (Raise JSONDecodeError)); [done| |]; simpl;
            by rewrite Hst, Hb.
      + unfold mret at 1, M_ret at 1 in H.
        apply (Hgo resp); [done| | |]; simpl; try (by rewrite Hst).
        revert H. unfold mbind, M_bind, time_sleep. done.
  Qed.
End Append.

Section Turns.
Context (env : Env) (c : LedgerClient) (stream rid : string)
          (lines : list string).

Lemma transient_no_failure x : transient x = true → failure_of x = None.
Proof.
  destruct x as [r|e]; simpl; [|done].
  destruct (status_code r =? 200); [|done].
  destruct (body r) as [j|]; [|done]. by destruct (get j "ok").
Qed.

Lemma accepted_no_failure x : accepted x = true → failure_of x = None.
Proof.
  destruct x as [r|e]; simpl; [|done].
  destruct (status_code r =? 200); [|done].
  destruct (body r) as [j|]; [|done]. by destruct (get j "ok").
Qed.

(** The turns of the loop: a sleep follows every failure that is retried
    and nothing else, and a POST that raises, or whose answer cannot be
    read, is the last one and gives its exception to the call. *)
Lemma append_loop_turns attempts last s r s' :
  append_loop env c stream rid lines attempts last s = (r, s') →
  ∃ evs,
    trace s' = trace s ++ evs
    ∧ length (sleeps evs)
      = length (filter (λ x, transient x = true) (post_results evs))
    ∧ (∀ pre x post, post_results evs = pre ++ x :: post →
         failure_of x ≠ None → post = [])
    ∧ (∀ pre x e, post_results evs = pre ++ [x] →
         failure_of x = Some e → r = Raise e).
Proof.
  revert last s. induction attempts as [|a rest IH]; intros last s H.
  - simpl in H. apply raise_inv in H as [-> ->].
    exists []. rewrite app_nil_r. split; [done|]. split; [done|].
    split; intros pre x; intros; by destruct pre.
  - simpl in H. unfold mbind at 1, M_bind at 1, requests_post in H.
    set (res := http_post env (trace s) (ledger_url c)
                  (payload c stream rid lines)) in *.
    destruct res as [resp|e]; cycle 1.
    { injection H as <- <-.
      exists [EvPost (ledger_url c) (payload c stream rid lines) (Raise e)].
      split; [done|]. split; [done|]. split.
      - intros [|y pre] x post Heq; simplify_eq/=; [done|by destruct pre].
      - intros [|y pre] x e0 Heq; simplify_eq/=; [by intros [= ->]|by destruct pre]. }
    set (post := EvPost (ledger_url c) (payload c stream rid lines) (Ok resp)) in *.
    assert (∀ r0, (r, s') = (r0, emit post s) →
              transient (Ok resp) = false →
              (∀ e, failure_of (Ok resp) = Some e → r0 = Raise e) →
              ∃ evs,
                trace s' = trace s ++ evs
                ∧ length (sleeps evs)
                  = length (filter (λ x, transient x = true) (post_results evs))
                ∧ (∀ pre x post, post_results evs = pre ++ x :: post →
                     failure_of x ≠ None → post = [])
                ∧ (∀ pre x e, post_results evs = pre ++ [x] →
                     failure_of x = Some e → r = Raise e)) as Hstop.
    { intros r0 [= -> ->] Htr Hfail. exists [post].
      split; [done|]. split.
      { unfold post. simpl. rewrite filter_cons_False; [done|]. by rewrite Htr. }
      split.
      - intros [|y pre] x p Heq; simplify_eq/=; [done|by destruct pre].
      - intros [|y pre] x e0 Heq; simplify_eq/=; [by apply Hfail|by destruct pre]. }
    assert (transient (Ok resp) = true →
            (time_sleep (inject_Z (2 ^ Z.of_nat a));;
             append_loop env c stream rid lines rest (Some resp)) (emit post s)
            = (r, s') →
              ∃ evs,
                trace s' = trace s ++ evs
                ∧ length (sleeps evs)
                  = length (filter (λ x, transient x = true) (post_results evs))
                ∧ (∀ pre x post, post_results evs = pre ++ x :: post →
                     failure_of x ≠ None → post = [])
                ∧ (∀ pre x e, post_results evs = pre ++ [x] →
                     failure_of x = Some e → r = Raise e)) as Hgo.
    { intros Htr Hrun.
      apply bind_inv in Hrun as [([] & s2 & Hsl & Hrun)|(e & [=] & _)].
      injection Hsl as <-.
      apply IH in Hrun as (evs & Ht & Hlen & Hlast & Hexn).
      exists (post :: EvSleep (inject_Z (2 ^ Z.of_nat a)) :: evs).
      split; [rewrite Ht; simpl; by rewrite <- !app_assoc|].
      pose proof (transient_no_failure _ Htr) as Hnone.
      split; [|split].
      - unfold post. simpl. rewrite filter_cons_True by done. simpl.
        by rewrite Hlen.
      - intros pre x p Heq Hx. unfold post in Heq. simpl in Heq.
        destruct pre as [|y pre]; simplify_eq/=; try done; try congruence;
          by eapply Hlast.
      - intros pre x e Heq Hx. unfold post in Heq. simpl in Heq.
        destruct pre as [|y pre]; simplify_eq/=; try done; try congruence;
          by eapply Hexn. }
    destruct (status_code resp =? 200) eqn:Hst; cycle 1.
    { apply Hgo; [simpl; by rewrite Hst|].
      revert H. unfold mbind at 1, M_bind at 1. simpl. done. }
    apply bind_inv in H as [(done0 & s2 & Hdone & H)|(e & Hdone & ->)]; cycle 1.
    { apply bind_inv in Hdone as [(j & s3 & [Hj ->]%lift_inv & Hdone)|(e0 & [Hj ->]%lift_inv & [= <-])].
      - apply bind_inv in Hdone as [(v & s4 & [Hv ->]%lift_inv & Hdone)|(e0 & [Hv ->]%lift_inv & [= <-])].
        + by apply ret_inv in Hdone as [[=] _].
        + unfold response_json in Hj. destruct (body resp) as [j'|] eqn:Hb; [|done].
          injection Hj as ->.
          apply (Hstop (Raise e)); [done|simpl; by rewrite Hst, Hb, <- Hv|].
          simpl. rewrite Hst, Hb, <- Hv. by intros e' [= ->].
      - unfold response_json in Hj. destruct (body resp) as [j'|] eqn:Hb; [done|].
        injection Hj as ->.
        apply (Hstop (Raise JSONDecodeError)); [done|simpl; by rewrite Hst, Hb|].
        simpl. rewrite Hst, Hb. by intros e' [= <-]. }
    apply bind_inv in Hdone as [(j & s3 & [Hj ->]%lift_inv & Hdone)|(e0 & _ & [=])].
    apply bind_inv in Hdone as [(v & s4 & [Hv ->]%lift_inv & Hdone)|(e0 & _ & [=])].
    apply ret_inv in Hdone as [[= ->] ->].
    unfold response_json in Hj. destruct (body resp) as [j'|] eqn:Hb; [|done].
    injection Hj as ->.
    destruct (is_True v) eqn:Hv'.
    + apply ret_inv in H as [-> ->].
      apply (Hstop (Ok tt)); [done|simpl; by rewrite Hst, Hb, <- Hv, Hv'|].
      simpl. by rewrite Hst, Hb, <- Hv.
    + apply Hgo; [simpl; by rewrite Hst, Hb, <- Hv, Hv'|done].
Qed.
End Turns.

End LedgerFacts.

Module C7.
Import MonadFacts Observe LedgerFacts Envs.

(** C7. [LedgerClient.append] makes at most three POSTs.  It retries an
    answer that it could read and that is no acceptance (a status other
    than HTTP 200, or HTTP 200 with a JSON object whose ["ok"] is not
    [true]): the sleep after the failed turn number k lasts 2^k seconds (1,
    2, 4: every delay is twice the one before), a sleep is made after such a
    failure and after nothing else, and when every POST met such a failure
    it has made three of them and ends by raising [RuntimeError].  It
    returns normally exactly when the Ledger accepted a POST.  A POST that
    raises (a timeout, a connection error), or whose answer HTTP 200 cannot
    be read, is not retried: it is the last POST, and its exception leaves
    the call. *)
Theorem ledger_append_retries (env : Env) (c : LedgerClient)
    (stream rid : string) (lines : list string) (s : State) :
  ∃ r s' evs,
    append env c stream rid lines s = (r, s')
    ∧ trace s' = trace s ++ evs
    ∧ Forall (ledger_event c stream rid lines) evs
    ∧ (length (post_results evs) ≤ 3)%nat
    ∧ sleeps evs `prefix_of` [inject_Z 1; inject_Z 2; inject_Z 4]
    ∧ is_ok r = existsb accepted (post_results evs)
    ∧ (forallb transient (post_results evs) = true →
         length (post_results evs) = 3%nat
         ∧ sleeps evs = [inject_Z 1; inject_Z 2; inject_Z 4]
         ∧ ∃ msg, r = Raise (RuntimeError msg))
    ∧ length (sleeps evs)
      = length (filter (λ x, transient x = true) (post_results evs))
    ∧ (∀ pre x post, post_results evs = pre ++ x :: post →
         failure_of x ≠ None → post = [])
    ∧ (∀ pre x e, post_results evs = pre ++ [x] →
         failure_of x = Some e → r = Raise e).
Proof.
  destruct (append env c stream rid lines s) as [r s'] eqn:H.
  exists r, s'. unfold append in H.
  pose proof (append_loop_turns _ _ _ _ _ _ _ _ _ _ H)
    as (evs' & Ht' & Hsleep & Hlast & Hexn).
  apply append_loop_spec in H as (evs & Ht & _ & _ & Hall & Hlen & Hsl & Hok & Hfatal).
  assert (evs' = evs) as ->.
  { apply (app_inv_head (trace s)). by rewrite <- Ht, <- Ht'. }
  exists evs.
  split; [done|]. split; [done|]. split; [done|]. split; [done|].
  split; [done|]. split; [done|]. split.
  { intros Htr. destruct (Hfatal Htr) as (? & ? & ?). by repeat split. }
  split; [done|]. split; [exact Hlast|exact Hexn].
Qed.

(** A POST that times out is a transient failure, and it is not retried:
    one POST, no sleep, and the exception of the POST instead of
    [RuntimeError]. *)
Example timeout_is_not_retried :
  append (with_post (λ _ _ _, Raise (RequestException "timeout")) calm) client
    "redisq_raw" "run1" ["{}"] init_state
  = (Raise (RequestException "timeout"),
     {| trace := [EvPost (ledger_url client)
                    (payload client "redisq_raw" "run1" ["{}"])
                    (Raise (RequestException "timeout"))];
        esi_cache := ∅; esi_etag := ∅ |}).
Proof. reflexivity. Qed.

(** Three answers HTTP 500: three POSTs, sleeps of 1, 2 and 4 seconds, then
    the error. *)
Example ledger_append_http_500 :
  let p := payload client "redisq_raw" "run1" ["{}"] in
  let post := EvPost (ledger_url client) p (Ok (resp 500 None)) in
  append ledger_down client "redisq_raw" "run1" ["{}"] init_state
  = (Raise (RuntimeError "Ledger append failed for stream=redisq_raw: 500 "),
     {| trace := [post; EvSleep (inject_Z 1); post; EvSleep (inject_Z 2);
                  post; EvSleep (inject_Z 4)];
        esi_cache := ∅; esi_etag := ∅ |}).
Proof. reflexivity. Qed.

End C7.

(** ** The ESI client *)

Module EsiFacts.
Import MonadFacts Observe.

Lemma respect_error_limit_spec hs s r s' :
  respect_error_limit hs s = (r, s') →
  r = Ok tt ∧ esi_cache s' = esi_cache s ∧ esi_etag s' = esi_etag s
  ∧ gets (trace s') = gets (trace s).
Proof.
  unfold respect_error_limit, time_sleep.
  repeat case_match; intros Hrun; try (by apply ret_inv in Hrun as [-> ->]).
  injection Hrun as <- <-. repeat split.
  unfold gets. simpl. rewrite omap_app. simpl. by rewrite app_nil_r.
Qed.

Section Client.
Context (env : Env) (ua : string).

(** A cached body is returned at once: no call, no change of state. *)
Lemma get_json_cached path s v :
  esi_cache s !! (ESI_BASE +:+ path) = Some v →
  get_json env ua path s = (Ok v, s).
Proof.
  intros Hc. unfold get_json, get_cache, mbind, M_bind. by rewrite Hc.
Qed.

(** Bodies stay in the cache, and a normal return leaves the returned body
    in the cache. *)
Lemma get_json_cache path s r s' :
  get_json env ua path s = (r, s') →
  (∀ u v, esi_cache s !! u = Some v → esi_cache s' !! u = Some v)
  ∧ (∀ v, r = Ok v → esi_cache s' !! (ESI_BASE +:+ path) = Some v).
Proof.
  unfold get_json. intros H.
  apply bind_inv in H as [(cache & s0 & [= <- <-] & H)|(e & [=] & _)].
  destruct (esi_cache s !! (ESI_BASE +:+ path)) as [v0|] eqn:Hc.
  { apply ret_inv in H as [-> ->]. split; [done|]. by intros v [= <-]. }
  apply bind_inv in H as [(etag & s0 & [= <- <-] & H)|(e & [=] & _)].
  apply bind_inv in H as [(resp & s1 & Hget & H)|(e & Hget & ->)]; cycle 1.
  { unfold requests_get in Hget. injection Hget as _ <-. by split. }
  assert (esi_cache s1 = esi_cache s) as Hc1.
  { unfold requests_get in Hget. by injection Hget as _ <-. }
  apply bind_inv in H as [([] & s2 & Hrl & H)|(e & Hrl & ->)]; cycle 1.
  { by apply respect_error_limit_spec in Hrl as [[=] _]. }
  apply respect_error_limit_spec in Hrl as (_ & Hc2 & _ & _).
  destruct (status_code resp =? 304).
  { apply bind_inv in H as [(cache' & s3 & [= <- <-] & H)|(e & [=] & _)].
    rewrite Hc2, Hc1, Hc in H. apply raise_inv in H as [-> ->].
    split; [|done]. intros u v. by rewrite Hc2, Hc1. }
  apply bind_inv in H as [([] & s3 & Hrs & H)|(e & Hrs & ->)]; cycle 1.
  { apply lift_inv in Hrs as [_ ->]. split; [|done]. intros u v. by rewrite Hc2, Hc1. }
  apply lift_inv in Hrs as [_ ->].
  apply bind_inv in H as [([] & s4 & Htag & H)|(e & Htag & ->)]; cycle 1.
  { destruct (header "ETag" (headers resp)); [done|by apply ret_inv in Htag as [[=] _]]. }
  assert (esi_cache s4 = esi_cache s) as Hc4.
  { destruct (header "ETag" (headers resp)).
    - injection Htag as <-. simpl. by rewrite Hc2, Hc1.
    - apply ret_inv in Htag as [_ ->]. by rewrite Hc2, Hc1. }
  apply bind_inv in H as [(data & s5 & Hj & H)|(e & Hj & ->)]; cycle 1.
  { apply lift_inv in Hj as [_ ->]. split; [|done]. intros u v. by rewrite Hc4. }
  apply lift_inv in Hj as [_ ->].
  apply bind_inv in H as [([] & s6 & Hset & H)|(e & [=] & _)].
  injection Hset as <-. apply ret_inv in H as [-> ->]. simpl. rewrite Hc4.
  split.
  - intros u v Hu. destruct (decide (ESI_BASE +:+ path = u)) as [<-|Hne].
    + by rewrite Hc in Hu.
    + by rewrite lookup_insert_ne.
  - intros v [= <-]. by rewrite lookup_insert_eq.
Qed.

(** A call that reaches the network found no body in the cache. *)
Lemma get_json_request path s r s' :
  get_json env ua path s = (r, s') → trace s' ≠ trace s →
  esi_cache s !! (ESI_BASE +:+ path) = None.
Proof.
  intros H Hne. destruct (esi_cache s !! (ESI_BASE +:+ path)) as [v|] eqn:Hc; [|done].
  rewrite (get_json_cached _ _ _ Hc) in H. by injection H as _ <-.
Qed.
End Client.

End EsiFacts.

Module C9.
Import MonadFacts Observe EsiFacts Envs.

Lemma after_gets_cache env ua paths s u v :
  esi_cache s !! u = Some v → esi_cache (after_gets env ua paths s) !! u = Some v.
Proof.
  revert s. induction paths as [|p paths IH]; intros s Hu; [done|].
  simpl. apply IH.
  destruct (get_json env ua p s) as [r s'] eqn:H.
  by apply (get_json_cache env ua p s r s' H).
Qed.

(** C9. After a successful [get_json] for a path, a later [get_json] for the
    same path (whatever other paths were fetched in between) returns the same
    value and leaves the state as it is: it makes no request at all.  A call
    that does reach the network, the conditional request included, found no
    body in the cache. *)
Theorem cached_get_is_stable (env : Env) (ua path : string) (s s1 : State)
    (v : json) (paths : list string) :
  get_json env ua path s = (Ok v, s1) →
  (let s2 := after_gets env ua paths s1 in
   get_json env ua path s2 = (Ok v, s2))
  ∧ (∀ s0 r s', get_json env ua path s0 = (r, s') → trace s' ≠ trace s0 →
       esi_cache s0 !! (ESI_BASE +:+ path) = None).
Proof.
  intros H. split.
  - simpl. apply get_json_cached, after_gets_cache.
    by apply (get_json_cache env ua path s (Ok v) s1 H).
  - intros s0 r s'. apply get_json_request.
Qed.

Lemma cached_get_is_stable_witness :
  let v := JObj [("name", JStr "Jita")] in
  let s1 := snd (get_json esi_jita "EOU/0.1" jita_path init_state) in
  get_json esi_jita "EOU/0.1" jita_path init_state = (Ok v, s1)
  ∧ gets (trace s1) = [ESI_BASE +:+ jita_path]
  ∧ (let s2 := after_gets esi_jita "EOU/0.1" ["/universe/systems/1/"; jita_path] s1 in
     get_json esi_jita "EOU/0.1" jita_path s2 = (Ok v, s2)).
Proof.
  assert (get_json esi_jita "EOU/0.1" jita_path init_state
          = (Ok (JObj [("name", JStr "Jita")]),
             snd (get_json esi_jita "EOU/0.1" jita_path init_state))) as H
    by (vm_compute; reflexivity).
  split; [exact H|]. split; [vm_compute; reflexivity|].
  exact (proj1 (cached_get_is_stable esi_jita "EOU/0.1" jita_path init_state _ _
                  ["/universe/systems/1/"; jita_path] H)).
Defined.

End C9.

(** ** The two pollers *)

Module C6.
Import MonadFacts Observe Envs.

Lemma no_package_inv r :
  no_package r = true →
  ∃ resp j pkg, r = Ok resp ∧ status_code resp = 200 ∧ body resp = Some j
                ∧ get j "package" = Ok pkg ∧ truthy pkg = false.
Proof.
  destruct r as [resp|e]; simpl; [|done].
  intros [Hs Hb]%andb_true_iff. apply Z.eqb_eq in Hs.
  destruct (body resp) as [j|] eqn:Hj; [|done].
  destruct (get j "package") as [pkg|] eqn:Hg; [|done].
  apply negb_true_iff in Hb. exists resp, j, pkg. done.
Qed.

(** C6 (as the code has it). A poll answered without a package is no error
    for either poller.  The stand-alone listener goes on with the next turn
    of its loop; the poller of the orchestrator ends its loop there and
    returns the packages gathered so far. *)
Theorem no_package_poll (env : Env) (queue_id : string) (ttw : Z)
    (ua out_file : string) (n got : nat) (out : list json) (s : State) :
  let params := [("queueID", queue_id); ("ttw", pretty ttw)] in
  let a1 := http_get env (trace s) RqListener.REDISQ_URL params [] in
  let a2 := http_get env (trace s) REDISQ_BASE params [("User-Agent", ua)] in
  no_package a1 = true →
  no_package a2 = true →
  RqListener.poll_loop env queue_id ttw out_file (S n) got s
  = RqListener.poll_loop env queue_id ttw out_file n got
      (emit (EvGet RqListener.REDISQ_URL params [] a1) s)
  ∧ listen_loop env queue_id ttw ua (S n) out s
    = (Ok out, emit (EvGet REDISQ_BASE params [("User-Agent", ua)] a2) s).
Proof.
  intros params a1 a2 H1 H2.
  pose proof (no_package_inv _ H1) as (r1 & j1 & p1 & E1 & Hs1 & Hb1 & Hg1 & Ht1).
  pose proof (no_package_inv _ H2) as (r2 & j2 & p2 & E2 & Hs2 & Hb2 & Hg2 & Ht2).
  split.
  - simpl. unfold mbind at 1, M_bind at 1, try_except, fmap, M_fmap, requests_get.
    fold params. fold a1. rewrite E1. simpl. rewrite Hs1. simpl.
    unfold mbind, M_bind, lift, response_json. rewrite Hb1, Hg1, Ht1. simpl.
    reflexivity.
  - simpl. unfold mbind at 1, M_bind at 1, requests_get.
    fold params. fold a2. rewrite E2. rewrite Hs2. simpl.
    unfold mbind, M_bind, lift, raise_for_status, response_json.
    rewrite Hs2, Hb2, Hg2, Ht2. simpl. reflexivity.
Qed.

Lemma no_package_poll_witness :
  let params := [("queueID", "q"); ("ttw", "10")] in
  let a := Ok (resp 200 (Some (JObj []))) in
  RqListener.poll_loop queue_empty "q" 10 "out.ndjson" 3 0 init_state
  = RqListener.poll_loop queue_empty "q" 10 "out.ndjson" 2 0
      (emit (EvGet RqListener.REDISQ_URL params [] a) init_state)
  ∧ listen_loop queue_empty "q" 10 "EOU/0.1" 3 [] init_state
    = (Ok [], emit (EvGet REDISQ_BASE params [("User-Agent", "EOU/0.1")] a) init_state).
Proof.
  exact (no_package_poll queue_empty "q" 10 "EOU/0.1" "out.ndjson" 2 0 []
           init_state eq_refl eq_refl).
Defined.

(** The claim as it was stated fails for the poller of the orchestrator:
    with four turns allowed and an empty queue it polls once, not four
    times. *)
Lemma redisq_listen_stops_at_empty_poll :
  ∃ s', redisq_listen queue_empty "q" 10 "EOU/0.1" 4 init_state = (Ok [], s')
        ∧ length (gets (trace s')) = 1%nat
        ∧ length (gets (trace s')) ≠ 4%nat.
Proof. eexists. split; [reflexivity|]. split; [reflexivity|]. simpl. lia. Qed.

(** The stand-alone listener does poll four times there. *)
Example rq_listener_polls_on :
  ∃ s', RqListener.poll_loop queue_empty "q" 10 "out.ndjson" 4 0 init_state
        = (Ok 0%nat, s')
        ∧ length (gets (trace s')) = 4%nat.
Proof. eexists. split; reflexivity. Qed.

End C6.

(** ** The victim's ship class *)

Module ShipClassFacts.
Import MonadFacts Observe EsiFacts Rules.

Lemma bind_ok_inv {A B} (m : M A) (f : A → M B) s b s' :
  (m ≫= f) s = (Ok b, s') → ∃ a s1, m s = (Ok a, s1) ∧ f a s1 = (Ok b, s').
Proof.
  intros [(a & s1 & ? & ?)|(e & _ & [=])]%bind_inv. eauto.
Qed.

Lemma lift_ok_inv {A} (x : Res A) s a s' :
  lift x s = (Ok a, s') → x = Ok a ∧ s' = s.
Proof. by intros [-> ->]%lift_inv. Qed.

Lemma ret_ok_inv {A} (a b : A) s s' :
  (mret a : M A) s = (Ok b, s') → b = a ∧ s' = s.
Proof. by intros [[= ->] ->]%ret_inv. Qed.

Lemma res_bind_ok_inv {A B} (m : Res A) (f : A → Res B) b :
  m ≫= f = Ok b → ∃ a, m = Ok a ∧ f a = Ok b.
Proof. destruct m; [eauto|done]. Qed.

(** Under a normal return the loop over the labels finds the first label
    that decides. *)
Lemma cat_loop_ok lab r : cat_loop false lab = Ok r → r = first_decisive lab.
Proof.
  unfold first_decisive. induction lab as [|x lab IH]; simpl.
  - by intros [= <-].
  - intros (b & Hb & H)%res_bind_ok_inv.
    destruct x; try done. simpl in Hb. injection Hb as <-.
    simpl. destruct (startswith "cat:" s); [|by apply IH].
    destruct (cat_number s) as [n|]; [|by apply IH].
    rewrite andb_true_r in H.
    destruct ((6 <=? n) && (n <=? 7)); [by injection H as <-|].
    destruct (n <=? 5); [by injection H as <-|by apply IH].
Qed.

Lemma any_cat_false lab : any_cat lab = Ok false → first_decisive lab = None.
Proof.
  unfold first_decisive. induction lab as [|x lab IH]; simpl; [done|].
  intros (b & Hb & H)%res_bind_ok_inv.
  destruct x; try done. simpl in Hb. injection Hb as <-. simpl.
  destruct (startswith "cat:" s); [done|by apply IH].
Qed.

Section Lookups.
Context (env : Env) (ua : string).

(** A lookup that succeeded gives the same answer again, from the cache. *)
Lemma group_name_of_stable st s g s1 :
  group_name_of env ua st s = (Ok g, s1) →
  group_name_of env ua st s1 = (Ok g, s1).
Proof.
  unfold group_name_of, type_info, group_info. intros H.
  apply bind_ok_inv in H as (t & s0 & [Ht ->]%lift_ok_inv & H).
  apply bind_ok_inv in H as (ti & sa & Hti & H).
  apply bind_ok_inv in H as (gid & s0 & [Hgid ->]%lift_ok_inv & H).
  pose proof (get_json_cache env ua _ _ _ _ Hti) as [_ Hca].
  specialize (Hca ti eq_refl).
  destruct (truthy gid) eqn:Hg; simpl in H.
  - apply bind_ok_inv in H as (g0 & s0 & [Hg0 ->]%lift_ok_inv & H).
    apply bind_ok_inv in H as (gi & sb & Hgi & H).
    apply bind_ok_inv in H as (nm & s0 & [Hnm ->]%lift_ok_inv & H).
    apply bind_ok_inv in H as (gn & s0 & [Hgn ->]%lift_ok_inv & H).
    apply ret_ok_inv in H as [-> ->].
    pose proof (get_json_cache env ua _ _ _ _ Hgi) as [Hkeep Hcb].
    specialize (Hcb gi eq_refl). apply Hkeep in Hca.
    erewrite bind_ok; [|by rewrite Ht].
    erewrite bind_ok; [|by apply get_json_cached].
    erewrite bind_ok; [|by rewrite Hgid]. rewrite Hg. simpl.
    erewrite bind_ok; [|by rewrite Hg0].
    erewrite bind_ok; [|by apply get_json_cached].
    erewrite bind_ok; [|by rewrite Hnm].
    erewrite bind_ok; [|by rewrite Hgn]. done.
  - apply ret_ok_inv in H as [-> ->].
    erewrite bind_ok; [|by rewrite Ht].
    erewrite bind_ok; [|by apply get_json_cached].
    erewrite bind_ok; [|by rewrite Hgid]. by rewrite Hg.
Qed.
End Lookups.

Lemma first_decisive_class lab d :
  first_decisive lab = Some d → d = "capital" ∨ d = "subcapital".
Proof.
  unfold first_decisive. intros Hd.
  assert (d ∈ omap decisive lab) as Hin.
  { destruct (omap decisive lab); [done|]. injection Hd as ->. by left. }
  apply list_elem_of_omap in Hin as (x & _ & Hx).
  unfold decisive in Hx. repeat case_match; naive_solver.
Qed.

Lemma ship_class_rule_in members lab gname :
  ship_class_rule members lab gname ∈ ship_classes.
Proof.
  unfold ship_class_rule, ship_classes.
  repeat case_match; try (repeat first [by left|right]; fail).
  destruct (first_decisive lab) as [d|] eqn:Hd; simpl.
  - apply first_decisive_class in Hd as [-> | ->]; repeat first [by left|right].
  - repeat first [by left|right].
Qed.

End ShipClassFacts.

Module C4.
Import MonadFacts Observe EsiFacts Rules ShipClassFacts Envs.

(** C4 (as the code has it). With the label ["cat:8"] present the class is
    [structure] and no ESI lookup is made.  Whenever [victim_ship_class]
    returns, its class is the first matching rule among (a) [structure] on
    ["cat:8"], (b) [capsule], (c) [freighter], (d) [hauler], then the first
    label, in the order in which the label set is iterated, that reads
    ["cat:N"] with 6 <= N <= 7 ([capital]) or N <= 5 ([subcapital]), and
    (g) [subcapital] when no label decides; it is one of the six classes,
    and the two flags tell [freighter] and [capsule]. *)
Theorem victim_ship_class_first_match (env : Env) (ua : string)
    (km labels : json) (s : State) :
  (∀ members,
     iter (py_or labels (JArr [])) = Ok members →
     forallb hashable members = true →
     py_in (JStr "cat:8") members = true →
     victim_ship_class env ua km labels s = (Ok ("structure", false, false), s))
  ∧ (∀ cls f c s',
       victim_ship_class env ua km labels s = (Ok (cls, f, c), s') →
       ∃ members gname,
         iter (py_or labels (JArr [])) = Ok members
         ∧ (py_in (JStr "cat:8") members = false → victim_group env ua km s gname)
         ∧ cls = ship_class_rule members (set_order env members) gname
         ∧ f = String.eqb cls "freighter"
         ∧ c = String.eqb cls "capsule"
         ∧ cls ∈ ship_classes).
Proof.
  split.
  - intros members Hm Hh H8. unfold victim_ship_class, py_set.
    rewrite Hm. simpl. rewrite Hh. simpl.
    unfold mbind, M_bind, lift. simpl. by rewrite H8.
  - intros cls f c s' H. unfold victim_ship_class in H.
    apply bind_ok_inv in H as (lab & s0 & [Hlab ->]%lift_ok_inv & H).
    apply bind_ok_inv in H as (members & s0 & [Hm ->]%lift_ok_inv & H).
    assert (lab = set_order env members) as ->.
    { unfold py_set in Hlab. rewrite Hm in Hlab. simpl in Hlab.
      cbn in Hlab. destruct (forallb hashable members); congruence. }
    exists members.
    assert (∀ gname, cls = ship_class_rule members (set_order env members) gname →
       (f, c) = (String.eqb cls "freighter", String.eqb cls "capsule") →
       (py_in (JStr "cat:8") members = false → victim_group env ua km s gname) →
       ∃ gname, iter (py_or labels (JArr [])) = Ok members
         ∧ (py_in (JStr "cat:8") members = false → victim_group env ua km s gname)
         ∧ cls = ship_class_rule members (set_order env members) gname
         ∧ f = String.eqb cls "freighter"
         ∧ c = String.eqb cls "capsule"
         ∧ cls ∈ ship_classes) as Hfin.
    { intros gname Hcls [= -> ->] Hg. exists gname. repeat split; try done.
      rewrite Hcls. apply ship_class_rule_in. }
    destruct (py_in (JStr "cat:8") members) eqn:H8.
    { apply ret_ok_inv in H as [[= -> -> ->] ->].
      apply (Hfin None); [unfold ship_class_rule; by rewrite H8|done|done]. }
    apply bind_ok_inv in H as (victim & s0 & [Hv ->]%lift_ok_inv & H).
    apply bind_ok_inv in H as (st & s0 & [Hst ->]%lift_ok_inv & H).
    apply bind_ok_inv in H as (gname & s1 & Hg1 & H).
    assert (victim_group env ua km s gname) as Hvg.
    { exists victim, st. repeat split; try done.
      revert Hg1. destruct (truthy st); intros Hg1;
        [eauto|by apply ret_ok_inv in Hg1 as [-> _]]. }
    assert ((if truthy st then group_name_of env ua st else mret None) s1
            = (Ok gname, s1)) as Hg2.
    { revert Hg1. destruct (truthy st); intros Hg1.
      - by apply (group_name_of_stable env ua st s).
      - by apply ret_ok_inv in Hg1 as [-> ->]. }
    match goal with
    | |- ?G =>
        assert (∀ cls0 f0 c0, (cls0, f0, c0) = (cls, f, c) →
                  cls0 = ship_class_rule members (set_order env members) gname →
                  (f0, c0) = (String.eqb cls0 "freighter", String.eqb cls0 "capsule") →
                  G) as Hout
    end.
    { intros ? ? ? [= -> -> ->] ? ?. by apply (Hfin gname). }
    clear Hfin.
    destruct (group_in ["capsule"] gname) eqn:Hcap.
    { apply ret_ok_inv in H as [[= -> -> ->] ->].
      eapply Hout; [reflexivity| |reflexivity]. unfold ship_class_rule. by rewrite H8, Hcap. }
    destruct (py_in (JStr "cat:6") members
              || group_in ["freighter"; "jump freighter"] gname) eqn:Hfr.
    { apply ret_ok_inv in H as [[= -> -> ->] ->].
      eapply Hout; [reflexivity| |reflexivity]. unfold ship_class_rule. by rewrite H8, Hcap, Hfr. }
    rewrite (bind_ok _ _ _ _ _ Hg2) in H.
    destruct (group_in hauler_groups gname) eqn:Hh.
    { apply ret_ok_inv in H as [[= -> -> ->] ->].
      eapply Hout; [reflexivity| |reflexivity]. unfold ship_class_rule.
      by rewrite H8, Hcap, Hfr, Hh. }
    apply bind_ok_inv in H as (has_cat & s0 & [Hany ->]%lift_ok_inv & H).
    assert (∀ d, d = first_decisive (set_order env members) →
              default "subcapital" d
              = ship_class_rule members (set_order env members) gname) as Hdef.
    { intros d ->. unfold ship_class_rule. by rewrite H8, Hcap, Hfr, Hh. }
    apply orb_false_iff in Hfr as [H6 _]. rewrite H6 in H.
    destruct has_cat.
    + apply bind_ok_inv in H as (r & s0 & [Hloop ->]%lift_ok_inv & H).
      apply cat_loop_ok in Hloop. pose proof (Hdef _ Hloop) as Hcls.
      destruct r as [d|]; apply ret_ok_inv in H as [[= -> -> ->] ->].
      * symmetry in Hloop. apply first_decisive_class in Hloop as [-> | ->];
          (eapply Hout; [reflexivity|exact Hcls|reflexivity]).
      * eapply Hout; [reflexivity|exact Hcls|reflexivity].
    + apply any_cat_false in Hany. symmetry in Hany. apply Hdef in Hany.
      apply ret_ok_inv in H as [[= -> -> ->] ->].
      eapply Hout; [reflexivity|exact Hany|reflexivity].
Qed.
Lemma victim_ship_class_first_match_witness :
  victim_ship_class calm "EOU/0.1" (JObj []) (JArr [JStr "cat:8"]) init_state
  = (Ok ("structure", false, false), init_state).
Proof.
  exact (proj1 (victim_ship_class_first_match calm "EOU/0.1" (JObj [])
                  (JArr [JStr "cat:8"]) init_state)
           [JStr "cat:8"] eq_refl eq_refl eq_refl).
Defined.

(** The claim as it was stated fails: the labels hold ["cat:7"] and no
    ["cat:6"], yet the class is [subcapital], because the loop meets
    ["cat:3"] first. *)
Lemma cat7_with_cat3_is_subcapital :
  victim_ship_class calm "EOU/0.1" (JObj []) (JArr [JStr "cat:3"; JStr "cat:7"])
    init_state
  = (Ok ("subcapital", false, false), init_state)
  ∧ "subcapital" ≠ "capital".
Proof. split; [reflexivity|discriminate]. Qed.

(** The same two labels give [capital] when the set is iterated the other
    way round. *)
Example cat7_met_first_is_capital :
  victim_ship_class (with_set_order (@rev json) calm) "EOU/0.1" (JObj [])
    (JArr [JStr "cat:3"; JStr "cat:7"]) init_state
  = (Ok ("capital", false, false), init_state).
Proof. reflexivity. Qed.

End C4.


(** ** One pending row *)

Module RowFacts.
Import MonadFacts Observe EsiFacts Rules ShipClassFacts RowRules Pipeline.

Ltac inv_ok H :=
  repeat first
    [ apply ret_ok_inv in H as [? ?]
    | apply bind_ok_inv in H as (? & ? & ? & H)
    | match type of H with
      | (let '(_, _) := ?x in _) _ = _ => destruct x
      end ].

Lemma substring_length n m s : (String.length (String.substring n m s) ≤ m)%nat.
Proof.
  revert n m. induction s as [|c s IH]; intros n m.
  - destruct n, m; simpl; lia.
  - destruct n as [|n]; simpl.
    + destruct m as [|m]; simpl; [lia|]. specialize (IH 0%nat m). lia.
    + apply IH.
Qed.

Section Rows.
Context (env : Env) (cfg : Config) (rid : string).

Lemma discard_spec kill_id reason acc s r s' :
  discard env rid kill_id reason acc s = (r, s') →
  ∃ ts ts', r = Ok (with_discard rid ts ts' kill_id reason acc).
Proof.
  unfold discard, utc_now_iso, mbind, M_bind, mret, M_ret. simpl.
  intros [= <- <-]. eauto.
Qed.

Lemma enrich_spec row km kill_id kill_hash labels location_id acc s acc' s' :
  enrich env cfg rid row km kill_id kill_hash labels location_id acc s
  = (Ok acc', s') →
  ∃ e ts', acc' = with_enriched rid e ts' kill_id acc
           ∧ er_killmail_id e = kill_id.
Proof.
  unfold enrich. intros H. inv_ok H. subst. eexists _, _. split; reflexivity.
Qed.
Lemma filter_and_enrich_ok row kill_id kill_hash labels location_id acc s acc' s' :
  filter_and_enrich env cfg rid row kill_id kill_hash labels location_id acc s
  = (Ok acc', s') →
  ∃ km s1 pvp,
    killmail env (user_agent cfg) kill_id (py_str env kill_hash) s = (Ok km, s1)
    ∧ is_pvp km = Ok pvp
    ∧ match first_discard pvp (flag row "npc") (flag row "awox")
              (res_true (is_self_destruct km)) with
      | Some reason => ∃ ts ts', acc' = with_discard rid ts ts' kill_id reason acc
      | None => ∃ e ts', acc' = with_enriched rid e ts' kill_id acc
      end.
Proof.
  unfold filter_and_enrich. intros H.
  apply bind_ok_inv in H as (km & s1 & Hkm & H).
  apply bind_ok_inv in H as (pvp & s0 & [Hpvp ->]%lift_ok_inv & H).
  exists km, s1, pvp. split; [done|]. split; [done|].
  apply bind_ok_inv in H as (drop & s2 & Hdrop & H).
  assert (drop = negb pvp || flag row "npc" ∧ s2 = s1) as [-> ->].
  { destruct pvp; simpl in *.
    - apply bind_ok_inv in Hdrop as (npc & s0 & [Hn ->]%lift_ok_inv & Hdrop).
      apply ret_ok_inv in Hdrop as [-> ->]. unfold flag. by rewrite Hn.
    - by apply ret_ok_inv in Hdrop as [-> ->]. }
  unfold first_discard.
  destruct (negb pvp || flag row "npc").
  { apply discard_spec in H as (ts & ts' & [= ->]). eauto. }
  apply bind_ok_inv in H as (awox & s0 & [Ha ->]%lift_ok_inv & H).
  unfold flag at 1. rewrite Ha.
  destruct (truthy awox).
  { apply discard_spec in H as (ts & ts' & [= ->]). eauto. }
  apply bind_ok_inv in H as (sd & s0 & [Hsd ->]%lift_ok_inv & H).
  rewrite Hsd. simpl.
  destruct sd.
  { apply discard_spec in H as (ts & ts' & [= ->]). eauto. }
  apply enrich_spec in H as (e & ts' & -> & _). eauto.
Qed.

(** One turn of the loop over the pending rows: a failure inside the [try]
    costs one attempt [enrich]/fail, anything else is decided by the
    filters. *)
Lemma process_row_ok row acc s acc' s' :
  process_row env cfg rid row acc s = (Ok acc', s') →
  ∃ kill_id h,
    (getitem row "killmail_id" ≫= int) = Ok kill_id
    ∧ get row "killmail_hash" = Ok h
    ∧ ((∃ ex ts, acc' = with_failure rid ts kill_id (error_text env ex) acc)
       ∨ (∃ km s1 pvp,
            killmail env (user_agent cfg) kill_id
              (py_str env (py_or h (JStr ""))) s = (Ok km, s1)
            ∧ is_pvp km = Ok pvp
            ∧ match first_discard pvp (flag row "npc") (flag row "awox")
                      (res_true (is_self_destruct km)) with
              | Some reason =>
                  ∃ ts ts', acc' = with_discard rid ts ts' kill_id reason acc
              | None => ∃ e ts', acc' = with_enriched rid e ts' kill_id acc
              end)).
Proof.
  unfold process_row. intros H.
  apply bind_ok_inv in H as (k & s0 & [Hk ->]%lift_ok_inv & H).
  apply bind_ok_inv in H as (kill_id & s0 & [Hid ->]%lift_ok_inv & H).
  apply bind_ok_inv in H as (h & s0 & [Hh ->]%lift_ok_inv & H).
  apply bind_ok_inv in H as (l & s0 & [Hl ->]%lift_ok_inv & H).
  apply bind_ok_inv in H as (loc & s0 & [Hloc ->]%lift_ok_inv & H).
  exists kill_id, h. split; [by rewrite Hk|]. split; [done|].
  apply try_inv in H as [(a & H & [= <-])|(ex & s1 & _ & H)].
  - right. by apply filter_and_enrich_ok in H.
  - left. unfold utc_now_iso, mbind, M_bind, mret, M_ret in H.
    injection H as <- <-. eauto.
Qed.

(** A failed fetch of the killmail is recorded as [enrich]/fail. *)
Lemma process_row_fetch_failure row acc s kill_id h ex s1 :
  (getitem row "killmail_id" ≫= int) = Ok kill_id →
  get row "killmail_hash" = Ok h →
  killmail env (user_agent cfg) kill_id (py_str env (py_or h (JStr ""))) s
  = (Raise ex, s1) →
  process_row env cfg rid row acc s
  = (Ok (with_failure rid (clock_iso env (trace s1)) kill_id (error_text env ex) acc),
     emit (EvNowIso (clock_iso env (trace s1))) s1).
Proof.
  intros Hid Hh Hkm. unfold process_row.
  apply res_bind_ok_inv in Hid as (k & Hk & Hid).
  assert (∃ kvs, row = JObj kvs) as [kvs ->].
  { destruct row; try done. eauto. }
  erewrite bind_ok; [|by rewrite Hk].
  erewrite bind_ok; [|by rewrite Hid].
  erewrite bind_ok; [|by rewrite Hh].
  erewrite bind_ok; [|reflexivity].
  erewrite bind_ok; [|reflexivity].
  unfold try_except, filter_and_enrich.
  erewrite bind_raise; [|exact Hkm]. reflexivity.
Qed.

Lemma with_failure_wf ts kill_id ex acc :
  Forall attempt_wf (attempt_rows acc) →
  Forall attempt_wf (attempt_rows (with_failure rid ts kill_id (error_text env ex) acc)).
Proof.
  intros H. simpl. apply Forall_app. split; [done|].
  constructor; [|constructor]. unfold attempt_wf, error_text. simpl.
  repeat split; auto; try done. apply substring_length.
Qed.

Lemma with_discard_wf ts ts' kill_id reason acc :
  Forall attempt_wf (attempt_rows acc) →
  Forall attempt_wf (attempt_rows (with_discard rid ts ts' kill_id reason acc)).
Proof.
  intros H. simpl. apply Forall_app. split; [done|].
  constructor; [|constructor]. unfold attempt_wf. simpl.
  repeat split; auto; try done. lia.
Qed.

Lemma with_enriched_wf e ts' kill_id acc :
  Forall attempt_wf (attempt_rows acc) →
  Forall attempt_wf (attempt_rows (with_enriched rid e ts' kill_id acc)).
Proof.
  intros H. simpl. apply Forall_app. split; [done|].
  constructor; [|constructor]. unfold attempt_wf. simpl.
  repeat split; auto; try done. lia.
Qed.

Lemma process_row_wf row acc s acc' s' :
  process_row env cfg rid row acc s = (Ok acc', s') →
  Forall attempt_wf (attempt_rows acc) → Forall attempt_wf (attempt_rows acc').
Proof.
  intros (kid & h & _ & _ & [(ex & ts & ->)|(km & s1 & pvp & _ & _ & H)])%process_row_ok Hwf.
  - by apply with_failure_wf.
  - destruct (first_discard _ _ _ _).
    + destruct H as (ts & ts' & ->). by apply with_discard_wf.
    + destruct H as (e & ts' & ->). by apply with_enriched_wf.
Qed.

Lemma pending_loop_wf start pending acc s acc' s' :
  pending_loop env cfg rid start pending acc s = (Ok acc', s') →
  Forall attempt_wf (attempt_rows acc) → Forall attempt_wf (attempt_rows acc').
Proof.
  revert acc s. induction pending as [|row rest IH]; intros acc s H Hwf; simpl in H.
  - by apply ret_ok_inv in H as [-> _].
  - apply bind_ok_inv in H as (now & s1 & _ & H).
    destruct (over_budget cfg start now).
    + by apply ret_ok_inv in H as [-> _].
    + apply bind_ok_inv in H as (acc1 & s2 & Hrow & H).
      eapply IH; [exact H|]. by eapply process_row_wf.
Qed.
End Rows.
End RowFacts.


Module C5.
Import MonadFacts Observe Rules RowRules RowFacts Pipeline Envs Kills.



(** The three rules on concrete rows: npc and awox both set, awox alone,
    and a self-destruct. *)
Example npc_and_awox_row :
  (λ r, (map dr_reason (discarded_rows r), map at_stage (attempt_rows r),
         map at_ok (attempt_rows r)))
    <$> fst (process_row (esi_gives km_pvp) cfg0 "run1" (pending_row true true)
               empty_acc init_state)
  = Ok (["npc_only_or_not_pvp"], ["filter"], [true]).
Proof. vm_compute. reflexivity. Qed.

Example awox_row :
  (λ r, (map dr_reason (discarded_rows r), map at_stage (attempt_rows r),
         map at_ok (attempt_rows r)))
    <$> fst (process_row (esi_gives km_pvp) cfg0 "run1" (pending_row false true)
               empty_acc init_state)
  = Ok (["awox_friendly_fire"], ["filter"], [true]).
Proof. vm_compute. reflexivity. Qed.

Example self_destruct_row :
  (λ r, (map dr_reason (discarded_rows r), map at_stage (attempt_rows r),
         map at_ok (attempt_rows r)))
    <$> fst (process_row (esi_gives km_self) cfg0 "run1" (pending_row false false)
               empty_acc init_state)
  = Ok (["self_destruct"], ["filter"], [true]).
Proof. vm_compute. reflexivity. Qed.

End C5.

Module C10.
Import MonadFacts Observe Rules RowRules RowFacts Pipeline Envs Kills.

(** X4. Every attempt record that the loop over the pending rows stages
    (the rows that steps 5 and 6 then send to the Ledger and the store) has
    the stage [filter] or [enrich], never [fetch]; a record with
    [ok = False] has the stage [enrich], and its error text has at most
    500 characters.  A fetch of the killmail that fails is recorded as one
    such record, [enrich]/fail, with the truncated text. *)
Theorem attempts_are_filter_or_enrich (env : Env) (cfg : Config)
    (rid : string) :
  (∀ start pending s acc' s',
     pending_loop env cfg rid start pending empty_acc s = (Ok acc', s') →
     Forall attempt_wf (attempt_rows acc'))
  ∧ (∀ row acc s kill_id h ex s1,
       (getitem row "killmail_id" ≫= int) = Ok kill_id →
       get row "killmail_hash" = Ok h →
       killmail env (user_agent cfg) kill_id (py_str env (py_or h (JStr ""))) s
       = (Raise ex, s1) →
       process_row env cfg rid row acc s
       = (Ok (with_failure rid (clock_iso env (trace s1)) kill_id
                (String.substring 0 500 (exn_str env ex)) acc),
          emit (EvNowIso (clock_iso env (trace s1))) s1)).
Proof.
  split.
  - intros start pending s acc' s' H.
    eapply pending_loop_wf; [exact H|]. constructor.
  - intros row acc s kill_id h ex s1. apply process_row_fetch_failure.
Qed.

Lemma attempts_are_filter_or_enrich_witness :
  ∃ acc' s',
    pending_loop esi_down cfg0 "run1" 0%Q [pending_row false false] empty_acc
      init_state = (Ok acc', s')
    ∧ Forall attempt_wf (attempt_rows acc')
    ∧ map (λ a, (at_stage a, at_ok a, at_error a)) (attempt_rows acc')
      = [("enrich", false, "error")].
Proof.
  destruct (pending_loop esi_down cfg0 "run1" 0%Q [pending_row false false]
              empty_acc init_state) as [[acc'|e] s'] eqn:H;
    [|vm_compute in H; discriminate H].
  exists acc', s'. split; [reflexivity|].
  split; [exact (proj1 (attempts_are_filter_or_enrich esi_down cfg0 "run1")
                   _ _ _ _ _ H)|].
  vm_compute in H. injection H as <- _. reflexivity.
Defined.

End C10.


(** ** What a run adds to the trace *)

Module TraceFacts.
Import MonadFacts Observe EsiFacts ShipClassFacts Order Pipeline.

Section Emits.
Context (P : Event → Prop).

Lemma emits_nothing {A} (m : M A) :
  (∀ s r s', m s = (r, s') → trace s' = trace s) → emits P m.
Proof.
  intros H s r s' Hm. exists []. rewrite app_nil_r. split; [by eapply H|constructor].
Qed.

Lemma emits_one {A} (m : M A) :
  (∀ s r s', m s = (r, s') → ∃ e, trace s' = trace s ++ [e] ∧ P e) → emits P m.
Proof.
  intros H s r s' Hm. destruct (H _ _ _ Hm) as (e & Ht & He).
  exists [e]. split; [done|]. by constructor.
Qed.

Lemma emits_ret {A} (a : A) : emits P (mret a).
Proof. apply emits_nothing. by intros s r s' [_ ->]%ret_inv. Qed.

Lemma emits_lift {A} (x : Res A) : emits P (lift x).
Proof. apply emits_nothing. by intros s r s' [_ ->]%lift_inv. Qed.

Lemma emits_raise {A} e : emits P (raise e : M A).
Proof. apply emits_nothing. by intros s r s' [_ ->]%raise_inv. Qed.

Lemma emits_bind {A B} (m : M A) (f : A → M B) :
  emits P m → (∀ a, emits P (f a)) → emits P (m ≫= f).
Proof.
  intros Hm Hf s r s' [(a & s1 & H1 & H2)|(e & H1 & ->)]%bind_inv.
  - destruct (Hm _ _ _ H1) as (evs1 & Ht1 & HP1).
    destruct (Hf a _ _ _ H2) as (evs2 & Ht2 & HP2).
    exists (evs1 ++ evs2). rewrite Ht2, Ht1, app_assoc. split; [done|].
    by apply Forall_app.
  - by apply Hm in H1.
Qed.

Lemma emits_fmap {A B} (g : A → B) (m : M A) : emits P m → emits P (g <$> m).
Proof.
  intros Hm s r s'. unfold fmap, M_fmap.
  destruct (m s) as [[a|e] s1] eqn:H1; intros [= <- <-]; by apply Hm in H1.
Qed.

Lemma emits_try {A} (m : M A) h :
  emits P m → (∀ e, emits P (h e)) → emits P (try_except m h).
Proof.
  intros Hm Hh s r s' [(a & H1 & ->)|(e & s1 & H1 & H2)]%try_inv.
  - by apply Hm in H1.
  - destruct (Hm _ _ _ H1) as (evs1 & Ht1 & HP1).
    destruct (Hh e _ _ _ H2) as (evs2 & Ht2 & HP2).
    exists (evs1 ++ evs2). rewrite Ht2, Ht1, app_assoc. split; [done|].
    by apply Forall_app.
Qed.

Lemma emits_get env url params hdrs :
  (∀ r, P (EvGet url params hdrs r)) → emits P (requests_get env url params hdrs).
Proof. intros H. apply emits_one. intros s r s' [= <- <-]. eauto. Qed.

Lemma emits_sleep q : P (EvSleep q) → emits P (time_sleep q).
Proof. intros H. apply emits_one. intros s r s' [= <- <-]. eauto. Qed.

Lemma emits_time env : (∀ t, P (EvTime t)) → emits P (time_time env).
Proof. intros H. apply emits_one. intros s r s' [= <- <-]. eauto. Qed.

Lemma emits_now_iso env : (∀ t, P (EvNowIso t)) → emits P (utc_now_iso env).
Proof. intros H. apply emits_one. intros s r s' [= <- <-]. eauto. Qed.

Lemma emits_sh env cmd : (∀ r, P (EvSh cmd r)) → emits P (sh env cmd).
Proof. intros H. apply emits_one. intros s r s' [= <- <-]. eauto. Qed.

Lemma emits_print msg : P (EvPrint msg) → emits P (print msg).
Proof. intros H. apply emits_one. intros s r s' [= <- <-]. eauto. Qed.

Lemma emits_get_cache : emits P get_cache.
Proof. apply emits_nothing. by intros s r s' [= <- <-]. Qed.

Lemma emits_get_etag : emits P get_etag.
Proof. apply emits_nothing. by intros s r s' [= <- <-]. Qed.

Lemma emits_set_cache url d : emits P (set_cache url d).
Proof. apply emits_nothing. by intros s r s' [= <- <-]. Qed.

Lemma emits_set_etag url t : emits P (set_etag url t).
Proof. apply emits_nothing. by intros s r s' [= <- <-]. Qed.

Lemma emits_new_esi : emits P new_esi.
Proof. apply emits_nothing. by intros s r s' [= <- <-]. Qed.
End Emits.

Lemma emits_weaken {A} (P Q : Event → Prop) (m : M A) :
  (∀ e, P e → Q e) → emits P m → emits Q m.
Proof.
  intros HPQ Hm s r s' H. destruct (Hm _ _ _ H) as (evs & Ht & Hall).
  exists evs. split; [done|]. by eapply Forall_impl.
Qed.

Lemma reads_only_quiet e : reads_only e → quiet e.
Proof. by destruct e as [| | |[]| | | | | |]. Qed.

(** One step of a proof that a program is quiet; the program is taken apart
    by its syntax only. *)
Ltac emits_step :=
  lazymatch goal with
  | |- emits _ (mret _) => apply emits_ret
  | |- emits _ (lift _) => apply emits_lift
  | |- emits _ (raise _) => apply emits_raise
  | |- emits _ get_cache => apply emits_get_cache
  | |- emits _ get_etag => apply emits_get_etag
  | |- emits _ (set_cache _ _) => apply emits_set_cache
  | |- emits _ (set_etag _ _) => apply emits_set_etag
  | |- emits _ new_esi => apply emits_new_esi
  | |- emits _ (requests_get _ _ _ _) => apply emits_get; intros; exact I
  | |- emits _ (time_sleep _) => apply emits_sleep; exact I
  | |- emits _ (time_time _) => apply emits_time; intros; exact I
  | |- emits _ (utc_now_iso _) => apply emits_now_iso; intros; exact I
  | |- emits _ (print _) => apply emits_print; exact I
  | |- emits _ (sh _ _) => apply emits_sh; intros; exact I
  | |- emits _ (fmap _ _) => apply emits_fmap
  | |- emits _ (mbind _ _) => apply emits_bind; [|intros]
  | |- emits _ (try_except _ _) => apply emits_try; [|intros]
  | |- emits _ (if ?b then _ else _) => destruct b
  | |- emits _ (match ?x with _ => _ end) => destruct x
  | |- emits _ _ =>
      match goal with
      | H : context [emits] |- _ => simple apply H
      end
  end.

Ltac emits := repeat emits_step.

Section Quiet.
Context (env : Env) (ua : string).

Lemma reads_get_json path : emits reads_only (get_json env ua path).
Proof. unfold get_json, respect_error_limit. emits. Qed.

Lemma quiet_get_json path : emits quiet (get_json env ua path).
Proof. eapply emits_weaken; [apply reads_only_quiet|apply reads_get_json]. Qed.

Lemma reads_system_name id : emits reads_only (system_name env ua id).
Proof. unfold system_name. pose proof reads_get_json. emits. Qed.

Lemma quiet_system_name id : emits quiet (system_name env ua id).
Proof. eapply emits_weaken; [apply reads_only_quiet|apply reads_system_name]. Qed.

Lemma reads_corp_name id : emits reads_only (corp_name env ua id).
Proof. unfold corp_name. pose proof reads_get_json. emits. Qed.

Lemma quiet_corp_name id : emits quiet (corp_name env ua id).
Proof. eapply emits_weaken; [apply reads_only_quiet|apply reads_corp_name]. Qed.

Lemma reads_group_name_of st : emits reads_only (group_name_of env ua st).
Proof.
  unfold group_name_of, type_info, group_info. pose proof reads_get_json. emits.
Qed.

Lemma quiet_group_name_of st : emits quiet (group_name_of env ua st).
Proof. eapply emits_weaken; [apply reads_only_quiet|apply reads_group_name_of]. Qed.

Lemma reads_victim_ship_class km labels : emits reads_only (victim_ship_class env ua km labels).
Proof. unfold victim_ship_class. pose proof reads_group_name_of. emits. Qed.

Lemma quiet_victim_ship_class km labels : emits quiet (victim_ship_class env ua km labels).
Proof. eapply emits_weaken; [apply reads_only_quiet|apply reads_victim_ship_class]. Qed.

Lemma reads_stargate_route loc : emits reads_only (stargate_route env ua loc).
Proof.
  unfold stargate_route, stargate.
  pose proof reads_get_json. pose proof reads_system_name. emits.
Qed.

Lemma quiet_stargate_route loc : emits quiet (stargate_route env ua loc).
Proof. eapply emits_weaken; [apply reads_only_quiet|apply reads_stargate_route]. Qed.

Lemma reads_smartbomb_flag km : emits reads_only (smartbomb_flag env ua km).
Proof.
  unfold smartbomb_flag. emits.
  match goal with |- emits _ (smartbomb_loop _ _ ?l) => induction l as [|x l IH] end;
    simpl; [emits|].
  unfold smartbomb_of, type_info, group_info. pose proof reads_get_json. emits.
Qed.

Lemma quiet_smartbomb_flag km : emits quiet (smartbomb_flag env ua km).
Proof. eapply emits_weaken; [apply reads_only_quiet|apply reads_smartbomb_flag]. Qed.

Lemma reads_resolve_names chosen names : emits reads_only (resolve_names env ua chosen names).
Proof.
  revert names. induction chosen as [|c chosen IH]; intros names; simpl.
  - emits.
  - pose proof reads_corp_name. emits.
Qed.

Lemma quiet_resolve_names chosen names : emits quiet (resolve_names env ua chosen names).
Proof. eapply emits_weaken; [apply reads_only_quiet|apply reads_resolve_names]. Qed.

Lemma reads_attacker_corp_names km : emits reads_only (attacker_corp_names env ua km).
Proof. unfold attacker_corp_names. pose proof reads_resolve_names. emits. Qed.

Lemma quiet_attacker_corp_names km : emits quiet (attacker_corp_names env ua km).
Proof. eapply emits_weaken; [apply reads_only_quiet|apply reads_attacker_corp_names]. Qed.
End Quiet.

Section QuietTick.
Context (env : Env) (cfg : Config) (rid : string) (start : Q).

Lemma reads_process_row row acc : emits reads_only (process_row env cfg rid row acc).
Proof.
  unfold process_row, filter_and_enrich, discard, enrich, killmail.
  pose proof (reads_get_json env (user_agent cfg)).
  pose proof (reads_system_name env (user_agent cfg)).
  pose proof (reads_stargate_route env (user_agent cfg)).
  pose proof (reads_victim_ship_class env (user_agent cfg)).
  pose proof (reads_attacker_corp_names env (user_agent cfg)).
  pose proof (reads_smartbomb_flag env (user_agent cfg)).
  emits.
Qed.

Lemma quiet_process_row row acc : emits quiet (process_row env cfg rid row acc).
Proof. eapply emits_weaken; [apply reads_only_quiet|apply reads_process_row]. Qed.

Lemma reads_pending_loop pending acc : emits reads_only (pending_loop env cfg rid start pending acc).
Proof.
  revert acc. induction pending as [|row rest IH]; intros acc; simpl.
  - emits.
  - pose proof reads_process_row. emits.
Qed.

Lemma quiet_pending_loop pending acc : emits quiet (pending_loop env cfg rid start pending acc).
Proof. eapply emits_weaken; [apply reads_only_quiet|apply reads_pending_loop]. Qed.

Lemma reads_listen_loop q ttw n out : emits reads_only (listen_loop env q ttw (user_agent cfg) n out).
Proof.
  revert out. induction n as [|n IH]; intros out; simpl.
  - emits.
  - emits.
Qed.

Lemma quiet_listen_loop q ttw n out : emits quiet (listen_loop env q ttw (user_agent cfg) n out).
Proof. eapply emits_weaken; [apply reads_only_quiet|apply reads_listen_loop]. Qed.

Lemma reads_stage_raw pkgs raw_rows : emits reads_only (stage_raw env rid pkgs raw_rows).
Proof.
  revert raw_rows. induction pkgs as [|pkg rest IH]; intros raw_rows; simpl.
  - emits.
  - emits.
Qed.

Lemma quiet_stage_raw pkgs raw_rows : emits quiet (stage_raw env rid pkgs raw_rows).
Proof. eapply emits_weaken; [apply reads_only_quiet|apply reads_stage_raw]. Qed.

Lemma reads_choose_pending n : emits reads_only (choose_pending env n).
Proof. unfold choose_pending, bq_query_json. emits. Qed.

Lemma quiet_choose_pending n : emits quiet (choose_pending env n).
Proof. eapply emits_weaken; [apply reads_only_quiet|apply reads_choose_pending]. Qed.

Lemma reads_ensure_bq_objects : emits reads_only (ensure_bq_objects env).
Proof.
  unfold ensure_bq_objects, ensure_table, bq_exists, bq_mk_table, bq_query. emits.
Qed.

Lemma quiet_ensure_bq_objects : emits quiet (ensure_bq_objects env).
Proof. eapply emits_weaken; [apply reads_only_quiet|apply reads_ensure_bq_objects]. Qed.

Lemma reads_maintenance : emits reads_only (maintenance env).
Proof. unfold maintenance, bq_query. emits. Qed.

Lemma quiet_maintenance : emits quiet (maintenance env).
Proof. eapply emits_weaken; [apply reads_only_quiet|apply reads_maintenance]. Qed.
End QuietTick.
End TraceFacts.


(** ** Ledger before store *)

Module OrderFacts.
Import MonadFacts Observe LedgerFacts Order Pipeline TraceFacts.

Lemma quiet_no_load e : quiet e → no_load e.
Proof. by destruct e as [| | |[]| | | | | |]. Qed.

Lemma quiet_no_post e : quiet e → no_post e.
Proof. by destruct e. Qed.

Lemma ledger_event_no_load c stream rid lines e :
  ledger_event c stream rid lines e → no_load e.
Proof. by intros [[q ->]|[r ->]]. Qed.

Section Order.
Context (c : LedgerClient) (rid : string).

Lemma ledger_first_nil : ledger_first c rid [].
Proof. intros i ? ? ? ? ? H. by rewrite lookup_nil in H. Qed.

Lemma ledger_first_app evs more :
  ledger_first c rid evs → Forall no_load more → ledger_first c rid (evs ++ more).
Proof.
  intros Hf Hq i table path schema app r Hi.
  apply lookup_app_Some in Hi as [Hi|[_ Hi]].
  - destruct (Hf _ _ _ _ _ _ Hi) as (j & k & lines & e & Hjk & Hj & Ha & Hk).
    exists j, k, lines, e. repeat split; try done; try lia.
    + by apply lookup_app_l_Some.
    + by apply lookup_app_l_Some.
  - apply list_elem_of_lookup_2 in Hi.
    by apply (proj1 (Forall_forall _ _) Hq) in Hi.
Qed.

(** The two events of a store load, after an accepted append of the same
    lines. *)
Lemma ledger_first_load evs table path schema app lines res :
  ledger_first c rid evs →
  Exists (appended c rid (stream_of table) lines) evs →
  ledger_first c rid
    (evs ++ [EvWrite path (file_lines lines) (Ok tt);
             EvSh (BqLoad table path schema app) res]).
Proof.
  intros Hf Hex i table' path' schema' app' r Hi.
  apply lookup_app_Some in Hi as [Hi|[Hlen Hi]].
  - destruct (Hf _ _ _ _ _ _ Hi) as (j & k & lines' & e & Hjk & Hj & Ha & Hk).
    exists j, k, lines', e. repeat split; try done; try lia.
    + by apply lookup_app_l_Some.
    + by apply lookup_app_l_Some.
  - destruct (i - length evs)%nat as [|[|n]] eqn:Hn; simpl in Hi; [done| |done].
    injection Hi as <- <- <- <- <-.
    apply Exists_exists in Hex as (e & [j Hj]%list_elem_of_lookup & Ha).
    pose proof (lookup_lt_Some _ _ _ Hj) as Hlt.
    exists j, (length evs), lines, e. repeat split; try done; try lia.
    + by apply lookup_app_l_Some.
    + rewrite lookup_app_r by lia. by rewrite Nat.sub_diag.
Qed.

Lemma posted_to_inj stream stream' lines r :
  posted_to c rid stream (EvPost (ledger_url c) (payload c stream' rid lines) r) →
  stream = stream'.
Proof. intros (l & r' & H). unfold payload in H. by injection H as <-. Qed.

Lemma clean_app_no_post stream evs more :
  clean c rid stream evs → Forall no_post more → clean c rid stream (evs ++ more).
Proof.
  intros Hc Hq [H|H]%Exists_app.
  - apply Exists_app. left. by apply Hc.
  - apply Exists_exists in H as (e & He & (l & r & ->)).
    by apply (proj1 (Forall_forall _ _) Hq) in He.
Qed.

(** The events of an append that returned normally keep every stream
    clean. *)
Lemma clean_app_ledger stream0 lines stream evs more :
  clean c rid stream evs →
  Forall (ledger_event c stream0 rid lines) more →
  (more = [] ∨ Exists (appended c rid stream0 lines) more) →
  clean c rid stream (evs ++ more).
Proof.
  intros Hc Hall Hok [H|H]%Exists_app; apply Exists_app.
  - left. by apply Hc.
  - right. destruct Hok as [->|Hok]; [by apply Exists_nil in H|].
    apply Exists_exists in H as (e & He & Hp).
    apply (proj1 (Forall_forall _ _) Hall) in He as Hle.
    destruct Hle as [[q ->]|[r ->]]; [by destruct Hp as (? & ? & ?)|].
    apply posted_to_inj in Hp as ->.
    eapply Exists_impl; [exact Hok|]. intros e' Ha. by exists lines.
Qed.

Lemma accepted_post_exists stream lines more :
  Forall (ledger_event c stream rid lines) more →
  existsb accepted (post_results more) = true →
  Exists (appended c rid stream lines) more.
Proof.
  induction more as [|e more IH]; intros Hall Hex; [done|].
  apply Forall_cons in Hall as [He Hall].
  destruct He as [[q ->]|[r ->]]; simpl in Hex.
  - apply Exists_cons. right. by apply IH.
  - apply orb_true_iff in Hex as [Hacc|Hex].
    + apply Exists_cons. left. by exists r.
    + apply Exists_cons. right. by apply IH.
Qed.
End Order.

Section Phases.
Context (env : Env) (c : LedgerClient) (rid : string).

#[local] Abbreviation kept := (kept_by c rid).
#[local] Abbreviation run_ok := (run_in_order c rid).

Lemma append_phase stream lines s r s' :
  append env c stream rid lines s = (r, s') →
  ∃ more, trace s' = trace s ++ more
    ∧ Forall (ledger_event c stream rid lines) more
    ∧ (is_ok r = true → Exists (appended c rid stream lines) more).
Proof.
  unfold append. intros H.
  apply append_loop_spec in H as (more & Ht & _ & _ & Hall & _ & _ & Hok & _).
  exists more. repeat split; try done.
  intros Hr. apply accepted_post_exists; [done|]. by rewrite <- Hok.
Qed.

Lemma ledger_batch_phase {A} (to_dict : A → json) rows stream s r s' :
  ledger_batch env rid c to_dict rows stream s = (r, s') →
  ∃ more, trace s' = trace s ++ more
    ∧ Forall (ledger_event c stream rid (dump_lines env to_dict rows)) more
    ∧ (is_ok r = true →
       more = [] ∨ Exists (appended c rid stream (dump_lines env to_dict rows)) more)
    ∧ (is_ok r = true → rows ≠ [] →
       Exists (appended c rid stream (dump_lines env to_dict rows)) more).
Proof.
  unfold ledger_batch. destruct rows as [|x rows].
  - intros [-> ->]%ret_inv. exists []. rewrite app_nil_r.
    repeat split; auto. by intros _ ?.
  - intros (more & Ht & Hall & Hok)%append_phase.
    exists more. repeat split; auto.
Qed.

Lemma store_load_phase {A} (to_dict : A → json) rows table path s r s' :
  store_load env to_dict rows table path s = (r, s') →
  ∃ more, trace s' = trace s ++ more
    ∧ store_events table (dump_lines env to_dict rows) more.
Proof.
  unfold store_load, write_file, bq_load_ndjson, sh, mbind, M_bind.
  set (lines := dump_lines env to_dict rows).
  destruct (fs_write env (trace s) path _) as [[]|e] eqn:Hw.
  - simpl. set (res := run_sh env _ _).
    intros H. clearbody res.
    destruct res; unfold mret, M_ret in H; injection H as <- <-;
      (eexists; split; [simpl; by rewrite <- app_assoc|right; eauto]).
  - intros [= <- <-]. eexists. split; [reflexivity|]. left. eauto.
Qed.

Lemma store_events_no_post table lines more :
  store_events table lines more → Forall no_post more.
Proof.
  intros [(? & ? & ->)|(? & ? & ? & ->)]; repeat constructor.
Qed.

Lemma ledger_first_store evs table lines more :
  ledger_first c rid evs →
  Exists (appended c rid (stream_of table) lines) evs →
  store_events table lines more →
  ledger_first c rid (evs ++ more).
Proof.
  intros Hf Hex [(? & ? & ->)|(? & ? & ? & ->)].
  - apply ledger_first_app; [done|]. by repeat constructor.
  - by apply ledger_first_load.
Qed.
Lemma grows_Exists P evs evs' : grows evs evs' → Exists P evs → Exists P evs'.
Proof. intros [more ->] H. apply Exists_app. by left. Qed.

Lemma grows_trans a b d : grows a b → grows b d → grows a d.
Proof. intros [m ->] [m' ->]. exists (m ++ m'). by rewrite app_assoc. Qed.

Lemma kept_nil : kept [].
Proof. split; [apply ledger_first_nil|]. by intros stream H%Exists_nil. Qed.

Lemma quiet_step {A} (m : M A) t0 evs s r s' :
  emits quiet m → trace s = t0 ++ evs → kept evs → m s = (r, s') →
  ∃ evs', trace s' = t0 ++ evs' ∧ kept evs' ∧ grows evs evs'.
Proof.
  intros Hq Ht [Hf Hc] Hm. destruct (Hq _ _ _ Hm) as (more & Ht' & Hall).
  exists (evs ++ more). rewrite Ht', Ht, app_assoc.
  split; [done|]. split; [split|by exists more].
  - apply ledger_first_app; [done|].
    eapply Forall_impl; [exact Hall|]. apply quiet_no_load.
  - intros stream. apply clean_app_no_post; [done|].
    eapply Forall_impl; [exact Hall|]. apply quiet_no_post.
Qed.

Lemma ledger_step {A} (to_dict : A → json) rows stream t0 evs s r s' :
  trace s = t0 ++ evs → kept evs →
  ledger_batch env rid c to_dict rows stream s = (r, s') →
  ∃ evs', trace s' = t0 ++ evs' ∧ ledger_first c rid evs' ∧ grows evs evs'
    ∧ (is_ok r = true →
       kept evs'
       ∧ (rows ≠ [] →
          Exists (appended c rid stream (dump_lines env to_dict rows)) evs')).
Proof.
  intros Ht [Hf Hc] (more & Ht' & Hall & Hok & Hne)%ledger_batch_phase.
  exists (evs ++ more). rewrite Ht', Ht, app_assoc.
  assert (ledger_first c rid (evs ++ more)) as Hf'.
  { apply ledger_first_app; [done|].
    eapply Forall_impl; [exact Hall|]. apply ledger_event_no_load. }
  split; [done|]. split; [done|]. split; [by exists more|].
  intros Hr. split; [split; [done|]|].
  - intros stream'. eapply clean_app_ledger; eauto.
  - intros Hrows. apply Exists_app. right. by apply Hne.
Qed.

Lemma store_step {A} (to_dict : A → json) rows table file t0 evs s r s' :
  trace s = t0 ++ evs → kept evs →
  (rows ≠ [] →
   Exists (appended c rid (stream_of table) (dump_lines env to_dict rows)) evs) →
  store_batch env rid to_dict rows table file s = (r, s') →
  ∃ evs', trace s' = t0 ++ evs' ∧ kept evs' ∧ grows evs evs'.
Proof.
  intros Ht [Hf Hc] Hback. unfold store_batch. destruct rows as [|x rows].
  - intros [-> ->]%ret_inv. exists evs. split; [done|]. split; [done|].
    exists []. by rewrite app_nil_r.
  - intros (more & Ht' & Hev)%store_load_phase.
    exists (evs ++ more). rewrite Ht', Ht, app_assoc.
    split; [done|]. split; [split|by exists more].
    + eapply ledger_first_store; eauto.
    + intros stream. apply clean_app_no_post; [done|].
      by eapply store_events_no_post.
Qed.

Lemma raw_ledger_step raw_rows t0 evs s r s' :
  trace s = t0 ++ evs → kept evs →
  ledger_raw env rid (Some c) raw_rows s = (r, s') →
  ∃ evs', trace s' = t0 ++ evs' ∧ ledger_first c rid evs' ∧ grows evs evs'
    ∧ (is_ok r = true →
       kept evs'
       ∧ (raw_rows ≠ [] →
          Exists (appended c rid "redisq_raw" (dump_lines env raw_dict raw_rows)) evs')).
Proof.
  intros Ht Hk H. apply (ledger_step raw_dict raw_rows "redisq_raw" t0 evs s r s'); done.
Qed.

Lemma raw_store_step raw_rows t0 evs s r s' :
  trace s = t0 ++ evs → kept evs →
  (raw_rows ≠ [] →
   Exists (appended c rid "redisq_raw" (dump_lines env raw_dict raw_rows)) evs) →
  store_raw env rid raw_rows s = (r, s') →
  ∃ evs', trace s' = t0 ++ evs' ∧ kept evs' ∧ grows evs evs'.
Proof.
  intros Ht Hk Hback H.
  destruct raw_rows as [|x rows].
  - apply ret_inv in H as [-> ->]. exists evs. split; [done|]. split; [done|].
    exists []. by rewrite app_nil_r.
  - unfold store_raw in H. apply store_load_phase in H as (more & Ht' & Hev).
    destruct Hk as [Hf Hc].
    exists (evs ++ more). rewrite Ht', Ht, app_assoc.
    split; [done|]. split; [split|by exists more].
    + apply (ledger_first_store evs "redisq_raw_log"
               (dump_lines env raw_dict (x :: rows)) more); [done| |done].
      by apply Hback.
    + intros stream. apply clean_app_no_post; [done|].
      by eapply store_events_no_post.
Qed.

Lemma run_ok_raise {A} t0 evs e s' :
  trace s' = t0 ++ evs → ledger_first c rid evs → run_ok t0 (Raise e : Res A) s'.
Proof. intros Ht Hf. exists evs. by repeat split. Qed.

Lemma run_ok_kept {A} t0 evs (r : Res A) s' :
  trace s' = t0 ++ evs → kept evs → run_ok t0 r s'.
Proof. intros Ht [Hf Hc]. exists evs. by repeat split. Qed.

Lemma results_phase acc t0 evs s r s' :
  trace s = t0 ++ evs → kept evs →
  (ledger_results env rid (Some c) acc ≫= λ _, store_results env rid acc) s = (r, s') →
  ∃ evs', trace s' = t0 ++ evs' ∧ ledger_first c rid evs' ∧ grows evs evs'
          ∧ (is_ok r = true → kept evs').
Proof.
  intros Ht Hk H. unfold ledger_results, store_results in H.
  apply bind_inv in H as [([] & s3 & H123 & H)|(e & H123 & ->)].
  - apply bind_inv in H123 as [([] & s1 & H1 & H23)|(e & H1 & [=])].
    apply bind_inv in H23 as [([] & s2 & H2 & H3)|(e & H2 & [=])].
    destruct (ledger_step _ _ _ _ _ _ _ _ Ht Hk H1) as (e1 & Ht1 & _ & Hg1 & Hok1).
    destruct (Hok1 eq_refl) as [Hk1 Hb1].
    destruct (ledger_step _ _ _ _ _ _ _ _ Ht1 Hk1 H2) as (e2 & Ht2 & _ & Hg2 & Hok2).
    destruct (Hok2 eq_refl) as [Hk2 Hb2].
    destruct (ledger_step _ _ _ _ _ _ _ _ Ht2 Hk2 H3) as (e3 & Ht3 & _ & Hg3 & Hok3).
    destruct (Hok3 eq_refl) as [Hk3 Hb3].
    assert (attempt_rows acc ≠ [] →
            Exists (appended c rid (stream_of "enrich_attempts_log")
                      (dump_lines env attempt_dict (attempt_rows acc))) e3) as Ha.
    { intros Hne. eapply grows_Exists; [exact Hg3|].
      eapply grows_Exists; [exact Hg2|]. by apply Hb1. }
    assert (enriched_rows acc ≠ [] →
            Exists (appended c rid (stream_of "kills_enriched_log")
                      (dump_lines env enriched_dict (enriched_rows acc))) e3) as He.
    { intros Hne. eapply grows_Exists; [exact Hg3|]. by apply Hb2. }
    assert (discarded_rows acc ≠ [] →
            Exists (appended c rid (stream_of "kills_discarded_log")
                      (dump_lines env discarded_dict (discarded_rows acc))) e3) as Hd.
    { intros Hne. by apply Hb3. }
    assert (grows evs e3) as Hg by eauto using grows_trans.
    apply bind_inv in H as [([] & s4 & H4 & H)|(e & H4 & ->)].
    + destruct (store_step _ _ _ _ _ _ _ _ _ Ht3 Hk3 Ha H4) as (e4 & Ht4 & Hk4 & Hg4).
      apply bind_inv in H as [([] & s5 & H5 & H)|(e & H5 & ->)].
      * assert (enriched_rows acc ≠ [] →
            Exists (appended c rid (stream_of "kills_enriched_log")
                      (dump_lines env enriched_dict (enriched_rows acc))) e4) as He4.
        { intros Hne. eapply grows_Exists; [exact Hg4|]. by apply He. }
        destruct (store_step _ _ _ _ _ _ _ _ _ Ht4 Hk4 He4 H5) as (e5 & Ht5 & Hk5 & Hg5).
        assert (discarded_rows acc ≠ [] →
            Exists (appended c rid (stream_of "kills_discarded_log")
                      (dump_lines env discarded_dict (discarded_rows acc))) e5) as Hd5.
        { intros Hne. eapply grows_Exists; [exact Hg5|].
          eapply grows_Exists; [exact Hg4|]. by apply Hd. }
        destruct (store_step _ _ _ _ _ _ _ _ _ Ht5 Hk5 Hd5 H) as (e6 & Ht6 & Hk6 & Hg6).
        exists e6. split; [done|]. split; [apply Hk6|]. split; [eauto using grows_trans|done].
      * assert (enriched_rows acc ≠ [] →
            Exists (appended c rid (stream_of "kills_enriched_log")
                      (dump_lines env enriched_dict (enriched_rows acc))) e4) as He4.
        { intros Hne. eapply grows_Exists; [exact Hg4|]. by apply He. }
        destruct (store_step _ _ _ _ _ _ _ _ _ Ht4 Hk4 He4 H5) as (e5 & Ht5 & Hk5 & Hg5).
        exists e5. split; [done|]. split; [apply Hk5|]. split; [eauto using grows_trans|done].
    + destruct (store_step _ _ _ _ _ _ _ _ _ Ht3 Hk3 Ha H4) as (e4 & Ht4 & Hk4 & Hg4).
      exists e4. split; [done|]. split; [apply Hk4|]. split; [eauto using grows_trans|done].
  - apply bind_inv in H123 as [([] & s1 & H1 & H23)|(e' & H1 & [= ->])].
    + destruct (ledger_step _ _ _ _ _ _ _ _ Ht Hk H1) as (e1 & Ht1 & _ & Hg1 & Hok1).
      destruct (Hok1 eq_refl) as [Hk1 Hb1].
      apply bind_inv in H23 as [([] & s2 & H2 & H3)|(e' & H2 & [= ->])].
      * destruct (ledger_step _ _ _ _ _ _ _ _ Ht1 Hk1 H2) as (e2 & Ht2 & _ & Hg2 & Hok2).
        destruct (Hok2 eq_refl) as [Hk2 Hb2].
        destruct (ledger_step _ _ _ _ _ _ _ _ Ht2 Hk2 H3) as (e3 & Ht3 & Hf3 & Hg3 & _).
        exists e3. split; [done|]. split; [done|]. split; [eauto using grows_trans|done].
      * destruct (ledger_step _ _ _ _ _ _ _ _ Ht1 Hk1 H2) as (e2 & Ht2 & Hf2 & Hg2 & _).
        exists e2. split; [done|]. split; [done|]. split; [eauto using grows_trans|done].
    + destruct (ledger_step _ _ _ _ _ _ _ _ Ht Hk H1) as (e1 & Ht1 & Hf1 & Hg1 & _).
      exists e1. split; [done|]. split; [done|]. split; [eauto using grows_trans|done].
Qed.
Lemma bind_assoc_run {A B C} (m : M A) (g : A → M B) (f : B → M C) s :
  (m ≫= λ x, g x ≫= f) s = ((m ≫= g) ≫= f) s.
Proof. unfold mbind, M_bind. by destruct (m s) as [[a|e] s1]. Qed.

(** A quiet step inside a run: either it raised, and the run is in order
    up to there, or the run goes on with the invariant kept. *)
Lemma quiet_bind {A B} (m : M A) (f : A → M B) t0 evs s r s' :
  emits quiet m → trace s = t0 ++ evs → kept evs →
  (m ≫= f) s = (r, s') →
  run_ok t0 r s'
  ∨ ∃ a s1 evs1, trace s1 = t0 ++ evs1 ∧ kept evs1 ∧ grows evs evs1
                 ∧ f a s1 = (r, s').
Proof.
  intros Hq Ht Hk [(a & s1 & Hm & H)|(e & Hm & ->)]%bind_inv.
  - destruct (quiet_step _ _ _ _ _ _ Hq Ht Hk Hm) as (evs1 & Ht1 & Hk1 & Hg1).
    right. by exists a, s1, evs1.
  - destruct (quiet_step _ _ _ _ _ _ Hq Ht Hk Hm) as (evs1 & Ht1 & Hk1 & Hg1).
    left. by eapply run_ok_kept.
Qed.

Lemma run_ok_weak {A} t0 (r : Res A) s' :
  run_ok t0 r s' →
  ∃ evs', trace s' = t0 ++ evs' ∧ ledger_first c rid evs'
          ∧ (is_ok r = true → kept evs').
Proof.
  intros (e & Ht & Hf & Hc). exists e. split; [done|]. split; [done|].
  intros Hr. split; [done|by apply Hc].
Qed.

Section Tick.
Context (cfg : Config) (start : Q).

Lemma process_pending_ok t0 evs s r s' :
  trace s = t0 ++ evs → kept evs →
  process_pending env cfg rid start (Some c) s = (r, s') →
  ∃ evs', trace s' = t0 ++ evs' ∧ ledger_first c rid evs'
          ∧ (is_ok r = true → kept evs').
Proof.
  intros Ht Hk H. unfold process_pending in H.
  apply (quiet_bind _ _ _ _ _ _ _ (quiet_choose_pending env _) Ht Hk) in H
    as [?|(pending & s1 & e1 & Ht1 & Hk1 & _ & H)]; [by apply run_ok_weak|].
  apply (quiet_bind _ _ _ _ _ _ _ (emits_new_esi quiet) Ht1 Hk1) in H
    as [?|([] & s2 & e2 & Ht2 & Hk2 & _ & H)]; [by apply run_ok_weak|].
  apply (quiet_bind _ _ _ _ _ _ _ (emits_lift quiet _) Ht2 Hk2) in H
    as [?|(rows & s3 & e3 & Ht3 & Hk3 & _ & H)]; [by apply run_ok_weak|].
  apply (quiet_bind _ _ _ _ _ _ _ (quiet_pending_loop env cfg rid start _ _) Ht3 Hk3) in H
    as [?|(acc & s4 & e4 & Ht4 & Hk4 & _ & H)]; [by apply run_ok_weak|].
  rewrite bind_assoc_run in H.
  apply bind_inv in H as [([] & s5 & Hres & H)|(e & Hres & ->)].
  - destruct (results_phase _ _ _ _ _ _ Ht4 Hk4 Hres) as (e5 & Ht5 & Hf5 & _ & Hk5).
    apply ret_inv in H as [-> ->]. exists e5. split; [done|]. split; [done|].
    intros _. by apply Hk5.
  - destruct (results_phase _ _ _ _ _ _ Ht4 Hk4 Hres) as (e5 & Ht5 & Hf5 & _ & _).
    exists e5. split; [done|]. split; [done|]. done.
Qed.

Lemma tick_ok t0 evs s r s' :
  trace s = t0 ++ evs → kept evs →
  tick env cfg rid start (Some c) s = (r, s') → run_ok t0 r s'.
Proof.
  intros Ht Hk H. unfold tick, redisq_listen in H.
  apply (quiet_bind _ _ _ _ _ _ _ (quiet_listen_loop env cfg _ _ _ _) Ht Hk) in H
    as [?|(pkgs & s1 & e1 & Ht1 & Hk1 & _ & H)]; [done|].
  apply (quiet_bind _ _ _ _ _ _ _ (quiet_stage_raw env rid _ _) Ht1 Hk1) in H
    as [?|(raw_rows & s2 & e2 & Ht2 & Hk2 & _ & H)]; [done|].
  apply bind_inv in H as [([] & s3 & Hl & H)|(e & Hl & ->)]; cycle 1.
  { destruct (raw_ledger_step _ _ _ _ _ _ Ht2 Hk2 Hl) as (e3 & Ht3 & Hf3 & _ & _).
    by eapply run_ok_raise. }
  destruct (raw_ledger_step _ _ _ _ _ _ Ht2 Hk2 Hl) as (e3 & Ht3 & _ & _ & Hok3).
  destruct (Hok3 eq_refl) as [Hk3 Hb3].
  apply bind_inv in H as [([] & s4 & Hst & H)|(e & Hst & ->)]; cycle 1.
  { destruct (raw_store_step _ _ _ _ _ _ Ht3 Hk3 Hb3 Hst) as (e4 & Ht4 & Hk4 & _).
    by eapply run_ok_kept. }
  destruct (raw_store_step _ _ _ _ _ _ Ht3 Hk3 Hb3 Hst) as (e4 & Ht4 & Hk4 & _).
  apply bind_inv in H as [([n acc] & s5 & Hp & H)|(e & Hp & ->)]; cycle 1.
  { destruct (process_pending_ok _ _ _ _ _ Ht4 Hk4 Hp) as (e5 & Ht5 & Hf5 & _).
    by eapply run_ok_raise. }
  destruct (process_pending_ok _ _ _ _ _ Ht4 Hk4 Hp) as (e5 & Ht5 & _ & Hk5).
  specialize (Hk5 eq_refl).
  destruct (quiet_step _ _ _ _ _ _ (emits_print quiet _ I) Ht5 Hk5 H)
    as (e6 & Ht6 & Hk6 & _).
  by eapply run_ok_kept.
Qed.

End Tick.

Lemma main_ok cfg s r s' :
  make_ledger cfg = Some c →
  main env cfg rid s = (r, s') → run_ok (trace s) r s'.
Proof.
  intros Hc H. unfold main in H. rewrite Hc in H.
  assert (trace s = trace s ++ []) as Ht by by rewrite app_nil_r.
  apply (quiet_bind _ _ _ _ _ _ _ (emits_time quiet env (λ _, I)) Ht kept_nil) in H
    as [?|(st & s1 & e1 & Ht1 & Hk1 & _ & H)]; [done|].
  apply (quiet_bind _ _ _ _ _ _ _ (quiet_ensure_bq_objects env) Ht1 Hk1) in H
    as [?|([] & s2 & e2 & Ht2 & Hk2 & _ & H)]; [done|].
  destruct (mode cfg =? "maintenance")%string.
  - apply (quiet_bind _ _ _ _ _ _ _ (quiet_maintenance env) Ht2 Hk2) in H
      as [?|([] & s3 & e3 & Ht3 & Hk3 & _ & H)]; [done|].
    destruct (quiet_step _ _ _ _ _ _ (emits_print quiet _ I) Ht3 Hk3 H)
      as (e4 & Ht4 & Hk4 & _).
    by eapply run_ok_kept.
  - eapply tick_ok; [exact Ht2|exact Hk2|exact H].
Qed.

End Phases.
End OrderFacts.


Module RunOrder.
Import MonadFacts Observe LedgerFacts Order Pipeline TraceFacts OrderFacts Envs Kills.

Lemma emits_write P env path lines :
  (∀ r, P (EvWrite path lines r)) → emits P (write_file env path lines).
Proof. intros H. apply emits_one. intros s r s' [= <- <-]. eauto. Qed.

Lemma no_post_store_load {A} env (to_dict : A → json) rows table path :
  emits no_post (store_load env to_dict rows table path).
Proof.
  unfold store_load, bq_load_ndjson.
  apply emits_bind; [by apply emits_write|intros].
  apply emits_bind; [by apply emits_sh|intros]. apply emits_ret.
Qed.

Lemma no_post_store_batch {A} env rid (to_dict : A → json) rows table file :
  emits no_post (store_batch env rid to_dict rows table file).
Proof.
  unfold store_batch. destruct rows; [apply emits_ret|apply no_post_store_load].
Qed.

Lemma no_post_tick env cfg rid start :
  emits no_post (tick env cfg rid start None).
Proof.
  unfold tick, redisq_listen, process_pending, ledger_results, store_results.
  apply emits_bind;
    [eapply emits_weaken; [apply quiet_no_post|apply quiet_listen_loop]|intros pkgs].
  apply emits_bind;
    [eapply emits_weaken; [apply quiet_no_post|apply quiet_stage_raw]|intros raw_rows].
  apply emits_bind; [unfold ledger_raw; destruct raw_rows; apply emits_ret|intros].
  apply emits_bind;
    [unfold store_raw; destruct raw_rows; [apply emits_ret|apply no_post_store_load]
    |intros].
  apply emits_bind; [|intros [n acc]; by apply emits_print].
  apply emits_bind;
    [eapply emits_weaken; [apply quiet_no_post|apply quiet_choose_pending]|intros].
  apply emits_bind; [apply emits_new_esi|intros].
  apply emits_bind; [apply emits_lift|intros rows].
  apply emits_bind;
    [eapply emits_weaken; [apply quiet_no_post|apply quiet_pending_loop]|intros acc].
  apply emits_bind; [apply emits_ret|intros].
  apply emits_bind; [|intros; apply emits_ret].
  apply emits_bind; [apply no_post_store_batch|intros].
  apply emits_bind; [apply no_post_store_batch|intros].
  apply no_post_store_batch.
Qed.

(** X1. In a run with a Ledger configured, every [bq load] into a log table
    comes after an accepted Ledger append, to the stream of that table, of
    the very lines that the loaded file holds (the file being written in
    between); and a run that ends normally has had every stream it posted to
    accepted. *)
Theorem main_ledger_first (env : Env) (cfg : Config) (rid : string)
    (c : LedgerClient) (s : State) (r : Res unit) (s' : State) :
  make_ledger cfg = Some c →
  main env cfg rid s = (r, s') →
  ∃ evs, trace s' = trace s ++ evs
         ∧ ledger_first c rid evs
         ∧ (is_ok r = true → ∀ stream, clean c rid stream evs).
Proof. apply main_ok. Qed.

Lemma main_ledger_first_witness :
  ∃ r s' evs,
    main queue_once cfg1 "run1" init_state = (r, s')
    ∧ trace s' = [] ++ evs
    ∧ ledger_first client "run1" evs
    ∧ Exists (load_into "redisq_raw_log") evs.
Proof.
  destruct (main queue_once cfg1 "run1" init_state) as [r s'] eqn:H.
  destruct (main_ledger_first queue_once cfg1 "run1" client init_state r s'
              eq_refl H) as (evs & Ht & Hf & _).
  exists r, s', evs. split; [reflexivity|]. split; [exact Ht|]. split; [exact Hf|].
  simpl in Ht. rewrite <- Ht. vm_compute in H. injection H as _ <-.
  do 12 apply Exists_cons_tl. apply Exists_cons_hd.
  by eexists _, _, _, _.
Defined.

(** X2. Without a Ledger (one of its two settings empty) a run makes no
    POST at all: the batches go to the store only. *)
Theorem main_without_ledger_never_posts (env : Env) (cfg : Config)
    (rid : string) (s : State) (r : Res unit) (s' : State) :
  make_ledger cfg = None →
  main env cfg rid s = (r, s') →
  ∃ evs, trace s' = trace s ++ evs ∧ Forall no_post evs.
Proof.
  intros Hc. revert s r s'. change (emits no_post (main env cfg rid)).
  unfold main. rewrite Hc.
  apply emits_bind; [by apply emits_time|intros start].
  apply emits_bind;
    [eapply emits_weaken; [apply quiet_no_post|apply quiet_ensure_bq_objects]|intros].
  destruct (mode cfg =? "maintenance")%string.
  - apply emits_bind;
      [eapply emits_weaken; [apply quiet_no_post|apply quiet_maintenance]|intros].
    by apply emits_print.
  - apply no_post_tick.
Qed.

Lemma main_without_ledger_never_posts_witness :
  ∃ r s' evs,
    main queue_once cfg0 "run1" init_state = (r, s')
    ∧ trace s' = [] ++ evs
    ∧ Forall no_post evs
    ∧ Exists (load_into "redisq_raw_log") evs.
Proof.
  destruct (main queue_once cfg0 "run1" init_state) as [r s'] eqn:H.
  destruct (main_without_ledger_never_posts queue_once cfg0 "run1" init_state r s'
              eq_refl H) as (evs & Ht & Hf).
  exists r, s', evs. split; [reflexivity|]. split; [exact Ht|]. split; [exact Hf|].
  simpl in Ht. rewrite <- Ht. vm_compute in H. injection H as _ <-.
  do 11 apply Exists_cons_tl. apply Exists_cons_hd.
  by eexists _, _, _, _.
Defined.

End RunOrder.


(** ** Attacker-corp attribution *)

Module CorpFacts.
Import MonadFacts Observe EsiFacts ShipClassFacts Corps.

Lemma existsb_false {A} (f : A → bool) l x :
  existsb f l = false → x ∈ l → f x = false.
Proof.
  induction l as [|y l IH]; simpl; [by intros _ ?%elem_of_nil|].
  intros [Hy Hl]%orb_false_iff [->|Hx]%elem_of_cons; auto.
Qed.

(** *** Deduplication of names *)

Lemma distinct_snoc out n :
  distinct out → py_in n out = false → distinct (out ++ [n]).
Proof.
  intros Hd Hn i j a b Hij Hi Hj.
  apply lookup_app_Some in Hj as [Hj|[Hlen Hj]].
  - apply lookup_app_Some in Hi as [Hi|[Hlen _]].
    + by eapply Hd.
    + apply lookup_lt_Some in Hj. lia.
  - destruct (j - length out)%nat as [|k] eqn:Hk; [|by destruct k].
    injection Hj as <-.
    apply lookup_app_Some in Hi as [Hi|[Hlen' _]]; [|lia].
    eapply existsb_false; [exact Hn|]. by eapply list_elem_of_lookup_2.
Qed.

Lemma dedup_names_spec names out :
  distinct out → Forall (λ n, truthy n = true) out →
  distinct (dedup_names names out)
  ∧ Forall (λ n, truthy n = true) (dedup_names names out)
  ∧ out `prefix_of` dedup_names names out
  ∧ (∀ n, n ∈ dedup_names names out → n ∈ out ∨ n ∈ names).
Proof.
  revert out. induction names as [|n names IH]; intros out Hd Ht; simpl.
  - repeat split; auto.
  - destruct (truthy n && negb (py_in n out)) eqn:Hc.
    + apply andb_true_iff in Hc as [Htn Hin%negb_true_iff].
      destruct (IH (out ++ [n])) as (H1 & H2 & H3 & H4).
      * by apply distinct_snoc.
      * apply Forall_app. split; [done|]. by constructor.
      * repeat split; try done.
        -- etrans; [|exact H3]. by apply prefix_app_r.
        -- intros x Hx. apply H4 in Hx as [[?| ->%list_elem_of_singleton]%elem_of_app|?].
           ++ by left.
           ++ right. by left.
           ++ right. by right.
    + destruct (IH out Hd Ht) as (H1 & H2 & H3 & H4).
      repeat split; try done.
      intros x Hx. apply H4 in Hx as [?|?]; [by left|right; by right].
Qed.

Lemma distinct_nil : distinct [].
Proof. intros i j a b _ Hi. by rewrite lookup_nil in Hi. Qed.

(** *** The choice of ids *)

Lemma choose_spec cands chosen :
  NoDup chosen → 0 ∉ chosen →
  NoDup (choose cands chosen) ∧ (0 ∉ choose cands chosen)
  ∧ chosen `prefix_of` choose cands chosen
  ∧ (∀ c, c ∈ choose cands chosen → c ∈ chosen ∨ Some c ∈ cands)
  ∧ (∀ c, Some c ∈ cands → c ≠ 0 → c ∈ choose cands chosen).
Proof.
  revert chosen. induction cands as [|[cid|] cands IH]; intros chosen Hnd H0; simpl.
  - repeat split; auto. by intros c ?%elem_of_nil.
  - destruct (negb (cid =? 0) && negb (bool_decide (cid ∈ chosen))) eqn:Hc.
    + apply andb_true_iff in Hc as [Hz Hin].
      apply negb_true_iff, Z.eqb_neq in Hz.
      apply negb_true_iff, bool_decide_eq_false in Hin.
      destruct (IH (chosen ++ [cid])) as (H1 & H2 & H3 & H4 & H5).
      * apply NoDup_app. repeat split; [done| |apply NoDup_singleton].
        intros x Hx Heq%list_elem_of_singleton. by subst.
      * intros [?|Heq%list_elem_of_singleton]%elem_of_app; [done|lia].
      * repeat split; try done.
        -- etrans; [|exact H3]. by apply prefix_app_r.
        -- intros c Hc. apply H4 in Hc as [[?| ->%list_elem_of_singleton]%elem_of_app|?].
           ++ by left.
           ++ right. by left.
           ++ right. by right.
        -- intros c [[= ->]|Hc]%elem_of_cons Hnz.
           ++ eapply elem_of_prefix; [|exact H3]. apply elem_of_app. right. by left.
           ++ by apply H5.
    + destruct (IH chosen Hnd H0) as (H1 & H2 & H3 & H4 & H5).
      repeat split; try done.
      * intros c Hc'. apply H4 in Hc' as [?|?]; [by left|right; by right].
      * intros c [[= ->]|Hc']%elem_of_cons Hnz; [|by apply H5].
        apply andb_false_iff in Hc as [Hc|Hc].
        -- apply negb_false_iff, Z.eqb_eq in Hc. done.
        -- apply negb_false_iff, bool_decide_eq_true in Hc.
           by eapply elem_of_prefix.
  - destruct (IH chosen Hnd H0) as (H1 & H2 & H3 & H4 & H5).
    repeat split; try done.
    + intros c Hc. apply H4 in Hc as [?|?]; [by left|right; by right].
    + intros c [[=]|Hc]%elem_of_cons Hnz. by apply H5.
Qed.

Lemma choose_head c cands :
  c ≠ 0 → ∃ rest, choose (Some c :: cands) [] = c :: rest.
Proof.
  intros Hc. simpl. apply Z.eqb_neq in Hc. rewrite Hc. simpl.
  destruct (choose_spec cands [c]) as (_ & _ & [rest ->] & _).
  - apply NoDup_singleton.
  - intros Heq%list_elem_of_singleton. apply Z.eqb_neq in Hc. lia.
  - by exists rest.
Qed.

(** *** Counting the attackers of each corporation *)

Lemma count_of_bump k k' counts :
  count_of k (bump k' counts) = count_of k counts + (if k =? k' then 1 else 0).
Proof.
  induction counts as [|[k0 n] counts IH]; simpl.
  - destruct (k =? k'); lia.
  - destruct (Z.eqb_spec k' k0) as [->|Hne]; simpl.
    + destruct (k =? k0); lia.
    + destruct (Z.eqb_spec k k0) as [->|Hne'].
      * destruct (Z.eqb_spec k0 k'); [congruence|lia].
      * apply IH.
Qed.

Lemma bump_keys k counts :
  map fst (bump k counts)
  = if bool_decide (k ∈ map fst counts) then map fst counts
    else map fst counts ++ [k].
Proof.
  induction counts as [|[k0 n] counts IH]; simpl; [done|].
  destruct (Z.eqb_spec k k0) as [->|Hne]; simpl.
  - rewrite bool_decide_eq_true_2; [done|by left].
  - rewrite IH. destruct (decide (k ∈ map fst counts)) as [Hin|Hin].
    + rewrite !bool_decide_eq_true_2; [done|by right|done].
    + rewrite !bool_decide_eq_false_2; [done| |done].
      by intros [?|?]%elem_of_cons.
Qed.

Lemma bump_NoDup k counts : NoDup (map fst counts) → NoDup (map fst (bump k counts)).
Proof.
  intros H. rewrite bump_keys. case_bool_decide; [done|].
  apply NoDup_app. repeat split; [done| |apply NoDup_singleton].
  intros x Hx Heq%list_elem_of_singleton. by subst.
Qed.

Lemma bump_positive k counts :
  Forall (λ kv, 0 < snd kv) counts → Forall (λ kv, 0 < snd kv) (bump k counts).
Proof.
  induction counts as [|[k0 n] counts IH]; simpl; intros H.
  - by repeat constructor.
  - apply Forall_cons in H as [Hn H]. simpl in Hn.
    destruct (k =? k0); constructor; simpl; auto; lia.
Qed.

Lemma count_corps_spec attackers acc counts :
  count_corps attackers acc = Ok counts →
  NoDup (map fst acc) → Forall (λ kv, 0 < snd kv) acc →
  NoDup (map fst counts) ∧ Forall (λ kv, 0 < snd kv) counts
  ∧ (∀ k, count_of k counts = count_of k acc + members_of k attackers)
  ∧ Forall (λ a, is_ok (corp_of a) = true) attackers.
Proof.
  revert acc. induction attackers as [|a l IH]; intros acc H Hnd Hpos; simpl in H.
  - injection H as <-. repeat split; auto. intros k. simpl. lia.
  - apply res_bind_ok_inv in H as (cid & Hcid & H).
    destruct (truthy cid) eqn:Htc.
    + apply res_bind_ok_inv in H as (k0 & Hk0 & H).
      assert (corp_of a = Ok (Some k0)) as Hcorp.
      { unfold corp_of. rewrite Hcid. simpl. by rewrite Htc, Hk0. }
      destruct (IH _ H (bump_NoDup _ _ Hnd) (bump_positive _ _ Hpos))
        as (H1 & H2 & H3 & H4).
      split; [done|]. split; [done|]. split.
      * intros k. rewrite H3, count_of_bump. simpl. rewrite Hcorp. lia.
      * constructor; [by rewrite Hcorp|done].
    + assert (corp_of a = Ok None) as Hcorp.
      { unfold corp_of. rewrite Hcid. simpl. by rewrite Htc. }
      destruct (IH _ H Hnd Hpos) as (H1 & H2 & H3 & H4).
      split; [done|]. split; [done|]. split.
      * intros k. rewrite H3. simpl. rewrite Hcorp. lia.
      * constructor; [by rewrite Hcorp|done].
Qed.

Lemma count_of_elem k n counts :
  NoDup (map fst counts) → (k, n) ∈ counts → count_of k counts = n.
Proof.
  induction counts as [|[k0 n0] counts IH]; simpl; intros Hnd Hin.
  - by apply elem_of_nil in Hin.
  - apply NoDup_cons in Hnd as [Hk0 Hnd].
    apply elem_of_cons in Hin as [[= -> ->]|Hin].
    + by rewrite Z.eqb_refl.
    + destruct (Z.eqb_spec k k0) as [->|Hne]; [|by apply IH].
      exfalso. apply Hk0. by apply (list_elem_of_fmap_2 fst) in Hin.
Qed.

Lemma count_of_absent k counts : k ∉ map fst counts → count_of k counts = 0.
Proof.
  induction counts as [|[k0 n0] counts IH]; simpl; intros Hk; [done|].
  destruct (Z.eqb_spec k k0) as [->|Hne].
  - exfalso. apply Hk. by left.
  - apply IH. intros Hin. apply Hk. by right.
Qed.

(** [max_count] returns the first entry with the greatest count. *)
Lemma max_count_spec best counts :
  ∃ pre post, best :: counts = pre ++ max_count best counts :: post
    ∧ Forall (λ kv, snd kv < snd (max_count best counts)) pre
    ∧ Forall (λ kv, snd kv ≤ snd (max_count best counts)) post.
Proof.
  revert best. induction counts as [|kv counts IH]; intros best; simpl.
  - exists [], []. by repeat split.
  - destruct (Z.ltb_spec (snd best) (snd kv)) as [Hlt|Hge].
    + destruct (IH kv) as (pre & post & Heq & Hpre & Hpost).
      exists (best :: pre), post. simpl. rewrite <- Heq.
      split; [done|]. split; [|done].
      constructor; [|done].
      assert (snd kv ≤ snd (max_count kv counts)); [|lia].
      destruct pre as [|p pre]; simpl in Heq.
      * injection Heq as Heq _. by rewrite <- Heq.
      * injection Heq as Heq _. subst p. apply Forall_cons in Hpre as [? _]. lia.
    + destruct (IH best) as (pre & post & Heq & Hpre & Hpost).
      destruct pre as [|p pre]; simpl in Heq.
      * injection Heq as Hb Hc. exists [], (kv :: post).
        simpl. subst post. rewrite <- Hb in *.
        split; [done|]. split; [done|]. by constructor.
      * injection Heq as Hb Hc. subst p. apply Forall_cons in Hpre as [Hp Hpre].
        exists (best :: kv :: pre), post. simpl.
        split; [do 2 f_equal; exact Hc|]. split; [|done].
        constructor; [done|]. constructor; [lia|done].
Qed.

(** *** The final blow *)

Lemma get_truthy_getitem a k v :
  get a k = Ok v → truthy v = true → getitem a k = Ok v.
Proof.
  destruct a; try done. simpl. unfold get_default.
  destruct (assoc k kvs) as [w|]; simpl; [by intros [= ->]|].
  by intros [= <-].
Qed.

Lemma blow_and_damage_app pre post st r :
  blow_and_damage (pre ++ post) st = Ok r →
  ∃ st', blow_and_damage pre st = Ok st' ∧ blow_and_damage post st' = Ok r.
Proof.
  revert st. induction pre as [|a pre IH]; intros st H; simpl in *; [eauto|].
  destruct st as [[fc tc] td].
  apply res_bind_ok_inv in H as (fb & Hfb & H). rewrite Hfb. simpl.
  apply res_bind_ok_inv in H as (cid & Hcid & H). rewrite Hcid. simpl.
  apply res_bind_ok_inv in H as (fc' & Hfc & H). rewrite Hfc. simpl.
  apply res_bind_ok_inv in H as (dd & Hdd & H). rewrite Hdd. simpl.
  apply res_bind_ok_inv in H as (dmg & Hdmg & H). rewrite Hdmg. simpl.
  destruct ((td <? dmg) && truthy cid).
  - apply res_bind_ok_inv in H as (cc & Hcc & H). rewrite Hcc. simpl.
    apply res_bind_ok_inv in H as (k & Hk & H). rewrite Hk. simpl.
    by apply IH.
  - by apply IH.
Qed.

(** Attackers that did not deal the final blow leave [final_corp] alone. *)
Lemma blow_and_damage_keeps attackers fc tc td fc' tc' td' :
  Forall no_final_blow attackers →
  blow_and_damage attackers (fc, tc, td) = Ok (fc', tc', td') → fc' = fc.
Proof.
  revert tc td. induction attackers as [|a l IH]; intros tc td Hall H; simpl in H.
  - by injection H as <- _ _.
  - apply Forall_cons in Hall as [(fb0 & Hfb0 & Hf) Hall].
    apply res_bind_ok_inv in H as (fb & Hfb & H).
    rewrite Hfb0 in Hfb. injection Hfb as <-.
    apply res_bind_ok_inv in H as (cid & Hcid & H).
    rewrite Hf in H. simpl in H.
    apply res_bind_ok_inv in H as (dd & Hdd & H).
    apply res_bind_ok_inv in H as (dmg & Hdmg & H).
    destruct ((td <? dmg) && truthy cid).
    + apply res_bind_ok_inv in H as (cc & Hcc & H).
      apply res_bind_ok_inv in H as (k & Hk & H). by eapply IH.
    + by eapply IH.
Qed.

(** The attacker that dealt the final blow sets [final_corp]. *)
Lemma blow_and_damage_final a c post st fc tc td :
  final_blow_by a c → Forall no_final_blow post →
  blow_and_damage (a :: post) st = Ok (fc, tc, td) → fc = Some c.
Proof.
  intros (fb & cid & Hfb & Htf & Hcid & Htc & Hint) Hall H. simpl in H.
  destruct st as [[fc0 tc0] td0].
  rewrite Hfb, Hcid in H. simpl in H. rewrite Htf, Htc in H. simpl in H.
  rewrite (get_truthy_getitem _ _ _ Hcid Htc) in H. simpl in H.
  rewrite Hint in H. simpl in H.
  apply res_bind_ok_inv in H as (dd & Hdd & H).
  apply res_bind_ok_inv in H as (dmg & Hdmg & H).
  destruct (td0 <? dmg); simpl in H; by eapply blow_and_damage_keeps.
Qed.

Section Names.
Context (env : Env) (ua : string).

(** The loop that resolves the ids never raises: a failed lookup is
    skipped. *)
Lemma resolve_names_total chosen names s :
  ∃ names' s', resolve_names env ua chosen names s = (Ok names', s')
               ∧ names `prefix_of` names'.
Proof.
  revert names s. induction chosen as [|c chosen IH]; intros names s; simpl.
  - by exists names, s.
  - unfold mbind at 1, M_bind at 1, try_except.
    destruct ((corp_name env ua c ≫= λ n, mret (names ++ [n])) s)
      as [[names1|e] s1] eqn:H1.
    + destruct (IH names1 s1) as (names' & s' & -> & Hp).
      exists names', s'. split; [done|]. etrans; [|exact Hp].
      apply bind_ok_inv in H1 as (n & s0 & _ & [-> _]%ret_ok_inv).
      by apply prefix_app_r.
    + unfold mret at 1, M_ret at 1.
      destruct (IH names s1) as (names' & s' & -> & Hp). by exists names', s'.
Qed.

Lemma resolve_names_head c chosen s n s1 :
  corp_name env ua c s = (Ok n, s1) →
  ∃ rest s', resolve_names env ua (c :: chosen) [] s = (Ok (n :: rest), s').
Proof.
  intros Hn. simpl. unfold mbind at 1, M_bind at 1, try_except.
  rewrite (bind_ok _ _ _ _ _ Hn). unfold mret at 1, M_ret at 1.
  destruct (resolve_names_total chosen [n] s1) as (names' & s' & -> & [rest ->]).
  by exists rest, s'.
Qed.

Lemma dedup_names_head n names :
  truthy n = true → ∃ rest, dedup_names (n :: names) [] = n :: rest.
Proof.
  intros Hn. simpl. rewrite Hn. simpl.
  destruct (dedup_names_spec names [n]) as (_ & _ & [rest ->] & _).
  - intros i j a b Hij Hi Hj. apply lookup_lt_Some in Hj. simpl in Hj. lia.
  - by constructor.
  - by exists rest.
Qed.

(** What [attacker_corp_names] does when it returns. *)
Lemma attacker_corp_names_inv km s out s' :
  attacker_corp_names env ua km s = (Ok out, s') →
  (∃ att, get km "attackers" = Ok att ∧ truthy att = false ∧ out = [] ∧ s' = s)
  ∨ ∃ att attackers chosen names,
      get km "attackers" = Ok att
      ∧ truthy att = true
      ∧ iter att = Ok attackers
      ∧ chosen_corps attackers = Ok chosen
      ∧ resolve_names env ua chosen [] s = (Ok names, s')
      ∧ out = dedup_names names [].
Proof.
  unfold attacker_corp_names. intros H.
  apply bind_ok_inv in H as (att & s0 & [Hatt ->]%lift_ok_inv & H).
  unfold py_or in H. destruct (truthy att) eqn:Ht; simpl in H.
  - rewrite Ht in H. simpl in H.
    apply bind_ok_inv in H as (xs & s0 & [Hxs ->]%lift_ok_inv & H).
    apply bind_ok_inv in H as (chosen & s0 & [Hch ->]%lift_ok_inv & H).
    apply bind_ok_inv in H as (names & s1 & Hres & H).
    apply ret_ok_inv in H as [-> ->]. right. by exists att, xs, chosen, names.
  - apply ret_ok_inv in H as [-> ->]. left. by exists att.
Qed.
End Names.
End CorpFacts.


Module CorpNames.
Import MonadFacts Observe EsiFacts ShipClassFacts Corps CorpFacts Envs Kills.

(** X5. The list of names that [attacker_corp_names] returns holds no
    entry twice (no entry equals an earlier one under [==]) and no empty
    or missing name. *)
Theorem attacker_corp_names_distinct (env : Env) (ua : string) (km : json)
    (s : State) (out : list json) (s' : State) :
  attacker_corp_names env ua km s = (Ok out, s') →
  distinct out ∧ Forall (λ n, truthy n = true) out.
Proof.
  intros [(att & _ & _ & -> & _)|(att & xs & chosen & names & _ & _ & _ & _ & _ & ->)]%attacker_corp_names_inv.
  - split; [apply distinct_nil|constructor].
  - destruct (dedup_names_spec names []) as (H1 & H2 & _); [apply distinct_nil|done|].
    by split.
Qed.

Lemma attacker_corp_names_distinct_witness :
  ∃ s', attacker_corp_names esi_jita "EOU/0.1" km_corps init_state
        = (Ok [JStr "Jita"], s')
        ∧ distinct [JStr "Jita"].
Proof.
  destruct (attacker_corp_names esi_jita "EOU/0.1" km_corps init_state)
    as [r s'] eqn:H.
  assert (r = Ok [JStr "Jita"]) as -> by (vm_compute in H; by injection H as <- _).
  exists s'. split; [reflexivity|].
  exact (proj1 (attacker_corp_names_distinct _ _ _ _ _ _ H)).
Defined.

(** X6. When the attacker that dealt the final blow has a corporation (a
    non-zero id) and no later attacker is marked as final blow, that
    corporation comes first among the chosen ids, and its name, if the ESI
    resolves it to a non-empty one, is the first name of the result. *)
Theorem final_blow_corp_first (env : Env) (ua : string) (km att : json)
    (pre post : list json) (a : json) (c : Z) (n : json)
    (s s1 : State) (out : list json) (s' : State) :
  get km "attackers" = Ok att →
  iter att = Ok (pre ++ a :: post) →
  final_blow_by a c → c ≠ 0 → Forall no_final_blow post →
  corp_name env ua c s = (Ok n, s1) → truthy n = true →
  attacker_corp_names env ua km s = (Ok out, s') →
  (∃ rest, chosen_corps (pre ++ a :: post) = Ok (c :: rest))
  ∧ ∃ rest, out = n :: rest.
Proof.
  intros Hatt Hiter Hfb Hc Hpost Hname Hn Hrun.
  assert (∃ rest, chosen_corps (pre ++ a :: post) = Ok (c :: rest)
                  ∧ ∃ names s2, resolve_names env ua (c :: rest) [] s = (Ok names, s2)
                                ∧ out = dedup_names names []) as (rest & Hch & Hout).
  { apply attacker_corp_names_inv in Hrun
      as [(att' & Hatt' & Hf & _)
         |(att' & xs & chosen & names & Hatt' & Ht & Hxs & Hch & Hres & ->)];
      rewrite Hatt in Hatt'; injection Hatt' as <-.
    - exfalso. destruct att; try done; simpl in Hiter; injection Hiter as Hiter.
      + destruct s0; [by destruct pre|done].
      + destruct xs; [by destruct pre|done].
      + destruct kvs; [by destruct pre|done].
    - rewrite Hiter in Hxs. injection Hxs as <-.
      pose proof Hch as Hch'. unfold chosen_corps in Hch'.
      apply res_bind_ok_inv in Hch' as (counts & _ & Hch').
      apply res_bind_ok_inv in Hch' as ([[fc tc] td] & Hbd & Hch').
      apply blow_and_damage_app in Hbd as ([[fc0 tc0] td0] & _ & Hbd).
      apply (blow_and_damage_final _ c) in Hbd as ->; [|done..].
      injection Hch' as Hch'.
      destruct (choose_head c ([tc; max_corp counts]
                  ++ map Some (quarter_corps counts (length (pre ++ a :: post)))) Hc)
        as [rest Hrest].
      exists rest. split; [rewrite Hch; f_equal; rewrite <- Hch'; exact Hrest|].
      exists names, s'. split; [|done].
      replace (c :: rest) with chosen; [done|]. rewrite <- Hch'. exact Hrest. }
  split; [by exists rest|].
  destruct Hout as (names & s2 & Hres & ->).
  destruct (resolve_names_head env ua c rest s n s1 Hname) as (names' & s3 & Hres').
  rewrite Hres' in Hres. injection Hres as <- _.
  by apply dedup_names_head.
Qed.

Lemma final_blow_corp_first_witness :
  ∃ s', attacker_corp_names esi_corps "EOU/0.1" km_corps init_state
        = (Ok [JStr "B Corp"; JStr "A Corp"], s')
        ∧ chosen_corps
            [JObj [("corporation_id", JInt 10); ("damage_done", JInt 500)];
             JObj [("corporation_id", JInt 20); ("damage_done", JInt 100);
                   ("final_blow", JBool true)];
             JObj [("corporation_id", JInt 10); ("damage_done", JInt 50)]]
          = Ok [20; 10].
Proof.
  destruct (attacker_corp_names esi_corps "EOU/0.1" km_corps init_state)
    as [r s'] eqn:H.
  assert (r = Ok [JStr "B Corp"; JStr "A Corp"]) as ->
    by (vm_compute in H; by injection H as <- _).
  exists s'. split; [reflexivity|].
  destruct (corp_name esi_corps "EOU/0.1" 20 init_state) as [rn s1] eqn:Hn.
  assert (rn = Ok (JStr "B Corp")) as -> by (vm_compute in Hn; by injection Hn as <- _).
  destruct (final_blow_corp_first esi_corps "EOU/0.1" km_corps _
              [JObj [("corporation_id", JInt 10); ("damage_done", JInt 500)]]
              [JObj [("corporation_id", JInt 10); ("damage_done", JInt 50)]]
              (JObj [("corporation_id", JInt 20); ("damage_done", JInt 100);
                     ("final_blow", JBool true)])
              20 (JStr "B Corp") init_state s1 [JStr "B Corp"; JStr "A Corp"] s'
              eq_refl eq_refl) as [[rest Hrest] _];
    try done.
  - by exists (JBool true), (JInt 20).
  - constructor; [|constructor]. by exists JNull.
Defined.

Lemma resolve_names_length env ua chosen names s names' s' :
  resolve_names env ua chosen names s = (Ok names', s') →
  (length names' ≤ length names + length chosen)%nat.
Proof.
  revert names s. induction chosen as [|c chosen IH]; intros names s H; simpl in H.
  - apply ret_ok_inv in H as [-> _]. lia.
  - apply bind_ok_inv in H as (names1 & s1 & Htry & H).
    apply IH in H. simpl.
    apply try_inv in Htry as [(x & Hx & [= <-])|(e & s2 & _ & [[= ->] _]%ret_inv)];
      [|lia].
    apply bind_ok_inv in Hx as (n & s0 & _ & [-> _]%ret_ok_inv).
    rewrite length_app in H. simpl in H. lia.
Qed.

Lemma dedup_names_length names out :
  (length (dedup_names names out) ≤ length out + length names)%nat.
Proof.
  revert out. induction names as [|n names IH]; intros out; simpl; [lia|].
  destruct (truthy n && negb (py_in n out)).
  - specialize (IH (out ++ [n])). rewrite length_app in IH. simpl in IH. lia.
  - specialize (IH out). lia.
Qed.

(** X7. A failure of the ESI never fails the attribution: once the
    attackers of the killmail are well formed (the ids could be chosen),
    [attacker_corp_names] returns, with at most one name per chosen id; and
    for a killmail without attackers it returns the empty list without any
    request. *)
Theorem attacker_corp_names_survives_esi (env : Env) (ua : string)
    (km att : json) (s : State) :
  get km "attackers" = Ok att →
  (truthy att = false → attacker_corp_names env ua km s = (Ok [], s))
  ∧ (∀ attackers chosen,
       truthy att = true → iter att = Ok attackers →
       chosen_corps attackers = Ok chosen →
       ∃ out s', attacker_corp_names env ua km s = (Ok out, s')
                 ∧ (length out ≤ length chosen)%nat).
Proof.
  intros Hatt. unfold attacker_corp_names. split.
  - intros Hf. erewrite bind_ok; [|by rewrite Hatt].
    unfold py_or. by rewrite Hf.
  - intros attackers chosen Ht Hiter Hch.
    erewrite bind_ok; [|by rewrite Hatt].
    unfold py_or. rewrite Ht. simpl. rewrite Ht. simpl.
    erewrite bind_ok; [|by rewrite Hiter].
    erewrite bind_ok; [|by rewrite Hch].
    destruct (resolve_names_total env ua chosen [] s) as (names & s' & Hres & _).
    erewrite bind_ok; [|exact Hres].
    eexists _, _. split; [reflexivity|].
    apply resolve_names_length in Hres. simpl in Hres.
    pose proof (dedup_names_length names []). simpl in *. lia.
Qed.

Lemma attacker_corp_names_survives_esi_witness :
  ∃ s', attacker_corp_names esi_down "EOU/0.1" km_corps init_state = (Ok [], s')
        ∧ length (gets (trace s')) = 2%nat.
Proof.
  destruct (attacker_corp_names_survives_esi esi_down "EOU/0.1" km_corps _
              init_state eq_refl) as [_ H].
  destruct (H _ [20; 10] eq_refl eq_refl eq_refl) as (out & s' & Hrun & _).
  exists s'. vm_compute in Hrun. injection Hrun as <- <-. split; reflexivity.
Defined.

(** X8. [corp_counts] holds for every corporation the number of attackers
    that belong to it; the corporation picked as the one with most
    attackers has at least as many attackers as any other, and strictly
    more than every corporation that comes before it in [corp_counts]; and
    the quarter list holds exactly the corporations with at least
    max(1, n div 4) of the n attackers. *)
Theorem corp_counts_and_majority (attackers : list json) (counts : list (Z * Z)) :
  count_corps attackers [] = Ok counts →
  (∀ k, count_of k counts = members_of k attackers)
  ∧ (∀ k, max_corp counts = Some k →
       (∀ k', members_of k' attackers ≤ members_of k attackers)
       ∧ ∃ pre post, map fst counts = pre ++ k :: post
           ∧ Forall (λ k', members_of k' attackers < members_of k attackers) pre)
  ∧ (∀ k, k ∈ quarter_corps counts (length attackers)
          ↔ threshold (length attackers) ≤ members_of k attackers).
Proof.
  intros H.
  destruct (count_corps_spec _ _ _ H (NoDup_nil_2) (Forall_nil_2 _))
    as (Hnd & Hpos & Hcount & _).
  assert (∀ k, count_of k counts = members_of k attackers) as Hc.
  { intros k. rewrite Hcount. simpl. lia. }
  split; [done|]. split.
  - intros k Hmax. destruct counts as [|kv0 rest]; [done|].
    injection Hmax as <-.
    destruct (max_count_spec kv0 rest) as (pre & post & Heq & Hpre & Hpost).
    set (m := max_count kv0 rest) in *.
    assert (m ∈ kv0 :: rest) as Hm.
    { rewrite Heq. apply elem_of_app. right. by left. }
    assert (count_of (fst m) (kv0 :: rest) = snd m) as Hcm.
    { apply count_of_elem; [done|]. by destruct m. }
    assert (0 < snd m) as Hmpos.
    { by apply (proj1 (Forall_forall _ _) Hpos) in Hm. }
    assert (∀ kv, kv ∈ kv0 :: rest → snd kv ≤ snd m) as Hle.
    { intros kv Hkv. rewrite Heq in Hkv.
      apply elem_of_app in Hkv as [Hkv|[->|Hkv]%elem_of_cons].
      - apply (proj1 (Forall_forall _ _) Hpre) in Hkv. lia.
      - lia.
      - by apply (proj1 (Forall_forall _ _) Hpost) in Hkv. }
    split.
    + intros k'. rewrite <- !Hc, Hcm.
      destruct (decide (k' ∈ map fst (kv0 :: rest))) as [Hin|Hin].
      * apply list_elem_of_fmap in Hin as ([k0 n0] & -> & Hin).
        rewrite (count_of_elem _ n0); [|done..]. by apply Hle in Hin.
      * rewrite count_of_absent; [lia|done].
    + exists (map fst pre), (map fst post). split.
      * rewrite Heq, map_app. done.
      * apply Forall_forall. intros k' Hk'.
        apply list_elem_of_fmap in Hk' as ([k0 n0] & -> & Hin).
        pose proof (proj1 (Forall_forall _ _) Hpre _ Hin) as Hlt.
        cbn [fst snd] in *. rewrite <- !Hc, Hcm.
        rewrite (count_of_elem _ n0); [exact Hlt|done|].
        rewrite Heq. apply elem_of_app. by left.
  - intros k. unfold quarter_corps. rewrite <- Hc.
    set (t := threshold (length attackers)).
    assert (1 ≤ t) as Ht by (unfold t, threshold; lia).
    split.
    + intros ([k0 n0] & -> & [Hn Hin]%list_elem_of_filter)%list_elem_of_fmap.
      simpl in *. by rewrite (count_of_elem _ n0).
    + intros Hk. destruct (decide (k ∈ map fst counts)) as [Hin|Hin].
      * apply list_elem_of_fmap in Hin as ([k0 n0] & -> & Hin).
        rewrite (count_of_elem _ n0) in Hk; [|done..].
        apply (list_elem_of_fmap_2 fst _ (k0, n0)).
        by apply list_elem_of_filter.
      * rewrite count_of_absent in Hk; [lia|done].
Qed.

Lemma corp_counts_and_majority_witness :
  ∃ attackers,
    get km_corps "attackers" ≫= iter = Ok attackers
    ∧ count_corps attackers [] = Ok [(10, 2); (20, 1)]
    ∧ members_of 10 attackers = 2
    ∧ max_corp [(10, 2); (20, 1)] = Some 10.
Proof.
  eexists. split; [reflexivity|].
  assert (count_corps
            [JObj [("corporation_id", JInt 10); ("damage_done", JInt 500)];
             JObj [("corporation_id", JInt 20); ("damage_done", JInt 100);
                   ("final_blow", JBool true)];
             JObj [("corporation_id", JInt 10); ("damage_done", JInt 50)]] []
          = Ok [(10, 2); (20, 1)]) as H by reflexivity.
  split; [exact H|].
  split; [|reflexivity].
  exact (eq_sym (proj1 (corp_counts_and_majority _ _ H) 10)).
Defined.

End CorpNames.



(** ** Edges of the two clients *)

Module ClientEdges.
Import MonadFacts Observe EsiFacts ShipClassFacts LedgerFacts Envs.

(** X9. [_respect_error_limit] never raises and never touches the cache;
    it sleeps at most once, for at most 30 seconds, and only when the
    remaining error budget that the headers report is 10 or less. *)
Theorem respect_error_limit_bounded (hs : list (string * string)) (s : State) :
  ∃ s', respect_error_limit hs s = (Ok tt, s')
        ∧ esi_cache s' = esi_cache s ∧ esi_etag s' = esi_etag s
        ∧ (s' = s
           ∨ ∃ remain d,
               (header "X-ESI-Error-Limit-Remain" hs ≫= int_of_string) = Some remain
               ∧ remain ≤ 10 ∧ 0 ≤ d ≤ 30
               ∧ s' = emit (EvSleep (inject_Z d)) s).
Proof.
  unfold respect_error_limit.
  destruct (header "X-ESI-Error-Limit-Remain" hs) as [remain|]; simpl;
    [|by exists s; repeat split; auto].
  destruct (header "X-ESI-Error-Limit-Reset" hs) as [reset|];
    [|by exists s; repeat split; auto].
  destruct (int_of_string remain) as [r|]; [|by exists s; repeat split; auto].
  destruct (int_of_string reset) as [t|]; [|by exists s; repeat split; auto].
  destruct (Z.leb_spec r 10); [|by exists s; repeat split; auto].
  destruct (Z.leb_spec 0 (Z.min (t + 1) 30)); [|by exists s; repeat split; auto].
  eexists. split; [reflexivity|]. repeat split. right.
  exists r, (Z.min (t + 1) 30). repeat split; try done; lia.
Qed.

Section GetJson.
Context (env : Env) (ua : string).

(** X10. A [get_json] for a path that is not in the cache makes exactly
    one GET.  If the request raises, or the answer has a status from 400 to
    599, the call raises ([HTTPError] for the status) and the cache is as
    before; an answer 304 raises [KeyError], since no body is cached. *)
Theorem get_json_uncached (path : string) (s : State) (res : Res json)
    (s' : State) :
  esi_cache s !! (ESI_BASE +:+ path) = None →
  get_json env ua path s = (res, s') →
  gets (trace s') = gets (trace s) ++ [ESI_BASE +:+ path]
  ∧ (is_ok res = false → esi_cache s' = esi_cache s)
  ∧ (∀ e, esi_answer env ua path s = Raise e → res = Raise e)
  ∧ (∀ resp, esi_answer env ua path s = Ok resp →
       (status_code resp = 304 → res = Raise KeyError)
       ∧ (400 ≤ status_code resp < 600 →
          res = Raise (HTTPError (status_code resp)))).
Proof.
  intros Hc H. unfold get_json in H.
  apply bind_inv in H as [(cache & s0 & [= <- <-] & H)|(e & [=] & _)].
  rewrite Hc in H.
  apply bind_inv in H as [(etag & s0 & [= <- <-] & H)|(e & [=] & _)].
  unfold esi_answer, esi_headers.
  set (url := ESI_BASE +:+ path) in *.
  set (hdrs := ("User-Agent", ua) :: match esi_etag s !! url with
                                     | Some tag => [("If-None-Match", tag)]
                                     | None => []
                                     end) in *.
  assert (∀ x, gets (trace (emit (EvGet url [] hdrs x) s)) = gets (trace s) ++ [url])
    as Hg1.
  { intros x. unfold gets. simpl. by rewrite omap_app. }
  apply bind_inv in H as [(resp & s1 & Hget & H)|(e & Hget & ->)]; cycle 1.
  { unfold requests_get in Hget. injection Hget as Hans <-.
    split; [apply Hg1|]. split; [done|]. split.
    - intros e0 He0. congruence.
    - intros resp Hr. congruence. }
  unfold requests_get in Hget. injection Hget as Hans <-.
  apply bind_inv in H as [([] & s2 & Hrl & H)|(e & Hrl & ->)]; cycle 1.
  { by apply respect_error_limit_spec in Hrl as [[=] _]. }
  apply respect_error_limit_spec in Hrl as (_ & Hc2 & He2 & Hg2).
  rewrite Hg1 in Hg2.
  assert (∀ r0, (res, s') = (r0, s2) →
            gets (trace s') = gets (trace s) ++ [url]
            ∧ (is_ok res = false → esi_cache s' = esi_cache s)) as Hstop.
  { intros r0 [= -> ->]. by split. }
  destruct (Z.eqb_spec (status_code resp) 304) as [H304|H304].
  { apply bind_inv in H as [(cache' & s3 & [= <- <-] & H)|(e & [=] & _)].
    rewrite Hc2 in H. simpl in H. rewrite Hc in H. apply raise_inv in H as [-> ->].
    split; [done|]. split; [done|]. split.
    - intros e He. congruence.
    - intros resp' Hr. rewrite Hans in Hr. injection Hr as <-.
      split; [done|]. lia. }
  apply bind_inv in H as [([] & s3 & Hrs & H)|(e & Hrs & ->)]; cycle 1.
  { apply lift_inv in Hrs as [Hrs ->]. split; [done|]. split; [done|]. split.
    - intros e0 He0. congruence.
    - intros resp' Hr. rewrite Hans in Hr. injection Hr as <-.
      split; [done|]. intros _. unfold raise_for_status in Hrs.
      destruct ((400 <=? status_code resp) && (status_code resp <? 600)); congruence. }
  apply lift_inv in Hrs as [Hrs ->].
  assert (¬ 400 ≤ status_code resp < 600) as Hst.
  { unfold raise_for_status in Hrs.
    destruct (Z.leb_spec 400 (status_code resp)), (Z.ltb_spec (status_code resp) 600);
      simpl in Hrs; try done; lia. }
  assert (∀ e, esi_answer env ua path s = Raise e → res = Raise e) as Hno.
  { intros e He. unfold esi_answer, esi_headers in He. fold url in He. fold hdrs in He.
    congruence. }
  assert (∀ resp', http_get env (trace s) url [] hdrs = Ok resp' →
       (status_code resp' = 304 → res = Raise KeyError)
       ∧ (400 ≤ status_code resp' < 600 →
          res = Raise (HTTPError (status_code resp')))) as Hresp.
  { intros resp' Hr. rewrite Hans in Hr. injection Hr as <-. split; [done|]. done. }
  apply bind_inv in H as [([] & s4 & Htag & H)|(e & Htag & ->)]; cycle 1.
  { destruct (header "ETag" (headers resp)); [done|by apply ret_inv in Htag as [[=] _]]. }
  assert (esi_cache s4 = esi_cache s ∧ gets (trace s4) = gets (trace s) ++ [url])
    as [Hc4 Hg4].
  { destruct (header "ETag" (headers resp)).
    - injection Htag as <-. simpl. by rewrite Hc2.
    - apply ret_inv in Htag as [_ ->]. by rewrite Hc2. }
  apply bind_inv in H as [(data & s5 & Hj & H)|(e & Hj & ->)]; cycle 1.
  { apply lift_inv in Hj as [_ ->].
    split; [done|]. split; [done|]. split; [exact Hno|exact Hresp]. }
  apply lift_inv in Hj as [_ ->].
  apply bind_inv in H as [([] & s6 & Hset & H)|(e & [=] & _)].
  injection Hset as <-. apply ret_inv in H as [-> ->]. simpl.
  split; [done|]. split; [done|]. split; [exact Hno|exact Hresp].
Qed.
End GetJson.

Lemma get_json_uncached_witness :
  ∃ s', get_json Kills.esi_down "EOU/0.1" jita_path init_state
        = (Raise (HTTPError 502), s')
        ∧ gets (trace s') = [ESI_BASE +:+ jita_path]
        ∧ esi_cache s' = ∅.
Proof.
  destruct (get_json Kills.esi_down "EOU/0.1" jita_path init_state) as [res s'] eqn:H.
  destruct (get_json_uncached Kills.esi_down "EOU/0.1" jita_path init_state res s'
              eq_refl H) as (Hg & Hc & _ & Hresp).
  destruct (Hresp _ eq_refl) as [_ Hr]. rewrite (Hr ltac:(simpl; lia)) in *.
  exists s'. split; [reflexivity|]. split; [exact Hg|]. by apply Hc.
Defined.

(** X11. [LedgerClient.append] does not retry a POST that raises, nor an
    HTTP 200 whose body is not JSON: the exception leaves the call at once,
    after that one POST and without any sleep. *)
Theorem append_no_retry_on_exception (env : Env) (c : LedgerClient)
    (stream rid : string) (lines : list string) (s : State) :
  let ans := http_post env (trace s) (ledger_url c) (payload c stream rid lines) in
  let s1 := emit (EvPost (ledger_url c) (payload c stream rid lines) ans) s in
  (∀ e, ans = Raise e → append env c stream rid lines s = (Raise e, s1))
  ∧ (∀ resp, ans = Ok resp → status_code resp = 200 → body resp = None →
       append env c stream rid lines s = (Raise JSONDecodeError, s1)).
Proof.
  intros ans s1. split.
  - intros e He. unfold append. simpl.
    apply bind_raise. unfold requests_post. fold ans. fold s1. by rewrite He.
  - intros resp Hr Hst Hb. unfold append. simpl.
    erewrite bind_ok; cycle 1.
    { unfold requests_post. fold ans. fold s1. by rewrite Hr. }
    apply bind_raise. rewrite Hst. simpl.
    apply bind_raise. unfold lift, response_json. by rewrite Hb.
Qed.

Lemma append_no_retry_on_exception_witness :
  let env := with_post (λ _ _ _, Raise (RequestException "timeout")) calm in
  ∃ s', append env client "redisq_raw" "run1" ["{}"] init_state
        = (Raise (RequestException "timeout"), s')
        ∧ length (post_results (trace s')) = 1%nat ∧ sleeps (trace s') = [].
Proof.
  intros env.
  pose proof (proj1 (append_no_retry_on_exception env client "redisq_raw" "run1"
                       ["{}"] init_state) _ eq_refl) as H.
  eexists. split; [exact H|]. split; reflexivity.
Defined.

End ClientEdges.


(** ** The loop over the pending rows and the staging *)

Module BatchFacts.
Import MonadFacts Observe EsiFacts Rules ShipClassFacts RowRules RowFacts Pipeline Batch
  Envs Kills.

Section Rows.
Context (env : Env) (cfg : Config) (rid : string).

(** A pending row with a kill id never makes the loop raise: whatever
    happens inside the [try] costs exactly one attempt for that id. *)
Lemma process_row_total row acc s k :
  row_id row = Ok k →
  ∃ acc' s' a,
    process_row env cfg rid row acc s = (Ok acc', s')
    ∧ attempt_rows acc' = attempt_rows acc ++ [a]
    ∧ at_killmail_id a = k
    ∧ ((at_ok a = true
        ∧ (length (enriched_rows acc') + length (discarded_rows acc')
           = S (length (enriched_rows acc) + length (discarded_rows acc)))%nat)
       ∨ (at_ok a = false
          ∧ enriched_rows acc' = enriched_rows acc
          ∧ discarded_rows acc' = discarded_rows acc)).
Proof.
  intros Hid.
  assert (∃ acc' s', process_row env cfg rid row acc s = (Ok acc', s'))
    as (acc' & s' & H).
  { unfold row_id in Hid. apply res_bind_ok_inv in Hid as (kv & Hk & Hint).
    assert (∃ kvs, row = JObj kvs) as [kvs ->].
    { destruct row; try done. eauto. }
    unfold process_row.
    erewrite bind_ok; [|by rewrite Hk].
    erewrite bind_ok; [|by rewrite Hint].
    erewrite bind_ok; [|reflexivity].
    erewrite bind_ok; [|reflexivity].
    erewrite bind_ok; [|reflexivity].
    unfold try_except.
    destruct (filter_and_enrich _ _ _ _ _ _ _ _ _ _) as [[a|e] s1]; eauto. }
  exists acc', s'.
  pose proof (process_row_ok env cfg rid _ _ _ _ _ H)
    as (kid & h & Hid' & _ & Hc).
  unfold row_id in Hid. rewrite Hid in Hid'. injection Hid' as <-.
  destruct Hc as [(ex & ts & ->)|(km & s1 & pvp & _ & _ & Hm)].
  - eexists. split; [done|]. split; [reflexivity|]. split; [reflexivity|].
    right. by repeat split.
  - destruct (first_discard _ _ _ _).
    + destruct Hm as (ts & ts' & ->).
      eexists. split; [done|]. split; [reflexivity|]. split; [reflexivity|].
      left. split; [reflexivity|]. simpl. rewrite length_app. simpl. lia.
    + destruct Hm as (e & ts' & ->).
      eexists. split; [done|]. split; [reflexivity|]. split; [reflexivity|].
      left. split; [reflexivity|]. simpl. rewrite length_app. simpl. lia.
Qed.

Lemma pending_loop_total start pending acc s :
  Forall has_id pending →
  ∃ acc' s' n,
    pending_loop env cfg rid start pending acc s = (Ok acc', s')
    ∧ (n ≤ length pending)%nat
    ∧ at_killmail_id <$> attempt_rows acc'
      = (at_killmail_id <$> attempt_rows acc) ++ take n (row_ids pending)
    ∧ (length (enriched_rows acc') + length (discarded_rows acc')
       + length (ok_attempts acc)
       = length (enriched_rows acc) + length (discarded_rows acc)
         + length (ok_attempts acc'))%nat.
Proof.
  intros Hall. revert acc s.
  induction Hall as [|row rest [k Hk] Hrest IH]; intros acc s; simpl.
  - exists acc, s, 0%nat. split; [done|]. split; [done|].
    split; [by rewrite app_nil_r|lia].
  - unfold mbind at 1, M_bind at 1, time_time.
    destruct (over_budget cfg start (clock env (trace s))).
    + eexists acc, _, 0%nat. split; [reflexivity|]. split; [lia|].
      split; [by rewrite take_0, app_nil_r|lia].
    + destruct (process_row_total row acc (emit (EvTime (clock env (trace s))) s) k Hk)
        as (acc1 & s1 & a & Hrow & Hatt & Hkid & Hcount).
      erewrite bind_ok; [|exact Hrow].
      destruct (IH acc1 s1) as (acc' & s' & n & Hrun & Hn & Hids & Hlen).
      exists acc', s', (S n). split; [exact Hrun|]. split; [lia|].
      split.
      * rewrite Hids, Hatt, fmap_app. simpl. rewrite Hkid.
        unfold row_ids. simpl. rewrite Hk. simpl. by rewrite <- app_assoc.
      * assert (length (ok_attempts acc1)
                = length (ok_attempts acc) + (if at_ok a then 1 else 0))%nat as Hok.
        { unfold ok_attempts. rewrite Hatt, filter_app, length_app.
          f_equal. rewrite filter_cons, filter_nil.
          destruct (at_ok a); by case_decide. }
        destruct Hcount as [[Ha Hc]|(Ha & He & Hd)]; rewrite Ha in Hok.
        -- lia.
        -- rewrite He, Hd in Hlen. lia.
Qed.

End Rows.
End BatchFacts.

Module Batches.
Import MonadFacts Observe EsiFacts Rules ShipClassFacts RowRules RowFacts Pipeline Batch
  Envs Kills BatchFacts.

(** X12. When every pending row has a kill id, the loop over the pending
    rows returns normally, whatever the ESI does.  It stages one attempt per
    row that it handled, for the kill ids of a prefix of the pending rows in
    their order (the rows before the deadline), and the enriched and
    discarded rows together are as many as the attempts with [ok = True]. *)
Theorem pending_loop_one_attempt_per_row (env : Env) (cfg : Config)
    (rid : string) (start : Q) (pending : list json) (s : State) :
  Forall has_id pending →
  ∃ acc' s' n,
    pending_loop env cfg rid start pending empty_acc s = (Ok acc', s')
    ∧ (n ≤ length pending)%nat
    ∧ at_killmail_id <$> attempt_rows acc' = take n (row_ids pending)
    ∧ (length (enriched_rows acc') + length (discarded_rows acc')
       = length (ok_attempts acc'))%nat.
Proof.
  intros Hall.
  destruct (pending_loop_total env cfg rid start pending empty_acc s Hall)
    as (acc' & s' & n & Hrun & Hn & Hids & Hlen).
  exists acc', s', n. split; [exact Hrun|]. split; [exact Hn|].
  split; [exact Hids|].
  change (length (ok_attempts empty_acc)) with 0%nat in Hlen.
  simpl in Hlen. lia.
Qed.

Lemma pending_loop_one_attempt_per_row_witness :
  ∃ acc' s' n,
    pending_loop esi_down cfg0 "run1" 0
      [pending_row false false; pending_row false true] empty_acc init_state
    = (Ok acc', s')
    ∧ (n ≤ 2)%nat
    ∧ at_killmail_id <$> attempt_rows acc' = take n [77; 77]
    ∧ (length (enriched_rows acc') + length (discarded_rows acc')
       = length (ok_attempts acc'))%nat.
Proof.
  apply (pending_loop_one_attempt_per_row esi_down cfg0 "run1" 0
           [pending_row false false; pending_row false true] init_state).
  repeat constructor; by exists 77.
Defined.

(** X13. [kill_id = int(row["killmail_id"])] stands before the [try]: a
    pending row without a usable kill id makes the turn raise that
    exception, with no attempt recorded and no request made. *)
Theorem process_row_without_id_raises (env : Env) (cfg : Config) (rid : string)
    (row : json) (acc : Acc) (s : State) (e : exn) :
  row_id row = Raise e →
  process_row env cfg rid row acc s = (Raise e, s).
Proof.
  unfold row_id, process_row. intros H.
  destruct (getitem row "killmail_id") as [k|e0] eqn:Hk.
  - erewrite bind_ok; [|reflexivity]. simpl in H.
    apply bind_raise. unfold lift. by rewrite H.
  - simpl in H. injection H as <-. by apply bind_raise.
Qed.

Lemma process_row_without_id_raises_witness :
  process_row calm cfg0 "run1" (JObj [("killmail_hash", JStr "abc")]) empty_acc
    init_state
  = (Raise KeyError, init_state).
Proof.
  apply (process_row_without_id_raises calm cfg0 "run1"
           (JObj [("killmail_hash", JStr "abc")]) empty_acc init_state KeyError).
  reflexivity.
Defined.

Section Stage.
Context (env : Env) (rid : string).

Lemma stage_raw_rows pkgs acc s rows s' :
  stage_raw env rid pkgs acc s = (Ok rows, s') →
  ∃ new, rows = acc ++ new ∧ Forall2 (staged_from env rid) pkgs new.
Proof.
  revert acc s. induction pkgs as [|pkg rest IH]; intros acc s H; simpl in H.
  - apply ret_ok_inv in H as [-> _]. exists []. split; [by rewrite app_nil_r|constructor].
  - apply bind_ok_inv in H as (zkb & s0 & [Hz ->]%lift_ok_inv & H).
    apply bind_ok_inv in H as (kid & s0 & [Hkid ->]%lift_ok_inv & H).
    apply bind_ok_inv in H as (kill_id & s0 & [Hint ->]%lift_ok_inv & H).
    apply bind_ok_inv in H as (ts & s1 & _ & H).
    apply bind_ok_inv in H as (h & s0 & [_ ->]%lift_ok_inv & H).
    apply bind_ok_inv in H as (loc & s0 & [_ ->]%lift_ok_inv & H).
    apply bind_ok_inv in H as (labels & s0 & [_ ->]%lift_ok_inv & H).
    apply bind_ok_inv in H as (npc & s0 & [_ ->]%lift_ok_inv & H).
    apply bind_ok_inv in H as (awox & s0 & [_ ->]%lift_ok_inv & H).
    apply bind_ok_inv in H as (solo & s0 & [_ ->]%lift_ok_inv & H).
    apply bind_ok_inv in H as (href & s0 & [_ ->]%lift_ok_inv & H).
    apply IH in H as (new & -> & Hnew).
    eexists (_ :: new). split; [by rewrite <- app_assoc|].
    constructor; [|exact Hnew].
    unfold staged_from, pkg_id. simpl. by rewrite Hkid.
Qed.
End Stage.

(** X14. The staging of the polled packages, when it returns, appends one
    raw row per package, in the packages' order, with the package's
    [killID] as an integer, the run's id and the serialised package. *)
Theorem stage_raw_one_row_per_package (env : Env) (rid : string)
    (pkgs : list json) (s : State) (rows : list raw_rec) (s' : State) :
  stage_raw env rid pkgs [] s = (Ok rows, s') →
  Forall2 (staged_from env rid) pkgs rows ∧ length rows = length pkgs.
Proof.
  intros (new & -> & H)%stage_raw_rows. simpl.
  split; [exact H|]. symmetry. by eapply Forall2_length.
Qed.

Lemma stage_raw_one_row_per_package_witness :
  ∃ rows s',
    stage_raw calm "run1" [package1; package1] [] init_state = (Ok rows, s')
    ∧ Forall2 (staged_from calm "run1") [package1; package1] rows
    ∧ length rows = 2%nat.
Proof.
  destruct (stage_raw calm "run1" [package1; package1] [] init_state)
    as [[rows|e] s'] eqn:H; [|vm_compute in H; discriminate H].
  exists rows, s'. split; [reflexivity|].
  exact (stage_raw_one_row_per_package calm "run1" _ _ _ _ H).
Defined.

End Batches.


(** ** The filters and the stargate route *)

Module FilterFacts.
Import MonadFacts Observe EsiFacts ShipClassFacts.

Lemma num_eqb_nonzero m1 e1 m2 e2 :
  num_eqb (NFin m1 e1) (NFin m2 e2) = true → m2 ≠ 0 → m1 ≠ 0.
Proof.
  simpl. intros H%Z.eqb_eq Hm ->. rewrite Z.shiftl_0_l in H.
  symmetry in H. apply Z.shiftl_eq_0_iff in H; [done|lia].
Qed.

(** A value equal to a true one is true: [0 == x] fails for a true [x]. *)
Lemma py_eq_truthy c v : py_eq c v = true → truthy v = true → truthy c = true.
Proof.
  destruct c as [|[]|n|[| | |sg m e]|str|[|x xs]|[|kv kvs]],
           v as [|[]|n'|[| | |sg' m' e']|str'|[|x' xs']|[|kv' kvs']];
    try (simpl; done); try (intros H1 H2; reflexivity).
  all: intros H Ht.
  all: try (apply String.eqb_eq in H; by subst).
  all: pose proof (num_eqb_nonzero _ _ _ _ H) as Hnz.
  all: assert (∀ k : Z, k ≠ 0 → negb (k =? 0) = true) as Hneq
         by (intros k Hk; by destruct (Z.eqb_spec k 0)).
  all: try (exfalso; apply Hnz; [|reflexivity]).
  all: try (apply Hneq, Hnz).
  all: try (by destruct sg').
  all: try done.
  all: simpl in Ht; intros ->; done.
Qed.

End FilterFacts.

Module Filters.
Import MonadFacts Observe EsiFacts ShipClassFacts FilterFacts Kills Envs.

(** X15. A killmail that [is_self_destruct] accepts is one that [is_pvp]
    accepts: its only attacker carries the victim's character id, which is a
    true value.  So a self-destruct is never discarded by the first rule
    unless its npc flag is set, and the third rule is reachable. *)
Theorem self_destruct_is_pvp (km : json) :
  is_self_destruct km = Ok true → is_pvp km = Ok true.
Proof.
  unfold is_self_destruct, is_pvp. intros H.
  apply res_bind_ok_inv in H as (victim & _ & H).
  apply res_bind_ok_inv in H as (v_char & _ & H).
  apply res_bind_ok_inv in H as (att & Hatt & H).
  rewrite Hatt. simpl.
  destruct (truthy v_char) eqn:Hv; [|done]. simpl in H.
  apply res_bind_ok_inv in H as (n & Hlen & H).
  destruct (Nat.eqb_spec n 1) as [->|]; [|done]. simpl in H.
  apply res_bind_ok_inv in H as (a & Ha & H).
  apply res_bind_ok_inv in H as (c & Hc & [= Heq]).
  pose proof (py_eq_truthy _ _ Heq Hv) as Hct.
  destruct (py_or att (JArr [])) as [| | | |str|[|x [|y xs]]|kvs]; try done.
  - destruct str as [|ch str]; [done|]. injection Ha as <-. done.
  - injection Ha as <-. simpl. rewrite Hc. simpl. by rewrite Hct.
Qed.

Lemma self_destruct_is_pvp_witness :
  is_self_destruct km_self = Ok true ∧ is_pvp km_self = Ok true.
Proof.
  split; [reflexivity|]. apply (self_destruct_is_pvp km_self). reflexivity.
Defined.

(** X16. [stargate_route] asks the ESI only for a location whose integer
    lies in 50000000..59999999: for a false location ([None], 0, an empty
    string) or an integer outside the range it returns [None] at once, with
    no request and no change of state. *)
Theorem stargate_route_outside_range (env : Env) (ua : string) (loc : json)
    (s : State) :
  (truthy loc = false
   ∨ ∃ n, int loc = Ok n ∧ ¬ (50000000 ≤ n ≤ 59999999)) →
  stargate_route env ua loc s = (Ok JNull, s).
Proof.
  unfold stargate_route. intros [->|(n & Hn & Hr)]; [done|].
  destruct (truthy loc); [|done]. simpl.
  erewrite bind_ok; [|by rewrite Hn].
  unfold in_stargate_range.
  destruct (Z.leb_spec 50000000 n), (Z.leb_spec n 59999999); simpl; try done.
  lia.
Qed.

Lemma stargate_route_outside_range_witness :
  stargate_route esi_down "EOU/0.1" (JInt 40000001) init_state
  = (Ok JNull, init_state).
Proof.
  apply (stargate_route_outside_range esi_down "EOU/0.1" (JInt 40000001) init_state).
  right. exists 40000001. split; [reflexivity|lia].
Defined.

End Filters.


(** ** The two pollers *)

Module PollFacts.
Import MonadFacts Observe EsiFacts ShipClassFacts.

Lemma gets_app a b : gets (a ++ b) = gets a ++ gets b.
Proof. unfold gets. apply omap_app. Qed.

Lemma written_lines_app path a b :
  Admin.written_lines path (a ++ b)
  = Admin.written_lines path a ++ Admin.written_lines path b.
Proof. unfold Admin.written_lines. apply omap_app. Qed.

Section Listen.
Context (env : Env) (q : string) (ttw : Z) (ua : string).

Lemma listen_loop_bounded n out s res s' :
  listen_loop env q ttw ua n out s = (res, s') →
  ∃ evs, trace s' = trace s ++ evs
         ∧ (length (gets evs) ≤ n)%nat
         ∧ Forall (λ u, u = REDISQ_BASE) (gets evs)
         ∧ ∀ pkgs, res = Ok pkgs →
             ∃ new, pkgs = out ++ new
                    ∧ (length new ≤ length (gets evs))%nat
                    ∧ Forall (λ p, truthy p = true) new.
Proof.
  revert out s. induction n as [|n IH]; intros out s H; simpl in H.
  - apply ret_inv in H as [-> ->]. exists []. rewrite app_nil_r.
    split; [done|]. split; [simpl; lia|]. split; [constructor|].
    intros pkgs [= <-]. exists []. rewrite app_nil_r. simpl. by repeat split.
  - apply bind_inv in H as [(r & s1 & Hget & H)|(e & Hget & ->)]; cycle 1.
    { injection Hget as _ <-. eexists [_]. split; [reflexivity|].
      split; [simpl; lia|]. split; [by repeat constructor|]. done. }
    injection Hget as Hr <-.
    set (ev := EvGet _ _ _ _) in *.
    assert (∀ s2 res2 evs2,
              trace s2 = trace (emit ev s) ++ evs2 →
              (length (gets evs2) ≤ n)%nat →
              Forall (λ u, u = REDISQ_BASE) (gets evs2) →
              (∀ pkgs, res2 = Ok pkgs →
                 ∃ new, pkgs = out ++ new
                        ∧ (length new ≤ S (length (gets evs2)))%nat
                        ∧ Forall (λ p, truthy p = true) new) →
              ∃ evs, trace s2 = trace s ++ evs
                     ∧ (length (gets evs) ≤ S n)%nat
                     ∧ Forall (λ u, u = REDISQ_BASE) (gets evs)
                     ∧ ∀ pkgs, res2 = Ok pkgs →
                         ∃ new, pkgs = out ++ new
                                ∧ (length new ≤ length (gets evs))%nat
                                ∧ Forall (λ p, truthy p = true) new) as Hstep.
    { intros s2 res2 evs2 Ht Hlen Hall Hp. exists (ev :: evs2).
      split; [by rewrite Ht; simpl; rewrite <- app_assoc|].
      split; [simpl; lia|]. split; [by constructor|]. exact Hp. }
    destruct (status_code r =? 429).
    + apply bind_inv in H as [([] & s2 & Hsl & H)|(e & [=] & _)].
      injection Hsl as <-.
      apply IH in H as (evs & Ht & Hlen & Hall & Hp).
      apply (Hstep _ _ (EvSleep 1 :: evs));
        [by rewrite Ht; simpl; rewrite <- app_assoc|exact Hlen|exact Hall|].
      intros pkgs Hres. destruct (Hp _ Hres) as (new & -> & Hn & Hf).
      exists new. split; [done|]. split; [simpl in *; lia|done].
    + assert (∀ e, (res, s') = (Raise e, emit ev s) →
                ∃ evs, trace s' = trace s ++ evs
                       ∧ (length (gets evs) ≤ S n)%nat
                       ∧ Forall (λ u, u = REDISQ_BASE) (gets evs)
                       ∧ ∀ pkgs, res = Ok pkgs →
                           ∃ new, pkgs = out ++ new
                                  ∧ (length new ≤ length (gets evs))%nat
                                  ∧ Forall (λ p, truthy p = true) new) as Hfail.
      { intros e [= -> ->].
        apply (Hstep _ _ []);
          first [done | by rewrite app_nil_r | simpl; lia | constructor]. }
      apply bind_inv in H as [([] & s2 & [_ ->]%lift_inv & H)|(e & [He ->]%lift_inv & ->)];
        [|by eapply Hfail].
      apply bind_inv in H as [(j & s2 & [_ ->]%lift_inv & H)|(e & [He ->]%lift_inv & ->)];
        [|by eapply Hfail].
      apply bind_inv in H as [(pkg & s2 & [_ ->]%lift_inv & H)|(e & [He ->]%lift_inv & ->)];
        [|by eapply Hfail].
      destruct (truthy pkg) eqn:Hpkg; simpl in H.
      * apply bind_inv in H as [([] & s2 & Hsl & H)|(e & [=] & _)].
        injection Hsl as <-.
        apply IH in H as (evs & Ht & Hlen & Hall & Hp).
        apply (Hstep _ _ (EvSleep (55 # 100) :: evs));
          [by rewrite Ht; simpl; rewrite <- app_assoc|exact Hlen|exact Hall|].
        intros pkgs Hres. destruct (Hp _ Hres) as (new & -> & Hn & Hf).
        exists (pkg :: new). split; [by rewrite <- app_assoc|].
        split; [simpl in *; lia|by constructor].
      * apply ret_inv in H as [-> ->].
        apply (Hstep _ _ []);
          [by rewrite app_nil_r|simpl; lia|constructor|].
        intros pkgs [= <-]. exists []. rewrite app_nil_r.
        split; [done|]. split; [simpl; lia|constructor].
Qed.
End Listen.

Section Poll.
Context (env : Env) (q : string) (ttw : Z) (out_file : string).

Lemma make_row_silent pkg s r s' :
  RqListener.make_row env pkg s = (r, s') →
  ∃ evs, trace s' = trace s ++ evs ∧ gets evs = []
         ∧ Admin.written_lines out_file evs = [].
Proof.
  intros H.
  assert (Order.emits (λ e, match e with EvNowIso _ => True | _ => False end)
            (RqListener.make_row env pkg)) as Hq.
  { unfold RqListener.make_row. TraceFacts.emits. }
  destruct (Hq _ _ _ H) as (evs & Ht & Hall). exists evs. split; [done|].
  clear -Hall. induction Hall as [|e evs He _ IH]; [done|].
  destruct e; done.
Qed.

Lemma poll_get s (r : Res (option response)) s1 :
  try_except
    (Some <$> requests_get env RqListener.REDISQ_URL
                [("queueID", q); ("ttw", pretty ttw)] [])
    (λ e, match e with
          | RequestException _ => mret None
          | _ => raise e
          end) s = (r, s1) →
  ∃ x, s1 = emit (EvGet RqListener.REDISQ_URL
                    [("queueID", q); ("ttw", pretty ttw)] [] x) s.
Proof.
  unfold try_except, fmap, M_fmap, requests_get.
  destruct (http_get env (trace s) _ _ _) as [resp|e]; simpl.
  - intros [= <- <-]. eauto.
  - destruct e; intros [= <- <-]; eauto.
Qed.

Lemma poll_loop_bounded n got s res s' :
  RqListener.poll_loop env q ttw out_file n got s = (res, s') →
  ∃ evs, trace s' = trace s ++ evs
         ∧ (length (gets evs) ≤ n)%nat
         ∧ (length (Admin.written_lines out_file evs) ≤ length (gets evs))%nat
         ∧ ∀ got', res = Ok got' →
             got' = (got + length (Admin.written_lines out_file evs))%nat.
Proof.
  revert got s. induction n as [|n IH]; intros got s H; simpl in H.
  - apply ret_inv in H as [-> ->]. exists []. rewrite app_nil_r.
    split; [done|]. split; [simpl; lia|]. split; [simpl; lia|].
    intros got' [= <-]. simpl. lia.
  - set (ev := λ r, EvGet RqListener.REDISQ_URL
                      [("queueID", q); ("ttw", pretty ttw)] [] r) in *.
    assert (∀ x evs2 s2 (res2 : Res nat),
              trace s2 = trace (emit (ev x) s) ++ evs2 →
              (length (gets evs2) ≤ n)%nat →
              (length (Admin.written_lines out_file evs2)
               ≤ S (length (gets evs2)))%nat →
              (∀ got', res2 = Ok got' →
                 got' = (got + length (Admin.written_lines out_file evs2))%nat) →
              ∃ evs, trace s2 = trace s ++ evs
                     ∧ (length (gets evs) ≤ S n)%nat
                     ∧ (length (Admin.written_lines out_file evs)
                        ≤ length (gets evs))%nat
                     ∧ ∀ got', res2 = Ok got' →
                         got' = (got + length (Admin.written_lines out_file evs))%nat)
      as Hstep.
    { intros x evs2 s2 res2 Ht Hlen Hw Hg. exists (ev x :: evs2).
      split; [by rewrite Ht; simpl; rewrite <- app_assoc|].
      split; [simpl; lia|]. split; [simpl; lia|]. exact Hg. }
    assert (∀ x (res2 : Res nat),
              (∀ got', res2 = Ok got' → got' = got) →
              ∃ evs, trace (emit (ev x) s) = trace s ++ evs
                     ∧ (length (gets evs) ≤ S n)%nat
                     ∧ (length (Admin.written_lines out_file evs)
                        ≤ length (gets evs))%nat
                     ∧ ∀ got', res2 = Ok got' →
                         got' = (got + length (Admin.written_lines out_file evs))%nat)
      as Hstop.
    { intros x res2 Hg. apply (Hstep x []); try done.
      - by rewrite app_nil_r.
      - simpl; lia.
      - simpl; lia.
      - intros got' Hres. rewrite (Hg _ Hres). simpl. lia. }
    apply bind_inv in H as [(r & s1 & Htry & H)|(e & Htry & ->)]; cycle 1.
    { apply poll_get in Htry as [x ->]. by apply Hstop. }
    apply poll_get in Htry as [x ->].
    destruct r as [r|]; [|apply ret_inv in H as [-> ->]; apply Hstop; by intros ? [= <-]].
    destruct (status_code r =? 429);
      [apply ret_inv in H as [-> ->]; apply Hstop; by intros ? [= <-]|].
    destruct (negb (status_code r =? 200));
      [apply ret_inv in H as [-> ->]; apply Hstop; by intros ? [= <-]|].
    apply bind_inv in H as [(j & s2 & [_ ->]%lift_inv & H)|(e & [He ->]%lift_inv & ->)];
      [|by apply Hstop].
    apply bind_inv in H as [(pkg & s2 & [_ ->]%lift_inv & H)|(e & [He ->]%lift_inv & ->)];
      [|by apply Hstop].
    destruct (negb (truthy pkg)).
    { apply IH in H as (evs & Ht & Hlen & Hw & Hg).
      apply (Hstep x evs); try done. lia. }
    apply bind_inv in H as [(row & s2 & Hrow & H)|(e & Hrow & ->)]; cycle 1.
    { apply make_row_silent in Hrow as (evs & Ht & Hg0 & Hw0).
      apply (Hstep x evs); try done.
      - rewrite Hg0. simpl. lia.
      - rewrite Hw0. simpl. lia. }
    apply make_row_silent in Hrow as (evs1 & Ht1 & Hg1 & Hw1).
    destruct row as [row|].
    + apply bind_inv in H as [([] & s3 & Hwl & H)|(e & [=] & _)].
      injection Hwl as <-.
      apply IH in H as (evs & Ht & Hlen & Hw & Hg).
      apply (Hstep x (evs1 ++ EvWriteLine out_file
                                 (json_dumps_unicode env row +:+ newline) :: evs)).
      * rewrite Ht, trace_emit, Ht1, <- !app_assoc. reflexivity.
      * rewrite gets_app, Hg1. simpl. exact Hlen.
      * rewrite written_lines_app, Hw1, gets_app, Hg1. simpl.
        rewrite String.eqb_refl. simpl. lia.
      * intros got' Hres. rewrite (Hg _ Hres).
        rewrite written_lines_app, Hw1. simpl. rewrite String.eqb_refl. simpl. lia.
    + apply IH in H as (evs & Ht & Hlen & Hw & Hg).
      apply (Hstep x (evs1 ++ evs)).
      * rewrite Ht, Ht1, <- !app_assoc. reflexivity.
      * rewrite gets_app, Hg1. exact Hlen.
      * rewrite written_lines_app, Hw1, gets_app, Hg1. simpl. lia.
      * intros got' Hres. rewrite (Hg _ Hres).
        by rewrite written_lines_app, Hw1.
Qed.
End Poll.
End PollFacts.

Module Polls.
Import MonadFacts Observe EsiFacts ShipClassFacts PollFacts Envs.

(** X17. [redisq_listen] makes at most [max_polls] requests, all to the
    RedisQ address (none when [max_polls] is zero or negative); what it
    returns holds at most one package per request, and every package is a
    true value (an answer without a package is never appended). *)
Theorem redisq_listen_bounded (env : Env) (q : string) (ttw : Z) (ua : string)
    (max_polls : Z) (s : State) (res : Res (list json)) (s' : State) :
  redisq_listen env q ttw ua max_polls s = (res, s') →
  ∃ evs, trace s' = trace s ++ evs
         ∧ (length (gets evs) ≤ Z.to_nat max_polls)%nat
         ∧ Forall (λ u, u = REDISQ_BASE) (gets evs)
         ∧ ∀ pkgs, res = Ok pkgs →
             (length pkgs ≤ length (gets evs))%nat
             ∧ Forall (λ p, truthy p = true) pkgs.
Proof.
  unfold redisq_listen.
  intros (evs & Ht & Hlen & Hall & Hp)%listen_loop_bounded.
  exists evs. split; [done|]. split; [done|]. split; [done|].
  intros pkgs Hres. destruct (Hp _ Hres) as (new & -> & Hn & Hf). by split.
Qed.

Lemma redisq_listen_bounded_witness :
  ∃ res s' evs,
    redisq_listen queue_once "eou_orch_main" 10 "EOU/0.1" 4 init_state = (res, s')
    ∧ trace s' = [] ++ evs
    ∧ (length (gets evs) ≤ 4)%nat
    ∧ res = Ok [package1].
Proof.
  destruct (redisq_listen queue_once "eou_orch_main" 10 "EOU/0.1" 4 init_state)
    as [res s'] eqn:H.
  destruct (redisq_listen_bounded _ _ _ _ _ _ _ _ H) as (evs & Ht & Hlen & _).
  exists res, s', evs. split; [reflexivity|]. split; [exact Ht|].
  split; [exact Hlen|]. vm_compute in H. by injection H as <- _.
Defined.

(** X18. The stand-alone listener makes at most [max_packages] requests,
    writes at most one line per request to its output file, and the count
    it reports is the number of lines it wrote. *)
Theorem poll_loop_counts_lines (env : Env) (q : string) (ttw : Z)
    (out_file : string) (max_packages : nat) (s : State) (res : Res nat)
    (s' : State) :
  RqListener.poll_loop env q ttw out_file max_packages 0 s = (res, s') →
  ∃ evs, trace s' = trace s ++ evs
         ∧ (length (gets evs) ≤ max_packages)%nat
         ∧ (length (Admin.written_lines out_file evs) ≤ length (gets evs))%nat
         ∧ ∀ got, res = Ok got →
             got = length (Admin.written_lines out_file evs).
Proof.
  intros (evs & Ht & Hlen & Hw & Hg)%poll_loop_bounded.
  exists evs. split; [done|]. split; [done|]. split; [done|].
  intros got Hres. by rewrite (Hg _ Hres).
Qed.

Lemma poll_loop_counts_lines_witness :
  ∃ res s' evs,
    RqListener.poll_loop queue_empty "q1" 10 "out.ndjson" 3 0 init_state = (res, s')
    ∧ trace s' = [] ++ evs
    ∧ (length (gets evs) ≤ 3)%nat
    ∧ res = Ok 0%nat.
Proof.
  destruct (RqListener.poll_loop queue_empty "q1" 10 "out.ndjson" 3 0 init_state)
    as [res s'] eqn:H.
  destruct (poll_loop_counts_lines _ _ _ _ _ _ _ _ H) as (evs & Ht & Hlen & _).
  exists res, s', evs. split; [reflexivity|]. split; [exact Ht|].
  split; [exact Hlen|]. vm_compute in H. by injection H as <- _.
Defined.

End Polls.


(** ** Tables, the view and the maintenance mode *)

Module AdminFacts.
Import MonadFacts Observe EsiFacts ShipClassFacts Pipeline Admin Order TraceFacts.

Lemma mk_only_missing_nil : mk_only_missing [].
Proof. intros before t sp f c r after H. by destruct before. Qed.

Lemma mk_only_missing_one e : ¬ is_mk e → mk_only_missing [e].
Proof.
  intros He before t sp f c r after H.
  destruct before as [|x [|y before]]; simplify_eq/=. by destruct He.
Qed.

(** Two runs in a row, the second of which does not open with a [bq mk]. *)
Lemma mk_only_missing_app a b :
  mk_only_missing a → mk_only_missing b →
  match b with e :: _ => ¬ is_mk e | [] => True end →
  mk_only_missing (a ++ b).
Proof.
  intros Ha Hb Hs before t sp f c r after H.
  apply app_eq_inv in H as [(k & -> & Hk)|(k & -> & ->)].
  - destruct k as [|x k]; simpl in Hk.
    + subst b. by destruct Hs.
    + injection Hk as <- ->. by eapply Ha.
  - destruct (Hb _ _ _ _ _ _ _ eq_refl) as (before' & e & -> & He).
    exists (a ++ before'), e. by rewrite app_assoc.
Qed.

Section Admin.
Context (env : Env).

Lemma bq_exists_spec table s r s1 :
  bq_exists env table s = (r, s1) →
  ∃ x, s1 = emit (EvSh (BqShow table) x) s
       ∧ (r = Ok false → ∃ code, x = Raise (CalledProcessError code)).
Proof.
  unfold bq_exists, try_except, sh, mbind, M_bind.
  destruct (run_sh env (trace s) (BqShow table)) as [out|e]; simpl.
  - intros [= <- <-]. eexists. split; [reflexivity|]. done.
  - destruct e; intros [= <- <-]; eexists; (split; [reflexivity|]); try done.
    intros _. eauto.
Qed.

Lemma ensure_table_events table field s r s' :
  ensure_table env table field s = (r, s') →
  ∃ evs e, trace s' = trace s ++ e :: evs ∧ ¬ is_mk e
           ∧ mk_only_missing (e :: evs).
Proof.
  unfold ensure_table. intros H.
  apply bind_inv in H as [(ex & s1 & Hex & H)|(e & Hex & ->)]; cycle 1.
  { apply bq_exists_spec in Hex as (x & -> & _). eexists [], _.
    split; [reflexivity|]. split; [by intros []|].
    apply mk_only_missing_one. by intros []. }
  apply bq_exists_spec in Hex as (x & -> & Hx).
  destruct ex.
  { apply ret_inv in H as [_ ->]. eexists [], _.
    split; [reflexivity|]. split; [by intros []|].
    apply mk_only_missing_one. by intros []. }
  destruct (Hx eq_refl) as [code ->].
  unfold bq_mk_table, sh, mbind, M_bind in H.
  set (s1 := emit _ s) in *.
  set (ans := run_sh env (trace s1) _) in *.
  exists [EvSh (BqMk table ("schemas/" +:+ table +:+ ".json") field ["killmail_id"]) ans],
    (EvSh (BqShow table) (Raise (CalledProcessError code))).
  split; [|split; [by intros []|]].
  - destruct ans; injection H as _ <-; simpl; by rewrite <- app_assoc.
  - intros before t sp f c r0 after Heq.
    destruct before as [|x [|y before]]; simplify_eq/=.
    + eexists [], _. split; [done|]. by eexists.
    + by destruct before.
Qed.

Lemma ensure_bq_objects_only_missing s r s' :
  ensure_bq_objects env s = (r, s') →
  ∃ evs, trace s' = trace s ++ evs ∧ mk_only_missing evs.
Proof.
  unfold ensure_bq_objects. intros H.
  assert (∀ {A} (m : M A) t f s0 evs0 s1 r1,
            trace s0 = trace s ++ evs0 → mk_only_missing evs0 →
            (ensure_table env t f ≫= λ _, m) s0 = (r1, s1) →
            (∃ evs, trace s1 = trace s ++ evs ∧ mk_only_missing evs)
            ∨ ∃ s2 evs2, trace s2 = trace s ++ evs2 ∧ mk_only_missing evs2
                         ∧ m s2 = (r1, s1)) as Hstep.
  { intros A m t f s0 evs0 s1 r1 Ht Hk Hrun.
    apply bind_inv in Hrun as [([] & s2 & He & Hm)|(e & He & ->)];
      apply ensure_table_events in He as (evs & e0 & Hte & Hne & Hmk).
    - right. exists s2, (evs0 ++ e0 :: evs). split; [by rewrite Hte, Ht, app_assoc|].
      split; [|done]. by apply mk_only_missing_app.
    - left. exists (evs0 ++ e0 :: evs). split; [by rewrite Hte, Ht, app_assoc|].
      by apply mk_only_missing_app. }
  apply (Hstep _ _ _ _ s []) in H as [?|(s1 & e1 & Ht1 & Hk1 & H)];
    [done| |by rewrite app_nil_r|apply mk_only_missing_nil].
  apply (Hstep _ _ _ _ _ _ _ _ Ht1 Hk1) in H as [?|(s2 & e2 & Ht2 & Hk2 & H)]; [done|].
  apply (Hstep _ _ _ _ _ _ _ _ Ht2 Hk2) in H as [?|(s3 & e3 & Ht3 & Hk3 & H)]; [done|].
  apply (Hstep _ _ _ _ _ _ _ _ Ht3 Hk3) in H as [?|(s4 & e4 & Ht4 & Hk4 & H)]; [done|].
  unfold bq_query, sh, mbind, M_bind in H.
  exists (e4 ++ [EvSh (BqQuery SqlCreateView) (run_sh env (trace s4) (BqQuery SqlCreateView))]).
  split.
  - destruct (run_sh env (trace s4) _); injection H as _ <-; simpl;
      by rewrite Ht4, app_assoc.
  - apply mk_only_missing_app; [done| |by intros []].
    apply mk_only_missing_one. by intros [].
Qed.

Lemma admin_ensure_bq_objects : emits admin_only (ensure_bq_objects env).
Proof.
  unfold ensure_bq_objects, ensure_table, bq_exists, bq_mk_table, bq_query. emits.
Qed.

Lemma admin_maintenance : emits admin_only (maintenance env).
Proof. unfold maintenance, bq_query. emits. Qed.

Lemma queries_app a b : queries (a ++ b) = queries a ++ queries b.
Proof. unfold queries. apply omap_app. Qed.

Lemma bq_query_ok q s s' :
  bq_query env q s = (Ok tt, s') →
  ∃ out, trace s' = trace s ++ [EvSh (BqQuery q) (Ok out)].
Proof.
  unfold bq_query, sh, mbind, M_bind.
  destruct (run_sh env (trace s) (BqQuery q)) as [out|e]; [|done].
  intros [= <-]. eauto.
Qed.

Lemma maintenance_queries s s' :
  maintenance env s = (Ok tt, s') →
  ∃ evs, trace s' = trace s ++ evs
         ∧ queries evs
           = [SqlRebuildEnriched; SqlRawState; SqlCompact "redisq_raw_log";
              SqlCompact "enrich_attempts_log"; SqlCompact "kills_enriched_log";
              SqlCompact "kills_discarded_log"].
Proof.
  unfold maintenance. intros H.
  apply bind_ok_inv in H as ([] & s1 & (o1 & H1)%bq_query_ok & H).
  apply bind_ok_inv in H as ([] & s2 & (o2 & H2)%bq_query_ok & H).
  apply bind_ok_inv in H as ([] & s3 & (o3 & H3)%bq_query_ok & H).
  apply bind_ok_inv in H as ([] & s4 & (o4 & H4)%bq_query_ok & H).
  apply bind_ok_inv in H as ([] & s5 & (o5 & H5)%bq_query_ok & H).
  apply bq_query_ok in H as (o6 & H6).
  eexists. split.
  - rewrite H6, H5, H4, H3, H2, H1, <- !app_assoc. reflexivity.
  - reflexivity.
Qed.

End Admin.
End AdminFacts.

Module AdminRuns.
Import MonadFacts Observe EsiFacts ShipClassFacts Pipeline Admin Order TraceFacts
  AdminFacts Envs Kills.

(** X19. [ensure_bq_objects] creates only what is missing: every [bq mk] of
    a table comes directly after a [bq show] of that very table that failed
    with a non-zero exit status.  A table whose [bq show] succeeds is left
    alone, and any other failure of [bq show] ends the run. *)
Theorem ensure_bq_objects_creates_only_missing (env : Env) (s : State)
    (r : Res unit) (s' : State) :
  ensure_bq_objects env s = (r, s') →
  ∃ evs, trace s' = trace s ++ evs ∧ mk_only_missing evs.
Proof. apply ensure_bq_objects_only_missing. Qed.

Lemma ensure_bq_objects_creates_only_missing_witness :
  let env := with_sh (λ _ cmd, match cmd with
                               | BqShow "kills_enriched_log" =>
                                   Raise (CalledProcessError 2)
                               | _ => Ok ""
                               end) calm in
  ∃ s' evs,
    ensure_bq_objects env init_state = (Ok tt, s')
    ∧ trace s' = [] ++ evs ∧ mk_only_missing evs
    ∧ Exists is_mk evs.
Proof.
  intros env.
  destruct (ensure_bq_objects env init_state) as [r s'] eqn:H.
  destruct (ensure_bq_objects_creates_only_missing env init_state r s' H)
    as (evs & Ht & Hmk).
  exists s', evs. vm_compute in H. injection H as <- <-.
  split; [reflexivity|]. split; [exact Ht|]. split; [exact Hmk|].
  simpl in Ht. rewrite <- Ht. do 3 apply Exists_cons_tl. by apply Exists_cons_hd.
Defined.

(** X20. In maintenance mode a run only reads the clock, runs [bq show],
    [bq mk] and [bq query], and prints: it polls no queue, asks the ESI
    nothing, posts nothing to the Ledger, writes no file and loads nothing.
    When it ends normally its last statements were the rebuild of
    [kills_enriched], the copy of the view and the four compactions, in that
    order. *)
Theorem maintenance_run_only_queries (env : Env) (cfg : Config) (rid : string)
    (s : State) (r : Res unit) (s' : State) :
  mode cfg = "maintenance" →
  main env cfg rid s = (r, s') →
  ∃ evs, trace s' = trace s ++ evs
         ∧ Forall admin_only evs
         ∧ (r = Ok tt →
            ∃ before, queries evs
              = before ++
                [SqlRebuildEnriched; SqlRawState; SqlCompact "redisq_raw_log";
                 SqlCompact "enrich_attempts_log"; SqlCompact "kills_enriched_log";
                 SqlCompact "kills_discarded_log"]).
Proof.
  intros Hmode H. unfold main in H. rewrite Hmode in H. simpl in H.
  assert (emits admin_only
            (start ← time_time env;
             ensure_bq_objects env;; maintenance env;; print "maintenance done"))
    as Hq.
  { apply emits_bind; [by apply emits_time|intros].
    apply emits_bind; [apply admin_ensure_bq_objects|intros].
    apply emits_bind; [apply admin_maintenance|intros]. by apply emits_print. }
  destruct (Hq _ _ _ H) as (evs & Ht & Hall).
  exists evs. split; [done|]. split; [done|].
  intros ->.
  apply bind_ok_inv in H as (start & s1 & Hs1 & H).
  apply bind_ok_inv in H as ([] & s2 & He & H).
  apply bind_ok_inv in H as ([] & s3 & Hm & H).
  injection H as <-.
  apply maintenance_queries in Hm as (em & Htm & Hqm).
  destruct (admin_ensure_bq_objects env _ _ _ He) as (ee & Hte & _).
  unfold time_time in Hs1. injection Hs1 as <- <-.
  assert (evs = [EvTime (clock env (trace s))] ++ ee ++ em
                ++ [EvPrint "maintenance done"]) as ->.
  { apply (app_inv_head (trace s)). rewrite <- Ht. simpl.
    rewrite Htm, Hte, trace_emit, <- !app_assoc. reflexivity. }
  exists (queries ee). rewrite !queries_app, Hqm. reflexivity.
Qed.

Lemma maintenance_run_only_queries_witness :
  let cfg := {| mode := "maintenance"; cfg_ledger_url := "https://ledger.example/exec";
                cfg_ledger_secret := "s3"; user_agent := "EOU/0.1";
                queue_id := "q"; max_seconds := 50; max_polls := 4;
                max_enrich := 10 |} in
  ∃ r s' evs,
    main queue_once cfg "run1" init_state = (r, s')
    ∧ trace s' = [] ++ evs ∧ Forall admin_only evs ∧ gets evs = [].
Proof.
  intros cfg.
  destruct (main queue_once cfg "run1" init_state) as [r s'] eqn:H.
  destruct (maintenance_run_only_queries queue_once cfg "run1" init_state r s'
              eq_refl H) as (evs & Ht & Hall & _).
  exists r, s', evs. split; [reflexivity|]. split; [exact Ht|]. split; [exact Hall|].
  simpl in Ht. rewrite <- Ht. vm_compute in H. by injection H as _ <-.
Defined.

End AdminRuns.


(** ** The shape of the batches *)

Module BatchShape.
Import MonadFacts Observe LedgerFacts Order Pipeline TraceFacts OrderFacts Admin
  Envs Kills.

Lemma reads_only_nonempty rid e : reads_only e → nonempty_batch rid e.
Proof. by destruct e. Qed.

Section Shape.
Context (env : Env) (rid : string).

Lemma nonempty_append c stream lines :
  lines ≠ [] → emits (nonempty_batch rid) (append env c stream rid lines).
Proof.
  intros Hne s r s' (more & Ht & Hall & _)%append_phase.
  exists more. split; [done|]. eapply Forall_impl; [exact Hall|].
  intros e [(q & ->)|(r0 & ->)]; simpl; [done|]. eauto.
Qed.

Lemma nonempty_ledger_batch {A} c (to_dict : A → json) rows stream :
  emits (nonempty_batch rid) (ledger_batch env rid c to_dict rows stream).
Proof.
  unfold ledger_batch. destruct rows as [|x rows]; [apply emits_ret|].
  by apply nonempty_append.
Qed.

Lemma nonempty_store_load {A} (to_dict : A → json) rows table path :
  rows ≠ [] → emits (nonempty_batch rid) (store_load env to_dict rows table path).
Proof.
  intros Hne. unfold store_load, bq_load_ndjson.
  apply emits_bind; [|intros; apply emits_bind; [by apply emits_sh|intros; apply emits_ret]].
  apply RunOrder.emits_write. intros r0. simpl. by destruct rows.
Qed.

Lemma nonempty_store_batch {A} (to_dict : A → json) rows table file :
  emits (nonempty_batch rid) (store_batch env rid to_dict rows table file).
Proof.
  unfold store_batch. destruct rows as [|x rows]; [apply emits_ret|].
  by apply nonempty_store_load.
Qed.

Lemma nonempty_tick cfg start ledger :
  emits (nonempty_batch rid) (tick env cfg rid start ledger).
Proof.
  unfold tick, redisq_listen, process_pending, ledger_results, store_results.
  apply emits_bind;
    [eapply emits_weaken; [apply reads_only_nonempty|apply reads_listen_loop]
    |intros pkgs].
  apply emits_bind;
    [eapply emits_weaken; [apply reads_only_nonempty|apply reads_stage_raw]
    |intros raw_rows].
  apply emits_bind.
  { unfold ledger_raw. destruct raw_rows as [|x rows], ledger as [c|];
      try apply emits_ret. by apply nonempty_append. }
  intros _. apply emits_bind.
  { unfold store_raw. destruct raw_rows as [|x rows]; [apply emits_ret|].
    by apply nonempty_store_load. }
  intros _. apply emits_bind; [|intros [n acc]; by apply emits_print].
  apply emits_bind;
    [eapply emits_weaken; [apply reads_only_nonempty|apply reads_choose_pending]
    |intros].
  apply emits_bind; [apply emits_new_esi|intros].
  apply emits_bind; [apply emits_lift|intros rows].
  apply emits_bind;
    [eapply emits_weaken; [apply reads_only_nonempty|apply reads_pending_loop]
    |intros acc].
  apply emits_bind.
  { destruct ledger as [c|]; [|apply emits_ret].
    apply emits_bind; [apply nonempty_ledger_batch|intros].
    apply emits_bind; [apply nonempty_ledger_batch|intros].
    apply nonempty_ledger_batch. }
  intros _. apply emits_bind; [|intros; apply emits_ret].
  apply emits_bind; [apply nonempty_store_batch|intros].
  apply emits_bind; [apply nonempty_store_batch|intros].
  apply nonempty_store_batch.
Qed.
End Shape.
End BatchShape.

Module Batching.
Import MonadFacts Observe LedgerFacts Order Pipeline TraceFacts OrderFacts Admin
  BatchShape Envs Kills.

(** X21. A run never sends or stores an empty batch: every POST to the
    Ledger carries at least one line, and every file written for a load has
    at least one line.  A tick with nothing polled and nothing pending
    therefore posts nothing and writes nothing. *)
Theorem no_empty_batch (env : Env) (cfg : Config) (rid : string) (s : State)
    (r : Res unit) (s' : State) :
  main env cfg rid s = (r, s') →
  ∃ evs, trace s' = trace s ++ evs ∧ Forall (nonempty_batch rid) evs.
Proof.
  revert s r s'. change (emits (nonempty_batch rid) (main env cfg rid)).
  unfold main.
  apply emits_bind; [by apply emits_time|intros start].
  apply emits_bind;
    [eapply emits_weaken; [apply reads_only_nonempty|apply reads_ensure_bq_objects]
    |intros].
  destruct (mode cfg =? "maintenance")%string.
  - apply emits_bind;
      [eapply emits_weaken; [apply reads_only_nonempty|apply reads_maintenance]
      |intros].
    by apply emits_print.
  - apply nonempty_tick.
Qed.

Lemma no_empty_batch_witness :
  ∃ r s' evs,
    main queue_once cfg1 "run1" init_state = (r, s')
    ∧ trace s' = [] ++ evs
    ∧ Forall (nonempty_batch "run1") evs
    ∧ Exists (λ e, ¬ no_post e) evs.
Proof.
  destruct (main queue_once cfg1 "run1" init_state) as [r s'] eqn:H.
  destruct (no_empty_batch queue_once cfg1 "run1" init_state r s' H)
    as (evs & Ht & Hall).
  exists r, s', evs. split; [reflexivity|]. split; [exact Ht|]. split; [exact Hall|].
  simpl in Ht. rewrite <- Ht. vm_compute in H. injection H as _ <-.
  do 10 apply Exists_cons_tl. apply Exists_cons_hd.
  by intros [].
Defined.

End Batching.


(** ** The statements of the maintenance mode *)

Module MaintenanceFacts.
Import Store StoreFacts.

Lemma latest_by_in {A} (ts : A → Z) best l :
  latest_by ts best l ∈ best :: l.
Proof.
  revert best. induction l as [|x l IH]; intros best; simpl.
  - by apply list_elem_of_singleton.
  - specialize (IH (if ts best <? ts x then x else best)).
    apply elem_of_cons in IH as [->|IH].
    + destruct (ts best <? ts x); [apply elem_of_cons; right|]; apply elem_of_cons; by left.
    + do 2 (apply elem_of_cons; right). done.
Qed.

Lemma latest_by_max {A} (ts : A → Z) best l x :
  x ∈ best :: l → ts x ≤ ts (latest_by ts best l).
Proof.
  revert best x. induction l as [|y l IH]; intros best x Hx; simpl.
  - apply list_elem_of_singleton in Hx as ->. lia.
  - assert (ts best ≤ ts (if ts best <? ts y then y else best)
            ∧ ts y ≤ ts (if ts best <? ts y then y else best)) as [Hb Hy].
    { destruct (Z.ltb_spec (ts best) (ts y)); lia. }
    apply elem_of_cons in Hx as [->|Hx].
    + etrans; [exact Hb|]. apply IH. apply elem_of_cons. by left.
    + apply elem_of_cons in Hx as [->|Hx].
      * etrans; [exact Hy|]. apply IH. apply elem_of_cons. by left.
      * apply IH. apply elem_of_cons. by right.
Qed.

Lemma latest_per_id_spec fuel rows r :
  r ∈ latest_per_id fuel rows →
  r ∈ rows
  ∧ ∀ x, x ∈ rows → enr_killmail_id x = enr_killmail_id r →
         enr_enriched_ts x ≤ enr_enriched_ts r.
Proof.
  revert rows. induction fuel as [|fuel IH]; intros rows Hr; simpl in Hr.
  - by apply elem_of_nil in Hr.
  - destruct rows as [|first rest]; [by apply elem_of_nil in Hr|].
    set (same := filter (λ r, enr_killmail_id r = enr_killmail_id first) rest) in *.
    apply elem_of_cons in Hr as [->|Hr].
    + pose proof (latest_by_in enr_enriched_ts first same) as Hin.
      assert (enr_killmail_id (latest_by enr_enriched_ts first same)
              = enr_killmail_id first) as Hid.
      { apply elem_of_cons in Hin as [->|Hin]; [done|].
        by apply list_elem_of_filter in Hin as [? _]. }
      split.
      * apply elem_of_cons in Hin as [->|Hin]; [apply elem_of_cons; by left|].
        apply elem_of_cons. right. by apply list_elem_of_filter in Hin as [_ ?].
      * intros x Hx Hxid. apply latest_by_max. rewrite Hid in Hxid.
        apply elem_of_cons in Hx as [->|Hx]; [apply elem_of_cons; by left|].
        apply elem_of_cons. right. by apply list_elem_of_filter.
    + apply IH in Hr as [Hin Hmax].
      apply list_elem_of_filter in Hin as [Hne Hin].
      split; [apply elem_of_cons; by right|].
      intros x Hx Hxid. apply Hmax; [|done].
      apply elem_of_cons in Hx as [->|Hx]; [congruence|].
      apply list_elem_of_filter. split; [congruence|done].
Qed.

Lemma latest_per_id_ids fuel rows r :
  r ∈ latest_per_id fuel rows → enr_killmail_id r ∈ map enr_killmail_id rows.
Proof.
  intros [Hr _]%latest_per_id_spec. by apply (list_elem_of_fmap_2 enr_killmail_id).
Qed.

Lemma latest_per_id_NoDup fuel rows :
  NoDup (map enr_killmail_id (latest_per_id fuel rows)).
Proof.
  revert rows. induction fuel as [|fuel IH]; intros rows; simpl; [constructor|].
  destruct rows as [|first rest]; simpl; [constructor|].
  set (same := filter (λ r, enr_killmail_id r = enr_killmail_id first) rest).
  assert (enr_killmail_id (latest_by enr_enriched_ts first same)
          = enr_killmail_id first) as Hid.
  { pose proof (latest_by_in enr_enriched_ts first same) as Hin.
    apply elem_of_cons in Hin as [->|Hin]; [done|].
    by apply list_elem_of_filter in Hin as [? _]. }
  constructor; [|apply IH].
  rewrite Hid. intros Hin. apply list_elem_of_fmap in Hin as (r & Hr & Hin).
  apply latest_per_id_ids in Hin.
  apply list_elem_of_fmap in Hin as (x & Hx & Hin).
  apply list_elem_of_filter in Hin as [Hne _]. congruence.
Qed.

Lemma latest_per_id_complete fuel rows x :
  (length rows ≤ fuel)%nat → x ∈ rows →
  ∃ r, r ∈ latest_per_id fuel rows ∧ enr_killmail_id r = enr_killmail_id x.
Proof.
  revert rows. induction fuel as [|fuel IH]; intros rows Hlen Hx.
  - destruct rows; [by apply elem_of_nil in Hx|simpl in Hlen; lia].
  - destruct rows as [|first rest]; [by apply elem_of_nil in Hx|]. simpl.
    set (same := filter (λ r, enr_killmail_id r = enr_killmail_id first) rest).
    destruct (decide (enr_killmail_id x = enr_killmail_id first)) as [Heq|Hne].
    + exists (latest_by enr_enriched_ts first same). split; [apply elem_of_cons; by left|].
      pose proof (latest_by_in enr_enriched_ts first same) as Hin.
      apply elem_of_cons in Hin as [->|Hin]; [done|].
      apply list_elem_of_filter in Hin as [? _]. congruence.
    + apply elem_of_cons in Hx as [->|Hx]; [done|].
      destruct (IH (filter (λ r, enr_killmail_id r ≠ enr_killmail_id first) rest) )
        as (r & Hr & Hid).
      * simpl in Hlen. pose proof (length_filter
          (λ r, enr_killmail_id r ≠ enr_killmail_id first) rest). lia.
      * by apply list_elem_of_filter.
      * exists r. split; [apply elem_of_cons; by right|done].
Qed.

Lemma filter_filter_length {A} (P Q : A → Prop) `{∀ x, Decision (P x)}
    `{∀ x, Decision (Q x)} (l : list A) :
  (length (filter P (filter Q l)) ≤ length (filter P l))%nat.
Proof.
  induction l as [|x l IH]; [done|].
  rewrite (filter_cons Q). destruct (decide (Q x)).
  - rewrite !filter_cons. destruct (decide (P x)); simpl; lia.
  - rewrite filter_cons. destruct (decide (P x)); simpl; lia.
Qed.

Lemma compact_view t l r' :
  r' ∈ v_kills_raw_state (compact_logs t l) →
  ∃ r, r ∈ v_kills_raw_state l
       ∧ killmail_id r = killmail_id r'
       ∧ (worked r' = true → worked r = true)
       ∧ attempts r' ≤ attempts r.
Proof.
  intros Hr'.
  pose proof (view_ids _ _ Hr') as Hid.
  apply list_elem_of_fmap in Hid as (x & Hx & Hin).
  apply list_elem_of_filter in Hin as [_ Hin].
  destruct (group_raw_complete l (length (redisq_raw_log l)) (redisq_raw_log l) x)
    as (r & Hr & Hrid); [done|done|].
  exists r. split; [exact Hr|]. split; [congruence|].
  assert (killmail_id r = killmail_id r') as Heq by congruence.
  split.
  - rewrite (view_worked _ _ Hr'), (view_worked _ _ Hr), Heq.
    rewrite !orb_true_iff, !bool_decide_eq_true.
    unfold done_enriched, done_discarded. simpl.
    intros [H|H]; [left|right];
      apply list_elem_of_fmap in H as (y & -> & Hy);
      apply list_elem_of_filter in Hy as [_ Hy];
      by apply list_elem_of_fmap_2.
  - rewrite (view_attempts _ _ Hr'), (view_attempts _ _ Hr), Heq. simpl.
    apply inj_le, filter_filter_length.
Qed.

End MaintenanceFacts.

Module Maintenance.
Import Store StoreFacts MaintenanceFacts Inputs.

(** X22. Compacting the logs never marks a killmail as worked and never
    adds attempts: every row of the view after the compaction has a row for
    the same killmail before it, with at least as many attempts, and which
    was worked if the new one is.  The converse fails: the enriched log is
    cut by [killmail_time] and the raw log by the time of the poll, so a
    killmail that was enriched can become pending again. *)
Theorem compaction_never_marks_worked (t : Clocks) (l : Logs) (r' : state_row) :
  r' ∈ v_kills_raw_state (compact_logs t l) →
  ∃ r, r ∈ v_kills_raw_state l
       ∧ killmail_id r = killmail_id r'
       ∧ (worked r' = true → worked r = true)
       ∧ attempts r' ≤ attempts r.
Proof. apply compact_view. Qed.

Lemma compaction_never_marks_worked_witness :
  ∃ r r',
    r' ∈ v_kills_raw_state (compact_logs day_401 old_kill)
    ∧ r ∈ v_kills_raw_state old_kill
    ∧ killmail_id r = killmail_id r'
    ∧ worked r = true ∧ is_pending r' = true.
Proof.
  assert (∃ r', v_kills_raw_state (compact_logs day_401 old_kill) = [r']
                ∧ is_pending r' = true) as (r' & Hv & Hp).
  { eexists. split; [vm_compute; reflexivity|vm_compute; reflexivity]. }
  assert (r' ∈ v_kills_raw_state (compact_logs day_401 old_kill)) as Hin.
  { rewrite Hv. apply list_elem_of_singleton. reflexivity. }
  destruct (compaction_never_marks_worked day_401 old_kill r' Hin)
    as (r & Hr & Hid & _ & _).
  exists r, r'. split; [exact Hin|]. split; [exact Hr|]. split; [exact Hid|].
  split; [|exact Hp].
  rewrite (view_worked _ _ Hr), Hid.
  assert (killmail_id r' = 1) as ->.
  { assert (killmail_id <$> v_kills_raw_state (compact_logs day_401 old_kill) = [1])
      as Hids by (vm_compute; reflexivity).
    rewrite Hv in Hids. by injection Hids. }
  vm_compute. reflexivity.
Defined.

(** X23. The table [kills_enriched] that the maintenance rebuilds holds, for
    every killmail with an enriched row of the last 365 days (by
    [killmail_time]), exactly one row: a row of the log from those 365 days
    with the greatest [enriched_ts] among the rows of that killmail. *)
Theorem kills_enriched_latest_per_kill (now : Z) (l : Logs) :
  NoDup (map enr_killmail_id (kills_enriched now l))
  ∧ (∀ r, r ∈ kills_enriched now l →
       r ∈ kills_enriched_log l
       ∧ days_before now 365 ≤ enr_killmail_time r
       ∧ ∀ x, x ∈ kills_enriched_log l →
              days_before now 365 ≤ enr_killmail_time x →
              enr_killmail_id x = enr_killmail_id r →
              enr_enriched_ts x ≤ enr_enriched_ts r)
  ∧ (∀ x, x ∈ kills_enriched_log l →
       days_before now 365 ≤ enr_killmail_time x →
       ∃ r, r ∈ kills_enriched now l ∧ enr_killmail_id r = enr_killmail_id x).
Proof.
  unfold kills_enriched. split; [apply latest_per_id_NoDup|]. split.
  - intros r [Hin Hmax]%latest_per_id_spec.
    apply list_elem_of_filter in Hin as [Ht Hin].
    split; [done|]. split; [done|].
    intros x Hx Hxt Hxid. apply Hmax; [|done]. by apply list_elem_of_filter.
  - intros x Hx Hxt. apply latest_per_id_complete; [done|].
    by apply list_elem_of_filter.
Qed.

End Maintenance.


(** ** The stand-alone enricher *)

Module EnricherFacts.
Import MonadFacts Observe ShipClassFacts CorpFacts EsiEnricher Enricher PollFacts.

Lemma dedup_ids_spec ids out :
  NoDup out →
  NoDup (dedup_ids ids out)
  ∧ out `prefix_of` dedup_ids ids out
  ∧ (∀ x, x ∈ dedup_ids ids out → x ∈ out ∨ x ∈ ids)
  ∧ (∀ x, x ∈ ids → x ∈ dedup_ids ids out).
Proof.
  revert out. induction ids as [|x ids IH]; intros out Hnd; simpl.
  - split; [done|]. split; [done|]. split; [auto|]. by intros x ?%elem_of_nil.
  - case_bool_decide as Hin.
    + destruct (IH out Hnd) as (H1 & H2 & H3 & H4).
      split; [done|]. split; [done|]. split.
      * intros y Hy. destruct (H3 y Hy); [by left|right; apply elem_of_cons; by right].
      * intros y [->|Hy]%elem_of_cons; [|by apply H4].
        by eapply elem_of_prefix.
    + destruct (IH (out ++ [x])) as (H1 & H2 & H3 & H4).
      { apply NoDup_app. split; [done|]. split; [|apply NoDup_singleton].
        intros y Hy ->%list_elem_of_singleton. done. }
      split; [done|]. split; [by etrans; [apply prefix_app_r|exact H2]|]. split.
      * intros y Hy. destruct (H3 y Hy) as [[?| ->%list_elem_of_singleton]%elem_of_app|?].
        -- by left.
        -- right. apply elem_of_cons. by left.
        -- right. apply elem_of_cons. by right.
      * intros y [->|Hy]%elem_of_cons; [|by apply H4].
        eapply elem_of_prefix; [|exact H2]. apply elem_of_app. right.
        by apply list_elem_of_singleton.
Qed.

Lemma first_final_blow_in xs a :
  first_final_blow xs = Ok (Some a) → a ∈ xs ∧ truthy a = true.
Proof.
  induction xs as [|x xs IH]; simpl; [done|]. intros H.
  apply res_bind_ok_inv in H as (fb & Hfb & H).
  destruct (is_True fb) eqn:Ht.
  - injection H as <-. split; [apply elem_of_cons; by left|].
    destruct x as [| | | | | |[|kv kvs]]; try done.
    simpl in Hfb. injection Hfb as <-. done.
  - destruct (IH H). split; [apply elem_of_cons; by right|done].
Qed.

Lemma max_damage_in best k rest top :
  max_damage best k rest = Ok top → top ∈ best :: rest.
Proof.
  revert best k. induction rest as [|a rest IH]; intros best k; simpl.
  - intros [= <-]. by apply list_elem_of_singleton.
  - intros H. apply res_bind_ok_inv in H as (ka & _ & H).
    destruct (k <? ka); apply IH in H; apply elem_of_cons in H as [->|H].
    + apply elem_of_cons; right. apply elem_of_cons. by left.
    + do 2 (apply elem_of_cons; right). done.
    + apply elem_of_cons. by left.
    + do 2 (apply elem_of_cons; right). done.
Qed.

Lemma top_attacker_in xs top : top_attacker xs = Ok top → top ∈ xs.
Proof.
  destruct xs as [|a rest]; simpl; [done|]. intros H.
  apply res_bind_ok_inv in H as (k & _ & H). by eapply max_damage_in.
Qed.

Lemma count_ids_keys xs acc counts k :
  count_ids xs acc = Ok counts → k ∈ map fst counts →
  k ∈ map fst acc ∨ attacker_corp xs k.
Proof.
  revert acc. induction xs as [|a xs IH]; intros acc; simpl.
  - intros [= <-]. by left.
  - intros H Hk. apply res_bind_ok_inv in H as (c & Hc & H).
    assert (∀ k, attacker_corp xs k → attacker_corp (a :: xs) k) as Hw.
    { intros k0 (b & Hb & Hbc). exists b. split; [apply elem_of_cons; by right|done]. }
    destruct c as [c|].
    + destruct (IH _ H Hk) as [Hin|Hin]; [|right; by apply Hw].
      rewrite bump_keys in Hin. case_bool_decide; [by left|].
      apply elem_of_app in Hin as [?| ->%list_elem_of_singleton]; [by left|].
      right. exists a. split; [apply elem_of_cons; by left|done].
    + destruct (IH _ H Hk) as [Hin|Hin]; [by left|right; by apply Hw].
Qed.

Lemma count_ids_NoDup xs acc counts :
  count_ids xs acc = Ok counts → NoDup (map fst acc) → NoDup (map fst counts).
Proof.
  revert acc. induction xs as [|a xs IH]; intros acc; simpl.
  - by intros [= <-].
  - intros H Hnd. apply res_bind_ok_inv in H as (c & Hc & H).
    destruct c as [c|]; eapply IH; try exact H; [by apply bump_NoDup|done].
Qed.

Lemma max_corp_key counts k : max_corp counts = Some k → k ∈ map fst counts.
Proof.
  destruct counts as [|kv rest]; simpl; [done|]. intros [= <-].
  destruct (max_count_spec kv rest) as (pre & post & Heq & _).
  apply (list_elem_of_fmap_2 fst (kv :: rest)). rewrite Heq.
  apply elem_of_app. right. apply elem_of_cons. by left.
Qed.

Lemma quarter_corps_keys counts n k :
  k ∈ quarter_corps counts n → k ∈ map fst counts.
Proof.
  unfold quarter_corps. intros (kv & -> & Hin)%list_elem_of_fmap.
  apply list_elem_of_filter in Hin as [_ Hin]. by apply (list_elem_of_fmap_2 fst).
Qed.

Lemma len_iter v n xs : len v = Ok n → iter v = Ok xs → n = length xs.
Proof.
  destruct v; simpl; try done; intros [= <-] [= <-];
    rewrite ?length_map; try done.
  clear. induction s as [|c s IH]; simpl; [done|]. by rewrite IH.
Qed.

Lemma len_zero v : len v = Ok 0%nat → iter v = Ok [].
Proof.
  destruct v as [| | | |s|xs|kvs]; simpl; try done.
  - by destruct s.
  - by destruct xs.
  - by destruct kvs.
Qed.

Lemma compute_attacker_corp_ids_spec km total out :
  compute_attacker_corp_ids km = Ok (total, out) →
  ∃ xs, attackers_of km = Ok xs
        ∧ total = length xs
        ∧ NoDup out
        ∧ (∀ k, k ∈ out → attacker_corp xs k)
        ∧ (∀ a k, first_final_blow xs = Ok (Some a) → corp_id a = Ok (Some k) →
                  ∃ rest, out = k :: rest).
Proof.
  unfold compute_attacker_corp_ids, attackers_of. intros H.
  apply res_bind_ok_inv in H as (att & Hatt & H). rewrite Hatt. simpl.
  apply res_bind_ok_inv in H as (n & Hlen & H).
  destruct (Nat.eqb_spec n 0) as [->|Hn].
  { injection H as <- <-. exists []. split; [by apply len_zero|].
    split; [done|]. split; [constructor|]. split; [by intros k ?%elem_of_nil|].
    by intros a k [=]. }
  apply res_bind_ok_inv in H as (xs & Hxs & H). exists xs.
  split; [done|].
  apply res_bind_ok_inv in H as (fb & Hfb & H).
  apply res_bind_ok_inv in H as (fb_c & Hfbc & H).
  apply res_bind_ok_inv in H as (top & Htop & H).
  apply res_bind_ok_inv in H as (top_c & Htopc & H).
  apply res_bind_ok_inv in H as (counts & Hcounts & [= <- <-]).
  split; [by eapply len_iter|].
  set (ids := omap id [fb_c; top_c; max_corp counts] ++ quarter_corps counts n).
  destruct (dedup_ids_spec ids [] (NoDup_nil_2)) as (Hnd & _ & Hsub & Hall).
  split; [done|]. split.
  - intros k Hk. destruct (Hsub k Hk) as [?%elem_of_nil|Hin]; [done|].
    assert (∀ k, k ∈ map fst counts → attacker_corp xs k) as Hkeys.
    { intros k0 Hk0. destruct (count_ids_keys _ _ _ _ Hcounts Hk0) as [?%elem_of_nil|?];
        done. }
    apply elem_of_app in Hin as [Hin|Hin]; [|by eapply Hkeys, quarter_corps_keys].
    apply list_elem_of_omap in Hin as (c & Hc & Hck). simpl in Hck. subst c.
    apply elem_of_cons in Hc as [<-|Hc].
    { destruct fb as [a|]; [|done]. apply first_final_blow_in in Hfb as [Ha Hta].
      rewrite Hta in Hfbc. by exists a. }
    apply elem_of_cons in Hc as [<-|Hc].
    { exists top. split; [by apply top_attacker_in|done]. }
    apply list_elem_of_singleton in Hc. by apply Hkeys, max_corp_key.
  - intros a k Ha Hk. rewrite Ha in Hfb. injection Hfb as <-.
    apply first_final_blow_in in Ha as [_ Hta]. rewrite Hta, Hk in Hfbc.
    injection Hfbc as <-. subst ids. simpl.
    destruct (dedup_ids_spec
                (omap id [top_c; max_corp counts] ++ quarter_corps counts n) [k])
      as (_ & [rest Hrest] & _); [apply NoDup_singleton|].
    exists rest. exact Hrest.
Qed.

Lemma pick_cat_skip pre rest :
  Forall (λ x, match x with JStr l => startswith "cat:" l = false | _ => True end)
         pre →
  pick_cat (pre ++ rest) = pick_cat rest.
Proof.
  induction 1 as [|x pre Hx _ IH]; [done|]. simpl.
  destruct x; try done. by rewrite Hx.
Qed.

End EnricherFacts.

Module EnricherCorps.
Import MonadFacts Observe ShipClassFacts CorpFacts EsiEnricher Enricher
  EnricherFacts Kills.

(** X24. [compute_attacker_corp_ids] returns the number of attackers and a
    list of corporation ids without repetition, each the corporation of one
    of the attackers; when the first attacker whose [final_blow] is [True]
    has a corporation, that corporation comes first. *)
Theorem corp_ids_distinct_and_attributed (km : json) (total : nat)
    (out : list Z) :
  compute_attacker_corp_ids km = Ok (total, out) →
  ∃ xs, attackers_of km = Ok xs
        ∧ total = length xs
        ∧ NoDup out
        ∧ (∀ k, k ∈ out → attacker_corp xs k)
        ∧ (∀ a k, first_final_blow xs = Ok (Some a) → corp_id a = Ok (Some k) →
                  ∃ rest, out = k :: rest).
Proof. apply compute_attacker_corp_ids_spec. Qed.

Lemma corp_ids_distinct_and_attributed_witness :
  compute_attacker_corp_ids km_corps = Ok (3%nat, [20; 10])
  ∧ ∃ xs, attackers_of km_corps = Ok xs ∧ 3%nat = length xs ∧ NoDup [20; 10].
Proof.
  split; [reflexivity|].
  destruct (corp_ids_distinct_and_attributed km_corps 3 [20; 10] eq_refl)
    as (xs & Hxs & Hlen & Hnd & _).
  exists xs. by repeat split.
Defined.

(** X25. The classification of the stand-alone enricher by the [cat:N]
    label: [capital] is given for 7 only (6 is taken by [freighter] before
    the test [6 <= cat <= 7] is reached), [structure] for 8, [subcapital]
    for 5 and less, nothing for 9 and more or without a number; the capsule
    flag is never [True]. *)
Theorem victim_bucket_cases (cat : option Z) :
  let '(bucket, is_freighter, is_capsule) := victim_bucket cat in
  (bucket = Some "capital" ↔ cat = Some 7)
  ∧ (bucket = Some "freighter" ↔ cat = Some 6)
  ∧ (bucket = Some "structure" ↔ cat = Some 8)
  ∧ (bucket = Some "subcapital" ↔ ∃ n, cat = Some n ∧ n ≤ 5)
  ∧ (bucket = None ↔ cat = None ∨ ∃ n, cat = Some n ∧ 9 ≤ n)
  ∧ (is_freighter = Some true ↔ cat = Some 6)
  ∧ is_capsule ≠ Some true.
Proof.
  unfold victim_bucket. destruct cat as [n|].
  - destruct (Z.eqb_spec n 6) as [->|H6].
    { repeat split; try done; try (intros [= ?]; lia).
      - intros (m & [= <-] & ?). lia.
      - intros [?|(m & [= <-] & ?)]; [done|lia]. }
    destruct (Z.eqb_spec n 8) as [->|H8].
    { repeat split; try done; try (intros [= ?]; lia).
      - intros (m & [= <-] & ?). lia.
      - intros [?|(m & [= <-] & ?)]; [done|lia]. }
    destruct (Z.leb_spec n 5) as [H5|H5].
    { repeat split; try done; try (intros [= ?]; lia).
      - eauto.
      - intros [?|(m & [= <-] & ?)]; [done|lia]. }
    destruct (Z.leb_spec 6 n) as [Hl|Hl]; [|lia].
    destruct (Z.leb_spec n 7) as [Hu|Hu]; simpl.
    + assert (n = 7) as -> by lia.
      repeat split; try done; try (intros [= ?]; lia).
      * intros (m & [= <-] & ?). lia.
      * intros [?|(m & [= <-] & ?)]; [done|lia].
    + repeat split; try done; try (intros [= ?]; lia).
      * intros (m & [= <-] & ?). lia.
      * intros _. right. exists n. split; [done|lia].
  - repeat split; try done.
    + by intros (m & ? & _).
    + by left.
Qed.

(** X26. [pick_cat] looks at the first label that starts with [cat:] and at
    no other: its value is what follows the first colon of that label, read
    as an integer, and [None] when that is no integer, whatever labels
    follow. *)
Theorem pick_cat_first_label (pre : list json) (l : string) (post : list json) :
  Forall (λ x, match x with JStr l => startswith "cat:" l = false | _ => True end)
         pre →
  startswith "cat:" l = true →
  pick_cat (pre ++ JStr l :: post)
  = int_of_string (String.substring 4 (String.length l - 4) l).
Proof.
  intros Hpre Hl. rewrite (pick_cat_skip _ _ Hpre). simpl. rewrite Hl.
  unfold startswith in Hl. apply String.prefix_correct in Hl.
  destruct l as [|c1 [|c2 [|c3 [|c4 l]]]]; simpl in Hl; try discriminate Hl.
  injection Hl as -> -> -> -> _.
  simpl. rewrite Nat.sub_0_r.
  assert (∀ s, String.substring 0 (String.length s) s = s) as Hsub.
  { clear. induction s as [|c s IH]; simpl; [done|]. by rewrite IH. }
  rewrite Hsub. by rewrite string_of_list_ascii_of_string.
Qed.

Lemma pick_cat_first_label_witness :
  pick_cat [JStr "pvp"; JStr "cat:x"; JStr "cat:7"] = None
  ∧ pick_cat [JStr "pvp"; JStr "cat:7"; JStr "cat:x"] = Some 7.
Proof.
  split.
  - apply (pick_cat_first_label [JStr "pvp"] "cat:x" [JStr "cat:7"]);
      [by repeat constructor|reflexivity].
  - apply (pick_cat_first_label [JStr "pvp"] "cat:7" [JStr "cat:x"]);
      [by repeat constructor|reflexivity].
Defined.

(** X27. The enricher's [bq_query_json] returns a list or raises: a
    non-zero exit status raises [RuntimeError]; otherwise an output that is
    blank, has no bracket, is no JSON from the first bracket on, or is JSON
    but no list, gives the empty list. *)
Theorem enricher_query_returns_list (env : Env) (returncode : Z)
    (stdout stderr : string) :
  (∀ v, bq_query_json env returncode stdout stderr = Ok v →
        returncode = 0 ∧ ∃ rows, v = JArr rows)
  ∧ (returncode ≠ 0 →
     ∃ msg, bq_query_json env returncode stdout stderr = Raise (RuntimeError msg))
  ∧ (returncode = 0 →
     (∀ s, json_loads env s = Raise JSONDecodeError ∨ is_ok (json_loads env s) = true) →
     ∃ rows, bq_query_json env returncode stdout stderr = Ok (JArr rows)).
Proof.
  unfold bq_query_json. split; [|split].
  - intros v. destruct (Z.eqb_spec returncode 0) as [->|Hne]; simpl; [|done].
    destruct (strip _) as [|c out]; [intros H; injection H as <-; eauto|].
    match goal with
    | |- context [match ?x with Some _ => _ | None => _ end] => destruct x as [j|]
    end; [|intros H; injection H as <-; eauto].
    destruct (json_loads env _) as [[]|[]]; try done;
      intros H; injection H as <-; eauto.
  - intros Hne. destruct (Z.eqb_spec returncode 0); [done|]. simpl. eauto.
  - intros -> Hloads. simpl.
    destruct (strip _) as [|c out]; [eauto|].
    match goal with
    | |- context [match ?x with Some _ => _ | None => _ end] => destruct x as [j|]
    end; [|eauto].
    destruct (Hloads (string_of_list_ascii j)) as [->|Hok]; [eauto|].
    destruct (json_loads env _) as [[]|]; try done; eauto.
Qed.

End EnricherCorps.


Module EnricherLoopFacts.
Import MonadFacts Observe ShipClassFacts EsiEnricher Enricher PollFacts.

Section Loop.
Context (env : Env) (ua : string).

Lemma attempt_inv km_id result stage reason status retry resp o s r s' :
  attempt env km_id result stage reason status retry resp o s = (r, s') →
  s' = emit (EvNowIso (clock_iso env (trace s))) s
  ∧ ∀ o', r = Ok o' →
      ∃ row, ea_rows o' = ea_rows o ++ [row]
             ∧ ekf_rows o' = ekf_rows o
             ∧ ea_killmail_id row = km_id ∧ ea_result row = result
             ∧ ea_stage row = stage ∧ ea_reason row = reason
             ∧ ea_http_status row = status.
Proof.
  unfold attempt. intros H.
  apply bind_inv in H as [(ts & s1 & Hts & H)|(e & [=] & _)].
  injection Hts as <- <-.
  apply bind_inv in H as [(ra & s2 & [_ ->]%lift_inv & H)|(e & [_ ->]%lift_inv & ->)];
    [|done].
  apply ret_inv in H as [-> ->]. split; [done|].
  intros o' [= <-]. eexists. by repeat split.
Qed.

Lemma candidate_step_spec c o s res s' :
  candidate_step env ua c o s = (res, s') →
  ∃ evs, trace s' = trace s ++ evs
         ∧ (length (gets evs) ≤ 1)%nat
         ∧ ∀ f o', res = Ok (f, o') → length (gets evs) = 1%nat ∧ step_ok o f o'.
Proof.
  unfold candidate_step. intros H.
  assert (∀ (e : exn) s0, (res, s') = (Raise e, s0) → s0 = s →
            ∃ evs, trace s' = trace s ++ evs
                   ∧ (length (gets evs) ≤ 1)%nat
                   ∧ ∀ f o', res = Ok (f, o') →
                       length (gets evs) = 1%nat ∧ step_ok o f o') as Hearly.
  { intros e s0 [= -> ->] ->. exists []. rewrite app_nil_r.
    split; [done|]. split; [simpl; lia|done]. }
  repeat (apply bind_inv in H
            as [(? & ? & [_ ->]%lift_inv & H)|(? & [_ ->]%lift_inv & ->)];
          [|by eapply Hearly]).
  clear Hearly.
  set (o0 := {| ea_rows := ea_rows o; ekf_rows := ekf_rows o;
                touched_dates := _ |}) in *.
  apply bind_inv in H as [(resp & s1 & Hget & H)|(e & Hget & ->)]; cycle 1.
  { injection Hget as _ <-. eexists [_]. split; [reflexivity|].
    split; [simpl; lia|done]. }
  injection Hget as _ <-.
  set (ev := EvGet _ _ _ _) in *.
  assert (∀ s2 evs2 (P : flow → Out → Prop),
            trace s2 = trace (emit ev s) ++ evs2 → gets evs2 = [] →
            (∀ f o', res = Ok (f, o') → P f o') →
            s' = s2 →
            ∃ evs, trace s' = trace s ++ evs
                   ∧ (length (gets evs) ≤ 1)%nat
                   ∧ ∀ f o', res = Ok (f, o') →
                       length (gets evs) = 1%nat ∧ P f o') as Hdone.
  { intros s2 evs2 P Ht Hg HP ->. exists (ev :: evs2).
    split; [by rewrite Ht; simpl; rewrite <- app_assoc|].
    change (ev :: evs2) with ([ev] ++ evs2). rewrite gets_app, Hg.
    split; [subst ev; simpl; lia|].
    intros f o' Hres. split; [by subst ev|]. by apply HP. }
  assert (∀ km_id result stage reason status retry o1 f s2 (P : flow → Out → Prop),
            (o' ← attempt env km_id result stage reason status retry resp o1;
             mret (f, o')) s2 = (res, s') →
            (∃ evs2, trace s2 = trace (emit ev s) ++ evs2 ∧ gets evs2 = []) →
            (∀ o' row, ea_rows o' = ea_rows o1 ++ [row] → ekf_rows o' = ekf_rows o1 →
                       ea_killmail_id row = km_id → ea_result row = result →
                       ea_stage row = stage → ea_reason row = reason →
                       ea_http_status row = status → P f o') →
            ∃ evs, trace s' = trace s ++ evs
                   ∧ (length (gets evs) ≤ 1)%nat
                   ∧ ∀ f o', res = Ok (f, o') →
                       length (gets evs) = 1%nat ∧ P f o') as Hrow.
  { intros km_id result stage reason status retry o1 f s2 P Hrun (evs2 & Ht2 & Hg2) HP.
    apply bind_inv in Hrun as [(o' & s3 & Hatt & Hrun)|(e & Hatt & ->)];
      apply attempt_inv in Hatt as [-> Hatt].
    - apply ret_inv in Hrun as [-> ->].
      apply (Hdone (emit (EvNowIso (clock_iso env (trace s2))) s2)
               (evs2 ++ [EvNowIso (clock_iso env (trace s2))])); [| | |done].
      + by rewrite trace_emit, Ht2, <- app_assoc.
      + rewrite gets_app, Hg2. done.
      + intros f' o'' [= <- <-].
        destruct (Hatt o' eq_refl) as (row & ? & ? & ? & ? & ? & ? & ?).
        by eapply HP.
    - apply (Hdone (emit (EvNowIso (clock_iso env (trace s2))) s2)
               (evs2 ++ [EvNowIso (clock_iso env (trace s2))])); [| | |done].
      + by rewrite trace_emit, Ht2, <- app_assoc.
      + rewrite gets_app, Hg2. done.
      + done. }
  assert (∃ evs2, trace (emit ev s) = trace (emit ev s) ++ evs2 ∧ gets evs2 = [])
    as Hnil by (exists []; by rewrite app_nil_r).
  destruct (Z.eqb_spec (status_code resp) 429) as [H429|H429].
  { eapply Hrow; [exact H|exact Hnil|].
    intros o' row Hea Hekf Hid Hres Hst Hreason Hstatus.
    exists row. split; [done|]. split; [left; rewrite Hstatus; by repeat split|].
    split; [done|]. right. split; [|done].
    unfold is_success. by rewrite Hres. }
  destruct (Z.eqb_spec (status_code resp) 404) as [H404|H404].
  { eapply Hrow; [exact H|exact Hnil|].
    intros o' row Hea Hekf Hid Hres Hst Hreason Hstatus.
    exists row. split; [done|]. split; [left; rewrite Hstatus; by repeat split|].
    split; [unfold rate_limited; by rewrite Hreason|]. right. split; [|done].
    unfold is_success. by rewrite Hres. }
  destruct (Z.eqb_spec (status_code resp) 200) as [H200|H200]; simpl in H; cycle 1.
  { eapply Hrow; [exact H|exact Hnil|].
    intros o' row Hea Hekf Hid Hres Hst Hreason Hstatus.
    exists row. split; [done|]. split; [left; rewrite Hstatus; by repeat split|].
    split.
    - unfold rate_limited. rewrite Hreason. simpl. by intros [=].
    - right. split; [|done]. unfold is_success. by rewrite Hres. }
  assert (∀ (e : exn) s0, (res, s') = (Raise e, s0) → s0 = emit ev s →
            ∃ evs, trace s' = trace s ++ evs
                   ∧ (length (gets evs) ≤ 1)%nat
                   ∧ ∀ f o', res = Ok (f, o') →
                       length (gets evs) = 1%nat ∧ step_ok o f o') as Hfail.
  { intros e s0 [= -> ->] ->. apply (Hdone (emit ev s) []); try done.
    by rewrite app_nil_r. }
  apply bind_inv in H as [(km & ? & [_ ->]%lift_inv & H)|(? & [_ ->]%lift_inv & ->)];
    [|by eapply Hfail].
  apply bind_inv in H as [([n ids] & ? & [_ ->]%lift_inv & H)|(? & [_ ->]%lift_inv & ->)];
    [|by eapply Hfail].
  repeat (apply bind_inv in H
            as [(? & ? & [_ ->]%lift_inv & H)|(? & [_ ->]%lift_inv & ->)];
          [|by eapply Hfail]).
  match type of H with
  | (match ?ps with [] => _ | _ => _ end) _ = _ => destruct ps as [|a more]
  end.
  { eapply Hrow; [exact H|exact Hnil|].
    intros o' row Hea Hekf Hid Hres Hst Hreason Hstatus.
    exists row. split; [done|]. split; [right; left; by repeat split|].
    split; [unfold rate_limited; by rewrite Hreason|]. right. split; [|done].
    unfold is_success. by rewrite Hres. }
  match type of H with
  | (if ?b then _ else _) _ = _ => destruct b
  end.
  { eapply Hrow; [exact H|exact Hnil|].
    intros o' row Hea Hekf Hid Hres Hst Hreason Hstatus.
    exists row. split; [done|]. split; [right; left; by repeat split|].
    split; [unfold rate_limited; by rewrite Hreason|]. right. split; [|done].
    unfold is_success. by rewrite Hres. }
  destruct (victim_bucket _) as [[bucket fr] cap].
  apply bind_inv in H as [(ts & s2 & Hts & H)|(e & [=] & _)].
  injection Hts as <- <-.
  set (s2 := emit (EvNowIso _) (emit ev s)) in *.
  assert (∃ evs2, trace s2 = trace (emit ev s) ++ evs2 ∧ gets evs2 = []) as Hone.
  { eexists [_]. split; [reflexivity|done]. }
  assert (∀ (e : exn) s0, (res, s') = (Raise e, s0) → s0 = s2 →
            ∃ evs, trace s' = trace s ++ evs
                   ∧ (length (gets evs) ≤ 1)%nat
                   ∧ ∀ f o', res = Ok (f, o') →
                       length (gets evs) = 1%nat ∧ step_ok o f o') as Hfail2.
  { intros e s0 [= -> ->] ->. destruct Hone as (evs2 & Ht2 & Hg2).
    by apply (Hdone s2 evs2). }
  repeat (apply bind_inv in H
            as [(? & ? & [_ ->]%lift_inv & H)|(? & [_ ->]%lift_inv & ->)];
          [|by eapply Hfail2]).
  eapply Hrow; [exact H|exact Hone|].
  intros o' row Hea Hekf Hid Hres Hst Hreason Hstatus.
  exists row. split; [done|].
  split; [right; right; by repeat split|].
  split; [unfold rate_limited; by rewrite Hreason|]. left.
  split; [done|]. eexists. split; [exact Hekf|]. by rewrite Hid.
Qed.

Lemma candidates_loop_spec cs o s res s' :
  candidates_loop env ua cs o s = (res, s') →
  ∃ evs, trace s' = trace s ++ evs
         ∧ (length (gets evs) ≤ length cs)%nat
         ∧ ∀ o', res = Ok o' →
             ∃ new_ea new_ekf,
               ea_rows o' = ea_rows o ++ new_ea
               ∧ ekf_rows o' = ekf_rows o ++ new_ekf
               ∧ length new_ea = length (gets evs)
               ∧ Forall ea_wf new_ea
               ∧ ekf_killmail_id <$> new_ekf
                 = ea_killmail_id <$> filter is_success new_ea
               ∧ only_last_rate_limited new_ea.
Proof.
  revert o s. induction cs as [|c cs IH]; intros o s H; simpl in H.
  - apply ret_inv in H as [-> ->]. exists []. rewrite app_nil_r.
    split; [done|]. split; [simpl; lia|].
    intros o' [= <-]. exists [], []. rewrite !app_nil_r.
    split; [done|]. split; [done|]. split; [done|]. split; [constructor|].
    split; [done|]. by intros i r ?.
  - apply bind_inv in H as [([f o1] & s1 & Hstep & H)|(e & Hstep & ->)]; cycle 1.
    { apply candidate_step_spec in Hstep as (evs & Ht & Hg & _).
      exists evs. split; [done|]. split; [simpl; lia|done]. }
    apply candidate_step_spec in Hstep as (evs1 & Ht1 & Hg1 & Hok).
    destruct (Hok f o1 eq_refl) as (Hone & row & Hea & Hwf & Hrl & Hekf).
    destruct f.
    + apply IH in H as (evs2 & Ht2 & Hg2 & Hrest).
      exists (evs1 ++ evs2). split; [by rewrite Ht2, Ht1, app_assoc|].
      rewrite gets_app, length_app. split; [simpl; lia|].
      intros o' Hres.
      destruct (Hrest o' Hres) as (ea2 & ekf2 & Hea2 & Hekf2 & Hlen2 & Hwf2 & Hids2 & Hrl2).
      assert (∃ e1, ekf_rows o1 = ekf_rows o ++ e1
                    ∧ ekf_killmail_id <$> e1
                      = ea_killmail_id <$> filter is_success [row]) as (e1 & He1 & Hid1).
      { destruct Hekf as [(Hs & e & He & Hid)|(Hs & He)].
        - exists [e]. split; [done|]. rewrite filter_cons, filter_nil.
          destruct (decide (is_success row)); [|done]. simpl. by rewrite Hid.
        - exists []. rewrite app_nil_r. split; [done|].
          rewrite filter_cons, filter_nil. by destruct (decide (is_success row)). }
      exists (row :: ea2), (e1 ++ ekf2).
      split; [by rewrite Hea2, Hea, <- app_assoc|].
      split; [by rewrite Hekf2, He1, <- app_assoc|].
      split; [simpl; lia|]. split; [by constructor|]. split.
      * rewrite fmap_app, Hid1, Hids2.
        change (row :: ea2) with ([row] ++ ea2). by rewrite filter_app, fmap_app.
      * intros i r Hi Hr. destruct i as [|i]; simpl in Hi.
        -- injection Hi as <-. by specialize (Hrl Hr).
        -- simpl. f_equal. by eapply Hrl2.
    + apply ret_inv in H as [-> ->].
      exists evs1. split; [done|]. split; [simpl; lia|].
      intros o' [= <-].
      destruct Hekf as [(Hs & e & He & Hid)|(Hs & He)].
      * exists [row], [e]. split; [done|]. split; [done|]. split; [by rewrite Hone|].
        split; [by constructor|]. split.
        -- rewrite filter_cons, filter_nil.
           destruct (decide (is_success row)); [|done]. simpl. by rewrite Hid.
        -- intros [|i] r Hi _; [done|]. by destruct i.
      * exists [row], []. rewrite app_nil_r. split; [done|]. split; [done|].
        split; [by rewrite Hone|]. split; [by constructor|]. split.
        -- rewrite filter_cons, filter_nil. by destruct (decide (is_success row)).
        -- intros [|i] r Hi _; [done|]. by destruct i.
Qed.
End Loop.
End EnricherLoopFacts.

Module EnricherLoop.
Import MonadFacts Observe ShipClassFacts EsiEnricher Enricher PollFacts
  EnricherLoopFacts.

(** X28. The loop of the stand-alone enricher makes at most one request per
    candidate.  When it ends normally it has added exactly one attempt row
    per request, each of them FAIL/killmail (status other than 200),
    DISCARD/filter or SUCCESS/killmail (status 200); the rows added to the
    enriched file are those of the SUCCESS attempts, in the same order; and
    a RATE_LIMIT attempt is the last row: after an answer 429 the loop
    stops. *)
Theorem enricher_one_attempt_per_request (env : Env) (ua : string)
    (candidates : list json) (s : State) (res : Res Out) (s' : State) :
  candidates_loop env ua candidates empty_out s = (res, s') →
  ∃ evs, trace s' = trace s ++ evs
         ∧ (length (gets evs) ≤ length candidates)%nat
         ∧ ∀ o, res = Ok o →
             length (ea_rows o) = length (gets evs)
             ∧ Forall ea_wf (ea_rows o)
             ∧ ekf_killmail_id <$> ekf_rows o
               = ea_killmail_id <$> filter is_success (ea_rows o)
             ∧ only_last_rate_limited (ea_rows o).
Proof.
  intros (evs & Ht & Hg & Hok)%candidates_loop_spec.
  exists evs. split; [done|]. split; [done|].
  intros o Hres. destruct (Hok o Hres) as (ea & ekf & Hea & Hekf & H).
  simpl in Hea, Hekf. by rewrite Hea, Hekf.
Qed.

Lemma enricher_one_attempt_per_request_witness :
  ∃ o s' evs,
    candidates_loop esi_busy "EOU/0.1" [candidate 1; candidate 2; candidate 3]
      empty_out init_state = (Ok o, s')
    ∧ trace s' = [] ++ evs
    ∧ length (gets evs) = 2%nat
    ∧ ea_reason <$> ea_rows o = [Some "NOT_READY"; Some "RATE_LIMIT"]
    ∧ only_last_rate_limited (ea_rows o).
Proof.
  destruct (candidates_loop esi_busy "EOU/0.1" [candidate 1; candidate 2; candidate 3]
              empty_out init_state) as [res s'] eqn:H.
  destruct (enricher_one_attempt_per_request _ _ _ _ _ _ H) as (evs & Ht & _ & Hok).
  assert (∃ o, res = Ok o ∧ ea_reason <$> ea_rows o
                            = [Some "NOT_READY"; Some "RATE_LIMIT"]) as (o & -> & Hr).
  { vm_compute in H. injection H as <- _. eexists. split; [reflexivity|].
    vm_compute. reflexivity. }
  destruct (Hok o eq_refl) as (Hlen & _ & _ & Hrl).
  exists o, s', evs. split; [reflexivity|]. split; [exact Ht|].
  split; [|split; [exact Hr|exact Hrl]].
  rewrite <- Hlen. apply (f_equal length) in Hr. by rewrite length_fmap in Hr.
Defined.

End EnricherLoop.


(** ** The validator without a body, and the listener as a whole *)

Module LastEdges.
Import MonadFacts Observe EsiFacts ShipClassFacts PollFacts Envs.

(** X29. [get_json] stores the [ETag] before it parses the body: an answer
    that is no error, carries an [ETag] and has a body that is no JSON makes
    the call raise with the validator kept and nothing cached, so that the
    next request for the path is a conditional one (and an answer 304 to it
    finds no cached body). *)
Theorem etag_kept_without_body (env : Env) (ua path tag : string) (s : State)
    (resp : response) :
  esi_cache s !! (ESI_BASE +:+ path) = None →
  esi_answer env ua path s = Ok resp →
  status_code resp ≠ 304 → ¬ (400 ≤ status_code resp < 600) →
  header "ETag" (headers resp) = Some tag →
  body resp = None →
  ∃ s', get_json env ua path s = (Raise JSONDecodeError, s')
        ∧ esi_etag s' !! (ESI_BASE +:+ path) = Some tag
        ∧ esi_cache s' !! (ESI_BASE +:+ path) = None
        ∧ esi_headers ua (ESI_BASE +:+ path) s'
          = [("User-Agent", ua); ("If-None-Match", tag)].
Proof.
  intros Hc Hans H304 Herr Htag Hbody.
  unfold esi_answer, esi_headers in Hans.
  destruct (respect_error_limit (headers resp)
              (emit (EvGet (ESI_BASE +:+ path) []
                       (("User-Agent", ua) ::
                        match esi_etag s !! (ESI_BASE +:+ path) with
                        | Some t => [("If-None-Match", t)]
                        | None => []
                        end) (Ok resp)) s)) as [r1 s1] eqn:Hrl.
  pose proof (respect_error_limit_spec _ _ _ _ Hrl) as (-> & Hc1 & He1 & _).
  exists {| trace := trace s1; esi_cache := esi_cache s1;
            esi_etag := <[ESI_BASE +:+ path := tag]> (esi_etag s1) |}.
  split; [|split; [|split]].
  - unfold get_json.
    erewrite bind_ok; [|reflexivity]. rewrite Hc.
    erewrite bind_ok; [|reflexivity].
    erewrite bind_ok; [|unfold requests_get; rewrite Hans; reflexivity].
    erewrite bind_ok; [|exact Hrl].
    destruct (Z.eqb_spec (status_code resp) 304); [done|].
    erewrite bind_ok; cycle 1.
    { unfold lift, raise_for_status.
      destruct (Z.leb_spec 400 (status_code resp)),
               (Z.ltb_spec (status_code resp) 600); simpl; try reflexivity. lia. }
    rewrite Htag.
    erewrite bind_ok; [|reflexivity].
    apply bind_raise. unfold lift, response_json. by rewrite Hbody.
  - simpl. by rewrite lookup_insert_eq.
  - simpl. by rewrite Hc1.
  - unfold esi_headers. simpl. by rewrite lookup_insert_eq.
Qed.

Lemma etag_kept_without_body_witness :
  let env := with_get (λ _ _ _ _,
                         Ok {| status_code := 200; headers := [("ETag", "v1")];
                               body := None; text := "<html>" |}) calm in
  ∃ s', get_json env "EOU/0.1" jita_path init_state = (Raise JSONDecodeError, s')
        ∧ esi_etag s' !! (ESI_BASE +:+ jita_path) = Some "v1"
        ∧ esi_cache s' !! (ESI_BASE +:+ jita_path) = None.
Proof.
  intros env.
  destruct (etag_kept_without_body env "EOU/0.1" jita_path "v1" init_state
              {| status_code := 200; headers := [("ETag", "v1")];
                 body := None; text := "<html>" |})
    as (s' & H & He & Hc & _); try done; [simpl; lia|].
  exists s'. by repeat split.
Defined.

Section Listener.
Context (env : Env) (q : string) (ttw max_packages : Z) (out_dir : string).

(** X30. A run of the stand-alone listener that ends normally has created
    the output directory and an empty output file, polled at most
    [max_packages] times, and then written [raw_file.txt] with the path of
    the output file and printed the number of lines it wrote to it. *)
Theorem listener_leaves_pointer (s s' : State) :
  RqListener.main env q ttw max_packages out_dir s = (Ok tt, s') →
  ∃ out_file polls,
    trace s'
    = trace s
      ++ [EvMakedirs out_dir (Ok tt);
          EvNowIso (clock_iso env (trace s ++ [EvMakedirs out_dir (Ok tt)]));
          EvWrite out_file [] (Ok tt)]
      ++ polls
      ++ [EvWrite (RqListener.path_join out_dir "raw_file.txt") [out_file] (Ok tt);
          EvPrint ("RedisQ packages written: "
                   +:+ pretty (length (Admin.written_lines out_file polls))
                   +:+ " -> " +:+ out_file)]
    ∧ (length (gets polls) ≤ Z.to_nat max_packages)%nat.
Proof.
  unfold RqListener.main. intros H.
  apply bind_ok_inv in H as ([] & s1 & Hmk & H).
  unfold makedirs in Hmk.
  destruct (fs_makedirs env (trace s) out_dir) as [[]|] eqn:Hd; [|done].
  injection Hmk as <-.
  apply bind_ok_inv in H as (stamp & s2 & Hst & H).
  injection Hst as <- <-.
  set (out_file := RqListener.path_join out_dir _) in *.
  apply bind_ok_inv in H as ([] & s3 & Hw & H).
  unfold write_file in Hw.
  destruct (fs_write env _ out_file []) as [[]|] eqn:Hw1; [|done].
  injection Hw as <-.
  apply bind_ok_inv in H as (got & s4 & Hpoll & H).
  apply poll_loop_bounded in Hpoll as (polls & Htp & Hlen & _ & Hgot).
  specialize (Hgot got eq_refl). simpl in Hgot. subst got.
  apply bind_ok_inv in H as ([] & s5 & Hw & H).
  unfold write_file in Hw.
  destruct (fs_write env _ _ [out_file]) as [[]|] eqn:Hw2; [|done].
  injection Hw as <-.
  injection H as <-.
  exists out_file, polls. split; [|done].
  rewrite !trace_emit, Htp, !trace_emit, <- !app_assoc. reflexivity.
Qed.
End Listener.

Lemma listener_leaves_pointer_witness :
  ∃ s' out_file polls,
    RqListener.main queue_empty "q1" 10 3 "out" init_state = (Ok tt, s')
    ∧ Exists (λ e, e = EvWrite "out/raw_file.txt" [out_file] (Ok tt)) (trace s')
    ∧ (length (gets polls) ≤ 3)%nat.
Proof.
  destruct (RqListener.main queue_empty "q1" 10 3 "out" init_state)
    as [[[]|e] s'] eqn:H; [|vm_compute in H; discriminate H].
  destruct (listener_leaves_pointer queue_empty "q1" 10 3 "out" init_state s' H)
    as (out_file & polls & Ht & Hlen).
  exists s', out_file, polls. split; [reflexivity|]. split; [|exact Hlen].
  rewrite Ht. apply Exists_app. right. apply Exists_app. right.
  apply Exists_app. right. by apply Exists_cons_hd.
Defined.

End LastEdges.
